(** * Solar system: camera controller, orbital motion and focus transition

    A shallow embedding of [orbit-controls.js] (class [OrbitControls]) and of
    the motion and focus logic of [script.js] (class [SolarSystem]), with
    its construction of the bodies, its fallback controls and its pointer
    position.

    Numbers.  A JavaScript number is modelled by [num]: a real number
    or one of the three special values of IEEE 754 (the two infinities and
    NaN).  Rounding is abstracted (finite arithmetic is exact real
    arithmetic) and the negative zero is identified with the positive one;
    the special values are kept because the source divides by pointer
    distances and viewport sizes that can be zero, and because
    [maxDistance] defaults to [Infinity].

    three.js.  The classes [Vector2], [Vector3], [Spherical] and
    [Quaternion] belong to three.js r128 (the release the README names);
    the methods the source calls are transcribed in module [THREE]. *)

From Stdlib Require Import Reals Lra Lia ZArith List Bool String.
From stdpp Require Import gmap strings.
Import ListNotations.
Local Open Scope R_scope.

(* ================================================================== *)
(** ** JavaScript numbers *)

Inductive num : Type :=
| Fin (r : R)
| PInf
| NInf
| NaN.

Module JsNum.

(** Three-way case on the sign of a real. *)
Definition Rcase {A : Type} (r : R) (neg zero pos : A) : A :=
  match total_order_T r 0 with
  | inleft (left _) => neg
  | inleft (right _) => zero
  | inright _ => pos
  end.

Definition neg (a : num) : num :=
  match a with
  | Fin r => Fin (- r)
  | PInf => NInf
  | NInf => PInf
  | NaN => NaN
  end.

Definition add (a b : num) : num :=
  match a, b with
  | NaN, _ | _, NaN => NaN
  | Fin r, Fin s => Fin (r + s)
  | PInf, NInf | NInf, PInf => NaN
  | PInf, _ | _, PInf => PInf
  | NInf, _ | _, NInf => NInf
  end.

Definition sub (a b : num) : num := add a (neg b).

Definition mul (a b : num) : num :=
  match a, b with
  | NaN, _ | _, NaN => NaN
  | Fin r, Fin s => Fin (r * s)
  | Fin r, PInf | PInf, Fin r => Rcase r NInf NaN PInf
  | Fin r, NInf | NInf, Fin r => Rcase r PInf NaN NInf
  | PInf, PInf | NInf, NInf => PInf
  | PInf, NInf | NInf, PInf => NInf
  end.

(** [a / b].  A zero divisor is the positive zero: finite over zero is an
    infinity of the sign of the dividend, zero over zero is NaN. *)
Definition div (a b : num) : num :=
  match a, b with
  | NaN, _ | _, NaN => NaN
  | Fin r, Fin s =>
      if Req_dec_T s 0 then Rcase r NInf NaN PInf else Fin (r / s)
  | Fin _, PInf | Fin _, NInf => Fin 0
  | PInf, Fin s => if Rlt_dec s 0 then NInf else PInf
  | NInf, Fin s => if Rlt_dec s 0 then PInf else NInf
  | PInf, PInf | PInf, NInf | NInf, PInf | NInf, NInf => NaN
  end.

(** [a < b] and [a > b] as the source tests them: false on NaN. *)
Definition ltb (a b : num) : bool :=
  match a, b with
  | NaN, _ | _, NaN => false
  | Fin r, Fin s => if Rlt_dec r s then true else false
  | NInf, NInf | PInf, _ => false
  | NInf, _ | Fin _, PInf => true
  | Fin _, NInf => false
  end.

Definition gtb (a b : num) : bool := ltb b a.

(** [a === 0]. *)
Definition is_zero (a : num) : bool :=
  match a with
  | Fin r => if Req_dec_T r 0 then true else false
  | _ => false
  end.

(** [a || d] on numbers: [d] when [a] is falsy (zero or NaN). *)
Definition or_else (a d : num) : num :=
  match a with
  | Fin r => if Req_dec_T r 0 then d else a
  | NaN => d
  | _ => a
  end.

(** Order on numbers, as a proposition: false as soon as NaN occurs. *)
Definition le (a b : num) : Prop :=
  match a, b with
  | NaN, _ | _, NaN => False
  | Fin r, Fin s => r <= s
  | NInf, _ | _, PInf => True
  | PInf, _ | _, NInf => False
  end.

Definition finite (a : num) : Prop :=
  match a with Fin _ => True | _ => False end.

Definition is_nan (a : num) : Prop :=
  match a with NaN => True | _ => False end.

End JsNum.

Declare Scope js_scope.
Delimit Scope js_scope with js.
Bind Scope js_scope with num.
Infix "+" := JsNum.add : js_scope.
Infix "-" := JsNum.sub : js_scope.
Infix "*" := JsNum.mul : js_scope.
Infix "/" := JsNum.div : js_scope.
Notation "- a" := (JsNum.neg a) : js_scope.

(** The functions of the global [Math] object that the source calls. *)
Module Math.

(** [Math.max] and [Math.min]: NaN as soon as one argument is NaN. *)
Definition max (a b : num) : num :=
  match a, b with
  | NaN, _ | _, NaN => NaN
  | PInf, _ | _, PInf => PInf
  | NInf, c | c, NInf => c
  | Fin r, Fin s => Fin (Rmax r s)
  end.

Definition min (a b : num) : num :=
  match a, b with
  | NaN, _ | _, NaN => NaN
  | NInf, _ | _, NInf => NInf
  | PInf, c | c, PInf => c
  | Fin r, Fin s => Fin (Rmin r s)
  end.

Definition abs (a : num) : num :=
  match a with
  | Fin r => Fin (Rabs r)
  | PInf | NInf => PInf
  | NaN => NaN
  end.

Definition sqrt (a : num) : num :=
  match a with
  | Fin r => if Rlt_dec r 0 then NaN else Fin (R_sqrt.sqrt r)
  | PInf => PInf
  | NInf | NaN => NaN
  end.

(** [Math.pow(a, e)] for a finite exponent [e]; every call of the source
    passes a literal exponent (0.1, 1 or 3). *)
Definition pow (a : num) (e : R) : num :=
  if Req_dec_T e 0 then Fin 1 else
  match a with
  | NaN => NaN
  | Fin r =>
      JsNum.Rcase r
        (if Req_dec_T (frac_part e) 0
         then Fin (powerRZ r (Int_part e)) else NaN)
        (if Rlt_dec 0 e then Fin 0 else PInf)
        (Fin (Rpower r e))
  | PInf => if Rlt_dec 0 e then PInf else Fin 0
  | NInf =>
      if Rlt_dec 0 e
      then (if Req_dec_T (frac_part e) 0
            then (if Z.odd (Int_part e) then NInf else PInf)
            else PInf)
      else Fin 0
  end.

Definition cos (a : num) : num :=
  match a with Fin r => Fin (Rtrigo_def.cos r) | _ => NaN end.

Definition sin (a : num) : num :=
  match a with Fin r => Fin (Rtrigo_def.sin r) | _ => NaN end.

Definition tan (a : num) : num :=
  match a with Fin r => Fin (Rtrigo1.tan r) | _ => NaN end.

Definition acos (a : num) : num :=
  match a with
  | Fin r =>
      if Rle_dec (-1) r
      then (if Rle_dec r 1 then Fin (Ratan.acos r) else NaN)
      else NaN
  | _ => NaN
  end.

(** [Math.atan2(y, x)] on reals. *)
Definition Ratan2 (y x : R) : R :=
  JsNum.Rcase x
    (if Rlt_dec y 0 then atan (y / x) - PI else atan (y / x) + PI)
    (JsNum.Rcase y (- (PI / 2)) 0 (PI / 2))
    (atan (y / x)).

Definition atan2 (y x : num) : num :=
  match y, x with
  | NaN, _ | _, NaN => NaN
  | Fin r, Fin s => Fin (Ratan2 r s)
  | Fin _, PInf => Fin 0
  | Fin r, NInf => if Rlt_dec r 0 then Fin (- PI) else Fin PI
  | PInf, Fin _ => Fin (PI / 2)
  | NInf, Fin _ => Fin (- (PI / 2))
  | PInf, PInf => Fin (PI / 4)
  | PInf, NInf => Fin (3 * PI / 4)
  | NInf, PInf => Fin (- (PI / 4))
  | NInf, NInf => Fin (- (3 * PI / 4))
  end.

Definition PI : num := Fin Rtrigo1.PI.

End Math.

(* ================================================================== *)
(** ** three.js r128: the vector classes *)

Module THREE.

Module MathUtils.

Definition clamp (value lo hi : num) : num :=
  Math.max lo (Math.min hi value).

End MathUtils.

Module Vector2.

Record t : Type := mk { x : num; y : num }.

Definition zero : t := mk (Fin 0) (Fin 0).

Definition subVectors (a b : t) : t :=
  mk (x a - x b)%js (y a - y b)%js.

Definition multiplyScalar (v : t) (s : num) : t :=
  mk (x v * s)%js (y v * s)%js.

End Vector2.

Module Quaternion.

Record t : Type := mk { x : num; y : num; z : num; w : num }.

Definition length (q : t) : num :=
  Math.sqrt (x q * x q + y q * y q + z q * z q + w q * w q)%js.

Definition normalize (q : t) : t :=
  let l := length q in
  if JsNum.is_zero l then mk (Fin 0) (Fin 0) (Fin 0) (Fin 1)
  else
    let l := (Fin 1 / l)%js in
    mk (x q * l)%js (y q * l)%js (z q * l)%js (w q * l)%js.

(** [invert] is [conjugate] (unit quaternions). *)
Definition invert (q : t) : t :=
  mk (x q * Fin (-1))%js (y q * Fin (-1))%js (z q * Fin (-1))%js (w q).

End Quaternion.

Module Vector3.

Record t : Type := mk { x : num; y : num; z : num }.

Definition zero : t := mk (Fin 0) (Fin 0) (Fin 0).

Definition add (a v : t) : t :=
  mk (x a + x v)%js (y a + y v)%js (z a + z v)%js.

Definition sub (a v : t) : t :=
  mk (x a - x v)%js (y a - y v)%js (z a - z v)%js.

Definition multiplyScalar (a : t) (s : num) : t :=
  mk (x a * s)%js (y a * s)%js (z a * s)%js.

Definition divideScalar (a : t) (s : num) : t :=
  multiplyScalar a (Fin 1 / s)%js.

Definition dot (a v : t) : num :=
  (x a * x v + y a * y v + z a * z v)%js.

Definition length (a : t) : num :=
  Math.sqrt (x a * x a + y a * y a + z a * z a)%js.

Definition normalize (a : t) : t :=
  divideScalar a (JsNum.or_else (length a) (Fin 1)).

Definition crossVectors (a b : t) : t :=
  mk (y a * z b - z a * y b)%js
     (z a * x b - x a * z b)%js
     (x a * y b - y a * x b)%js.

Definition distanceToSquared (a v : t) : num :=
  let dx := (x a - x v)%js in
  let dy := (y a - y v)%js in
  let dz := (z a - z v)%js in
  (dx * dx + dy * dy + dz * dz)%js.

Definition distanceTo (a v : t) : num :=
  Math.sqrt (distanceToSquared a v).

Definition applyQuaternion (v : t) (q : Quaternion.t) : t :=
  let qx := Quaternion.x q in
  let qy := Quaternion.y q in
  let qz := Quaternion.z q in
  let qw := Quaternion.w q in
  let ix := (qw * x v + qy * z v - qz * y v)%js in
  let iy := (qw * y v + qz * x v - qx * z v)%js in
  let iz := (qw * z v + qx * y v - qy * x v)%js in
  let iw := (- qx * x v - qy * y v - qz * z v)%js in
  mk (ix * qw + iw * - qx + iy * - qz - iz * - qy)%js
     (iy * qw + iw * - qy + iz * - qx - ix * - qz)%js
     (iz * qw + iw * - qz + ix * - qy - iy * - qx)%js.

Definition setFromSphericalCoords (radius phi theta : num) : t :=
  let sinPhiRadius := (Math.sin phi * radius)%js in
  mk (sinPhiRadius * Math.sin theta)%js
     (Math.cos phi * radius)%js
     (sinPhiRadius * Math.cos theta)%js.

(** [this.lerp(v, alpha)]: moves [this] toward [v]. *)
Definition lerp (a v : t) (alpha : num) : t :=
  mk (x a + (x v - x a) * alpha)%js
     (y a + (y v - y a) * alpha)%js
     (z a + (z v - z a) * alpha)%js.

Definition lerpVectors (v1 v2 : t) (alpha : num) : t :=
  mk (x v1 + (x v2 - x v1) * alpha)%js
     (y v1 + (y v2 - y v1) * alpha)%js
     (z v1 + (z v2 - z v1) * alpha)%js.

End Vector3.

(** [new Quaternion().setFromUnitVectors(vFrom, vTo)]. *)
Definition setFromUnitVectors (vFrom vTo : Vector3.t) : Quaternion.t :=
  let r := (Vector3.dot vFrom vTo + Fin 1)%js in
  if JsNum.ltb r (Fin 0.000001) then
    if JsNum.gtb (Math.abs (Vector3.x vFrom)) (Math.abs (Vector3.z vFrom))
    then Quaternion.normalize
           (Quaternion.mk (- Vector3.y vFrom)%js (Vector3.x vFrom)
                          (Fin 0) (Fin 0))
    else Quaternion.normalize
           (Quaternion.mk (Fin 0) (- Vector3.z vFrom)%js
                          (Vector3.y vFrom) (Fin 0))
  else
    Quaternion.normalize
      (Quaternion.mk
         (Vector3.y vFrom * Vector3.z vTo - Vector3.z vFrom * Vector3.y vTo)%js
         (Vector3.z vFrom * Vector3.x vTo - Vector3.x vFrom * Vector3.z vTo)%js
         (Vector3.x vFrom * Vector3.y vTo - Vector3.y vFrom * Vector3.x vTo)%js
         r).

Module Spherical.

Record t : Type := mk { radius : num; phi : num; theta : num }.

(** [new THREE.Spherical()]: radius 1, both angles 0. *)
Definition default : t := mk (Fin 1) (Fin 0) (Fin 0).

Definition setFromCartesianCoords (x y z : num) : t :=
  let radius := Math.sqrt (x * x + y * y + z * z)%js in
  if JsNum.is_zero radius then mk radius (Fin 0) (Fin 0)
  else mk radius
          (Math.acos (MathUtils.clamp (y / radius)%js (Fin (-1)) (Fin 1)))
          (Math.atan2 x z).

Definition setFromVector3 (v : Vector3.t) : t :=
  setFromCartesianCoords (Vector3.x v) (Vector3.y v) (Vector3.z v).

End Spherical.

Definition setFromSpherical (s : Spherical.t) : Vector3.t :=
  Vector3.setFromSphericalCoords
    (Spherical.radius s) (Spherical.phi s) (Spherical.theta s).

(** World position of a point [v] of a group placed at the origin and
    rotated by [theta] about the vertical axis ([rotation.y = theta]):
    the matrix of that rotation has rows (c, 0, s), (0, 1, 0), (-s, 0, c). *)
Definition applyRotationY (theta : num) (v : Vector3.t) : Vector3.t :=
  Vector3.mk
    (Math.cos theta * Vector3.x v + Math.sin theta * Vector3.z v)%js
    (Vector3.y v)
    (- Math.sin theta * Vector3.x v + Math.cos theta * Vector3.z v)%js.

End THREE.

(* ================================================================== *)
(** ** orbit-controls.js: class OrbitControls *)

Module OrbitControls.

Import THREE.

(** The part of [THREE.PerspectiveCamera] the controller reads and writes.
    [lookAt] only writes the camera's orientation, which nothing below
    reads; it is left out. *)
Module PerspectiveCamera.

Record t : Type := mk { position : Vector3.t; up : Vector3.t; fov : num }.

Definition set_position (v : Vector3.t) (c : t) : t := mk v (up c) (fov c).

End PerspectiveCamera.

Module DomElement.

Record t : Type := mk { clientHeight : num }.

End DomElement.

(** [this.state = { NONE: -1, ROTATE: 0, DOLLY: 1, PAN: 2 }]. *)
Inductive STATE : Type := NONE | ROTATE | DOLLY | PAN.

Definition STATE_eqb (a b : STATE) : bool :=
  match a, b with
  | NONE, NONE | ROTATE, ROTATE | DOLLY, DOLLY | PAN, PAN => true
  | _, _ => false
  end.

(** The fields of the constructor, in its order ([minZoom], [maxZoom],
    [lastPosition] and [lastQuaternion] are never read and are left out).
    [listening] records whether [onMouseMove] and [onMouseUp] are registered
    on the document. *)
Record t : Type := mk {
  camera : PerspectiveCamera.t;
  domElement : DomElement.t;
  enabled : bool;
  target : Vector3.t;
  enableDamping : bool;
  dampingFactor : num;
  minDistance : num;
  maxDistance : num;
  autoRotate : bool;
  autoRotateSpeed : num;
  currentState : STATE;
  spherical : Spherical.t;
  sphericalDelta : Spherical.t;
  panOffset : Vector3.t;
  zoomChanged : bool;
  rotateStart : Vector2.t;
  rotateEnd : Vector2.t;
  rotateDelta : Vector2.t;
  panStart : Vector2.t;
  panEnd : Vector2.t;
  panDelta : Vector2.t;
  dollyStart : Vector2.t;
  dollyEnd : Vector2.t;
  dollyDelta : Vector2.t;
  scale : num;
  listening : bool
}.

(** Field assignments [this.f = v]. *)
Definition set_camera (v : PerspectiveCamera.t) (c : t) : t :=
  mk v (domElement c) (enabled c) (target c) (enableDamping c)
    (dampingFactor c) (minDistance c) (maxDistance c) (autoRotate c)
    (autoRotateSpeed c) (currentState c) (spherical c) (sphericalDelta c)
    (panOffset c) (zoomChanged c) (rotateStart c) (rotateEnd c)
    (rotateDelta c) (panStart c) (panEnd c) (panDelta c) (dollyStart c)
    (dollyEnd c) (dollyDelta c) (scale c) (listening c).

Definition set_target (v : Vector3.t) (c : t) : t :=
  mk (camera c) (domElement c) (enabled c) v (enableDamping c)
    (dampingFactor c) (minDistance c) (maxDistance c) (autoRotate c)
    (autoRotateSpeed c) (currentState c) (spherical c) (sphericalDelta c)
    (panOffset c) (zoomChanged c) (rotateStart c) (rotateEnd c)
    (rotateDelta c) (panStart c) (panEnd c) (panDelta c) (dollyStart c)
    (dollyEnd c) (dollyDelta c) (scale c) (listening c).

Definition set_currentState (v : STATE) (c : t) : t :=
  mk (camera c) (domElement c) (enabled c) (target c) (enableDamping c)
    (dampingFactor c) (minDistance c) (maxDistance c) (autoRotate c)
    (autoRotateSpeed c) v (spherical c) (sphericalDelta c) (panOffset c)
    (zoomChanged c) (rotateStart c) (rotateEnd c) (rotateDelta c)
    (panStart c) (panEnd c) (panDelta c) (dollyStart c) (dollyEnd c)
    (dollyDelta c) (scale c) (listening c).

Definition set_spherical (v : Spherical.t) (c : t) : t :=
  mk (camera c) (domElement c) (enabled c) (target c) (enableDamping c)
    (dampingFactor c) (minDistance c) (maxDistance c) (autoRotate c)
    (autoRotateSpeed c) (currentState c) v (sphericalDelta c) (panOffset c)
    (zoomChanged c) (rotateStart c) (rotateEnd c) (rotateDelta c)
    (panStart c) (panEnd c) (panDelta c) (dollyStart c) (dollyEnd c)
    (dollyDelta c) (scale c) (listening c).

Definition set_sphericalDelta (v : Spherical.t) (c : t) : t :=
  mk (camera c) (domElement c) (enabled c) (target c) (enableDamping c)
    (dampingFactor c) (minDistance c) (maxDistance c) (autoRotate c)
    (autoRotateSpeed c) (currentState c) (spherical c) v (panOffset c)
    (zoomChanged c) (rotateStart c) (rotateEnd c) (rotateDelta c)
    (panStart c) (panEnd c) (panDelta c) (dollyStart c) (dollyEnd c)
    (dollyDelta c) (scale c) (listening c).

Definition set_panOffset (v : Vector3.t) (c : t) : t :=
  mk (camera c) (domElement c) (enabled c) (target c) (enableDamping c)
    (dampingFactor c) (minDistance c) (maxDistance c) (autoRotate c)
    (autoRotateSpeed c) (currentState c) (spherical c) (sphericalDelta c) v
    (zoomChanged c) (rotateStart c) (rotateEnd c) (rotateDelta c)
    (panStart c) (panEnd c) (panDelta c) (dollyStart c) (dollyEnd c)
    (dollyDelta c) (scale c) (listening c).

Definition set_zoomChanged (v : bool) (c : t) : t :=
  mk (camera c) (domElement c) (enabled c) (target c) (enableDamping c)
    (dampingFactor c) (minDistance c) (maxDistance c) (autoRotate c)
    (autoRotateSpeed c) (currentState c) (spherical c) (sphericalDelta c)
    (panOffset c) v (rotateStart c) (rotateEnd c) (rotateDelta c)
    (panStart c) (panEnd c) (panDelta c) (dollyStart c) (dollyEnd c)
    (dollyDelta c) (scale c) (listening c).

Definition set_rotateStart (v : Vector2.t) (c : t) : t :=
  mk (camera c) (domElement c) (enabled c) (target c) (enableDamping c)
    (dampingFactor c) (minDistance c) (maxDistance c) (autoRotate c)
    (autoRotateSpeed c) (currentState c) (spherical c) (sphericalDelta c)
    (panOffset c) (zoomChanged c) v (rotateEnd c) (rotateDelta c)
    (panStart c) (panEnd c) (panDelta c) (dollyStart c) (dollyEnd c)
    (dollyDelta c) (scale c) (listening c).

Definition set_rotateEnd (v : Vector2.t) (c : t) : t :=
  mk (camera c) (domElement c) (enabled c) (target c) (enableDamping c)
    (dampingFactor c) (minDistance c) (maxDistance c) (autoRotate c)
    (autoRotateSpeed c) (currentState c) (spherical c) (sphericalDelta c)
    (panOffset c) (zoomChanged c) (rotateStart c) v (rotateDelta c)
    (panStart c) (panEnd c) (panDelta c) (dollyStart c) (dollyEnd c)
    (dollyDelta c) (scale c) (listening c).

Definition set_rotateDelta (v : Vector2.t) (c : t) : t :=
  mk (camera c) (domElement c) (enabled c) (target c) (enableDamping c)
    (dampingFactor c) (minDistance c) (maxDistance c) (autoRotate c)
    (autoRotateSpeed c) (currentState c) (spherical c) (sphericalDelta c)
    (panOffset c) (zoomChanged c) (rotateStart c) (rotateEnd c) v
    (panStart c) (panEnd c) (panDelta c) (dollyStart c) (dollyEnd c)
    (dollyDelta c) (scale c) (listening c).

Definition set_panStart (v : Vector2.t) (c : t) : t :=
  mk (camera c) (domElement c) (enabled c) (target c) (enableDamping c)
    (dampingFactor c) (minDistance c) (maxDistance c) (autoRotate c)
    (autoRotateSpeed c) (currentState c) (spherical c) (sphericalDelta c)
    (panOffset c) (zoomChanged c) (rotateStart c) (rotateEnd c)
    (rotateDelta c) v (panEnd c) (panDelta c) (dollyStart c) (dollyEnd c)
    (dollyDelta c) (scale c) (listening c).

Definition set_panEnd (v : Vector2.t) (c : t) : t :=
  mk (camera c) (domElement c) (enabled c) (target c) (enableDamping c)
    (dampingFactor c) (minDistance c) (maxDistance c) (autoRotate c)
    (autoRotateSpeed c) (currentState c) (spherical c) (sphericalDelta c)
    (panOffset c) (zoomChanged c) (rotateStart c) (rotateEnd c)
    (rotateDelta c) (panStart c) v (panDelta c) (dollyStart c) (dollyEnd c)
    (dollyDelta c) (scale c) (listening c).

Definition set_panDelta (v : Vector2.t) (c : t) : t :=
  mk (camera c) (domElement c) (enabled c) (target c) (enableDamping c)
    (dampingFactor c) (minDistance c) (maxDistance c) (autoRotate c)
    (autoRotateSpeed c) (currentState c) (spherical c) (sphericalDelta c)
    (panOffset c) (zoomChanged c) (rotateStart c) (rotateEnd c)
    (rotateDelta c) (panStart c) (panEnd c) v (dollyStart c) (dollyEnd c)
    (dollyDelta c) (scale c) (listening c).

Definition set_dollyStart (v : Vector2.t) (c : t) : t :=
  mk (camera c) (domElement c) (enabled c) (target c) (enableDamping c)
    (dampingFactor c) (minDistance c) (maxDistance c) (autoRotate c)
    (autoRotateSpeed c) (currentState c) (spherical c) (sphericalDelta c)
    (panOffset c) (zoomChanged c) (rotateStart c) (rotateEnd c)
    (rotateDelta c) (panStart c) (panEnd c) (panDelta c) v (dollyEnd c)
    (dollyDelta c) (scale c) (listening c).

Definition set_dollyEnd (v : Vector2.t) (c : t) : t :=
  mk (camera c) (domElement c) (enabled c) (target c) (enableDamping c)
    (dampingFactor c) (minDistance c) (maxDistance c) (autoRotate c)
    (autoRotateSpeed c) (currentState c) (spherical c) (sphericalDelta c)
    (panOffset c) (zoomChanged c) (rotateStart c) (rotateEnd c)
    (rotateDelta c) (panStart c) (panEnd c) (panDelta c) (dollyStart c) v
    (dollyDelta c) (scale c) (listening c).

Definition set_dollyDelta (v : Vector2.t) (c : t) : t :=
  mk (camera c) (domElement c) (enabled c) (target c) (enableDamping c)
    (dampingFactor c) (minDistance c) (maxDistance c) (autoRotate c)
    (autoRotateSpeed c) (currentState c) (spherical c) (sphericalDelta c)
    (panOffset c) (zoomChanged c) (rotateStart c) (rotateEnd c)
    (rotateDelta c) (panStart c) (panEnd c) (panDelta c) (dollyStart c)
    (dollyEnd c) v (scale c) (listening c).

Definition set_scale (v : num) (c : t) : t :=
  mk (camera c) (domElement c) (enabled c) (target c) (enableDamping c)
    (dampingFactor c) (minDistance c) (maxDistance c) (autoRotate c)
    (autoRotateSpeed c) (currentState c) (spherical c) (sphericalDelta c)
    (panOffset c) (zoomChanged c) (rotateStart c) (rotateEnd c)
    (rotateDelta c) (panStart c) (panEnd c) (panDelta c) (dollyStart c)
    (dollyEnd c) (dollyDelta c) v (listening c).

Definition set_listening (v : bool) (c : t) : t :=
  mk (camera c) (domElement c) (enabled c) (target c) (enableDamping c)
    (dampingFactor c) (minDistance c) (maxDistance c) (autoRotate c)
    (autoRotateSpeed c) (currentState c) (spherical c) (sphericalDelta c)
    (panOffset c) (zoomChanged c) (rotateStart c) (rotateEnd c)
    (rotateDelta c) (panStart c) (panEnd c) (panDelta c) (dollyStart c)
    (dollyEnd c) (dollyDelta c) (scale c) v.

Definition set_enableDamping (v : bool) (c : t) : t :=
  mk (camera c) (domElement c) (enabled c) (target c) v (dampingFactor c)
    (minDistance c) (maxDistance c) (autoRotate c) (autoRotateSpeed c)
    (currentState c) (spherical c) (sphericalDelta c) (panOffset c)
    (zoomChanged c) (rotateStart c) (rotateEnd c) (rotateDelta c)
    (panStart c) (panEnd c) (panDelta c) (dollyStart c) (dollyEnd c)
    (dollyDelta c) (scale c) (listening c).

Definition set_dampingFactor (v : num) (c : t) : t :=
  mk (camera c) (domElement c) (enabled c) (target c) (enableDamping c) v
    (minDistance c) (maxDistance c) (autoRotate c) (autoRotateSpeed c)
    (currentState c) (spherical c) (sphericalDelta c) (panOffset c)
    (zoomChanged c) (rotateStart c) (rotateEnd c) (rotateDelta c)
    (panStart c) (panEnd c) (panDelta c) (dollyStart c) (dollyEnd c)
    (dollyDelta c) (scale c) (listening c).

Definition set_minDistance (v : num) (c : t) : t :=
  mk (camera c) (domElement c) (enabled c) (target c) (enableDamping c)
    (dampingFactor c) v (maxDistance c) (autoRotate c) (autoRotateSpeed c)
    (currentState c) (spherical c) (sphericalDelta c) (panOffset c)
    (zoomChanged c) (rotateStart c) (rotateEnd c) (rotateDelta c)
    (panStart c) (panEnd c) (panDelta c) (dollyStart c) (dollyEnd c)
    (dollyDelta c) (scale c) (listening c).

Definition set_maxDistance (v : num) (c : t) : t :=
  mk (camera c) (domElement c) (enabled c) (target c) (enableDamping c)
    (dampingFactor c) (minDistance c) v (autoRotate c) (autoRotateSpeed c)
    (currentState c) (spherical c) (sphericalDelta c) (panOffset c)
    (zoomChanged c) (rotateStart c) (rotateEnd c) (rotateDelta c)
    (panStart c) (panEnd c) (panDelta c) (dollyStart c) (dollyEnd c)
    (dollyDelta c) (scale c) (listening c).

Definition set_autoRotate (v : bool) (c : t) : t :=
  mk (camera c) (domElement c) (enabled c) (target c) (enableDamping c)
    (dampingFactor c) (minDistance c) (maxDistance c) v (autoRotateSpeed c)
    (currentState c) (spherical c) (sphericalDelta c) (panOffset c)
    (zoomChanged c) (rotateStart c) (rotateEnd c) (rotateDelta c)
    (panStart c) (panEnd c) (panDelta c) (dollyStart c) (dollyEnd c)
    (dollyDelta c) (scale c) (listening c).

Definition set_autoRotateSpeed (v : num) (c : t) : t :=
  mk (camera c) (domElement c) (enabled c) (target c) (enableDamping c)
    (dampingFactor c) (minDistance c) (maxDistance c) (autoRotate c) v
    (currentState c) (spherical c) (sphericalDelta c) (panOffset c)
    (zoomChanged c) (rotateStart c) (rotateEnd c) (rotateDelta c)
    (panStart c) (panEnd c) (panDelta c) (dollyStart c) (dollyEnd c)
    (dollyDelta c) (scale c) (listening c).

Record Touch : Type := mkTouch { pageX : R; pageY : R }.

Definition getZoomScale : num := Math.pow (Fin 0.95) 1.

Definition getAutoRotationAngle (c : t) : num :=
  (Fin 2 * Math.PI / Fin 60 / Fin 60 * autoRotateSpeed c)%js.

Definition rotateLeft (angle : num) (c : t) : t :=
  let d := sphericalDelta c in
  set_sphericalDelta
    (Spherical.mk (Spherical.radius d) (Spherical.phi d)
                  (Spherical.theta d - angle)%js) c.

Definition rotateUp (angle : num) (c : t) : t :=
  let d := sphericalDelta c in
  set_sphericalDelta
    (Spherical.mk (Spherical.radius d) (Spherical.phi d - angle)%js
                  (Spherical.theta d)) c.

Definition dollyIn (dollyScale : num) (c : t) : t :=
  set_zoomChanged true (set_scale (scale c / dollyScale)%js c).

Definition dollyOut (dollyScale : num) (c : t) : t :=
  set_zoomChanged true (set_scale (scale c * dollyScale)%js c).

Definition pan (deltaX deltaY : num) (c : t) : t :=
  let cam := camera c in
  let clientHeight := DomElement.clientHeight (domElement c) in
  let targetDistance :=
    Vector3.distanceTo (PerspectiveCamera.position cam) (target c) in
  let panDistance :=
    (Fin 2 * targetDistance *
     Math.tan (((PerspectiveCamera.fov cam / Fin 2) * Math.PI) / Fin 180))%js in
  let offset :=
    Vector3.normalize (Vector3.sub (PerspectiveCamera.position cam) (target c)) in
  let offset := Vector3.crossVectors (PerspectiveCamera.up cam) offset in
  let offset :=
    Vector3.multiplyScalar offset ((- deltaX * panDistance) / clientHeight)%js in
  let c := set_panOffset (Vector3.add (panOffset c) offset) c in
  let offset := Vector3.normalize (PerspectiveCamera.up cam) in
  let offset :=
    Vector3.multiplyScalar offset ((deltaY * panDistance) / clientHeight)%js in
  set_panOffset (Vector3.add (panOffset c) offset) c.

Definition update (c : t) : t :=
  let cam := camera c in
  let quat :=
    setFromUnitVectors (PerspectiveCamera.up cam)
                       (Vector3.mk (Fin 0) (Fin 1) (Fin 0)) in
  let quatInverse := Quaternion.invert quat in
  let offset := Vector3.sub (PerspectiveCamera.position cam) (target c) in
  let offset := Vector3.applyQuaternion offset quat in
  let c := set_spherical (Spherical.setFromVector3 offset) c in
  let c :=
    if autoRotate c && STATE_eqb (currentState c) NONE
    then rotateLeft (getAutoRotationAngle c) c else c in
  let theta :=
    (Spherical.theta (spherical c) + Spherical.theta (sphericalDelta c))%js in
  let phi :=
    (Spherical.phi (spherical c) + Spherical.phi (sphericalDelta c))%js in
  let phi :=
    Math.max (Fin 0.000001) (Math.min (Math.PI - Fin 0.000001)%js phi) in
  let radius := (Spherical.radius (spherical c) * scale c)%js in
  let radius :=
    Math.max (minDistance c) (Math.min (maxDistance c) radius) in
  let c := set_spherical (Spherical.mk radius phi theta) c in
  let c := set_target (Vector3.add (target c) (panOffset c)) c in
  let offset := setFromSpherical (spherical c) in
  let offset := Vector3.applyQuaternion offset quatInverse in
  let c :=
    set_camera
      (PerspectiveCamera.set_position (Vector3.add (target c) offset) cam) c in
  let c :=
    if enableDamping c then
      let k := (Fin 1 - dampingFactor c)%js in
      let d := sphericalDelta c in
      let c :=
        set_sphericalDelta
          (Spherical.mk (Spherical.radius d) (Spherical.phi d * k)%js
                        (Spherical.theta d * k)%js) c in
      set_panOffset (Vector3.multiplyScalar (panOffset c) k) c
    else
      let c := set_sphericalDelta (Spherical.mk (Fin 0) (Fin 0) (Fin 0)) c in
      set_panOffset Vector3.zero c in
  set_scale (Fin 1) c.

(** The rotate branch shared by [onMouseMove] and [onTouchMove]. *)
Definition rotateTo (px py : R) (c : t) : t :=
  let c := set_rotateEnd (Vector2.mk (Fin px) (Fin py)) c in
  let c :=
    set_rotateDelta
      (Vector2.multiplyScalar
         (Vector2.subVectors (rotateEnd c) (rotateStart c)) (Fin 0.01)) c in
  let clientHeight := DomElement.clientHeight (domElement c) in
  let c :=
    rotateLeft
      ((Fin 2 * Math.PI * Vector2.x (rotateDelta c)) / clientHeight)%js c in
  let c :=
    rotateUp
      ((Fin 2 * Math.PI * Vector2.y (rotateDelta c)) / clientHeight)%js c in
  set_rotateStart (rotateEnd c) c.

Definition onMouseDown (button : Z) (clientX clientY : R) (c : t) : t :=
  if negb (enabled c) then c else
  let p := Vector2.mk (Fin clientX) (Fin clientY) in
  let c :=
    match button with
    | 0%Z => set_rotateStart p (set_currentState ROTATE c)
    | 1%Z => set_dollyStart p (set_currentState DOLLY c)
    | 2%Z => set_panStart p (set_currentState PAN c)
    | _ => c
    end in
  if negb (STATE_eqb (currentState c) NONE) then set_listening true c else c.

(** The [switch] of [onMouseMove], before its final [this.update()]. *)
Definition onMouseMove_switch (clientX clientY : R) (c : t) : t :=
  match currentState c with
  | ROTATE => rotateTo clientX clientY c
  | DOLLY =>
      let c := set_dollyEnd (Vector2.mk (Fin clientX) (Fin clientY)) c in
      let c :=
        set_dollyDelta (Vector2.subVectors (dollyEnd c) (dollyStart c)) c in
      let c :=
        if JsNum.gtb (Vector2.y (dollyDelta c)) (Fin 0)
        then dollyIn getZoomScale c
        else if JsNum.ltb (Vector2.y (dollyDelta c)) (Fin 0)
             then dollyOut getZoomScale c
             else c in
      set_dollyStart (dollyEnd c) c
  | PAN =>
      let c := set_panEnd (Vector2.mk (Fin clientX) (Fin clientY)) c in
      let c :=
        set_panDelta
          (Vector2.multiplyScalar
             (Vector2.subVectors (panEnd c) (panStart c)) (Fin 0.01)) c in
      let c := pan (Vector2.x (panDelta c)) (Vector2.y (panDelta c)) c in
      set_panStart (panEnd c) c
  | NONE => c
  end.

Definition onMouseMove (clientX clientY : R) (c : t) : t :=
  if negb (enabled c) then c else
  update (onMouseMove_switch clientX clientY c).

Definition onMouseUp (c : t) : t :=
  if negb (enabled c) then c else
  set_currentState NONE (set_listening false c).

Definition onMouseWheel (deltaY : R) (c : t) : t :=
  if negb (enabled c) then c else
  let c :=
    if JsNum.ltb (Fin deltaY) (Fin 0) then dollyOut getZoomScale c
    else if JsNum.gtb (Fin deltaY) (Fin 0) then dollyIn getZoomScale c
         else c in
  update c.

(** Distance between the two fingers of a two-finger touch event. *)
Definition touchDistance (t0 t1 : Touch) : num :=
  let dx := (Fin (pageX t0) - Fin (pageX t1))%js in
  let dy := (Fin (pageY t0) - Fin (pageY t1))%js in
  Math.sqrt (dx * dx + dy * dy)%js.

Definition onTouchStart (touches : list Touch) (c : t) : t :=
  if negb (enabled c) then c else
  match touches with
  | [t0] =>
      set_rotateStart (Vector2.mk (Fin (pageX t0)) (Fin (pageY t0)))
                      (set_currentState ROTATE c)
  | [t0; t1] =>
      let c := set_currentState DOLLY c in
      let distance := touchDistance t0 t1 in
      set_dollyStart (Vector2.mk (Fin 0) distance) c
  | _ => c
  end.

Definition onTouchMove (touches : list Touch) (c : t) : t :=
  if negb (enabled c) then c else
  match touches with
  | [t0] => rotateTo (pageX t0) (pageY t0) c
  | [t0; t1] =>
      let distance := touchDistance t0 t1 in
      let c := set_dollyEnd (Vector2.mk (Fin 0) distance) c in
      let c :=
        set_dollyDelta
          (Vector2.mk (Fin 0)
             (Math.pow (Vector2.y (dollyEnd c) / Vector2.y (dollyStart c))%js
                       0.1)) c in
      let c := dollyIn (Vector2.y (dollyDelta c)) c in
      set_dollyStart (dollyEnd c) c
  | _ => c
  end.

Definition onTouchEnd (c : t) : t :=
  if negb (enabled c) then c else set_currentState NONE c.

(** [new OrbitControls(camera, domElement)]: the field initialisers followed
    by the constructor's [this.update()]. *)
Definition create (cam : PerspectiveCamera.t) (dom : DomElement.t) : t :=
  update
    (mk cam dom true Vector3.zero false (Fin 0.05) (Fin 0) PInf false
        (Fin 2) NONE Spherical.default Spherical.default Vector3.zero false
        Vector2.zero Vector2.zero Vector2.zero
        Vector2.zero Vector2.zero Vector2.zero
        Vector2.zero Vector2.zero Vector2.zero
        (Fin 1) false).

(** Input events of the controller, and one event for a call of [update]
    by the animation loop. *)
Inductive Event : Type :=
| MouseDown (button : Z) (clientX clientY : R)
| MouseMove (clientX clientY : R)
| MouseUp
| MouseWheel (deltaY : R)
| TouchStart (touches : list Touch)
| TouchMove (touches : list Touch)
| TouchEnd
| Frame.

(** Delivery of an event to the registered listeners: the mouse-move and
    mouse-up listeners are on the document only between a mouse-down that
    started an interaction and the next mouse-up. *)
Definition dispatch (e : Event) (c : t) : t :=
  match e with
  | MouseDown b px py => onMouseDown b px py c
  | MouseMove px py => if listening c then onMouseMove px py c else c
  | MouseUp => if listening c then onMouseUp c else c
  | MouseWheel dy => onMouseWheel dy c
  | TouchStart ts => onTouchStart ts c
  | TouchMove ts => onTouchMove ts c
  | TouchEnd => onTouchEnd c
  | Frame => update c
  end.

Definition run (es : list Event) (c : t) : t :=
  fold_left (fun c e => dispatch e c) es c.

End OrbitControls.

(* ================================================================== *)
(** ** The range inputs behind the speed sliders *)

Module RangeInput.

(** An [<input type="range">] with its [min], [max] and [step]
    attributes, [step] being a positive number. *)
Record t : Type := mk { min : R; max : R; step : R }.

(** The value the element takes when what it is given is not a number:
    the middle of the range. *)
Definition default (i : t) : R :=
  if Rlt_dec (max i) (min i) then min i else min i + (max i - min i) / 2.

(** The value the element holds after an assignment to it, by the user or
    by a script (the value sanitization of a range input); [raw] is the
    number assigned, [None] when what was assigned is not a number.  A
    value below [min] becomes [min], a value above [max] becomes [max]
    (when [max] is not below [min]), and the result is moved to the
    nearest [min + k * step] inside the range, the upper one when two are
    as near. *)
Definition sanitize (i : t) (raw : option R) : R :=
  let v := match raw with Some v => v | None => default i end in
  let v := if Rlt_dec v (min i) then min i else v in
  let v :=
    if Rlt_dec (max i) (min i) then v
    else if Rlt_dec (max i) v then max i else v in
  let k := Int_part ((v - min i) / step i + 1 / 2) in
  let k :=
    if Rlt_dec (max i) (min i) then k
    else Z.min k (Int_part ((max i - min i) / step i)) in
  min i + IZR k * step i.

End RangeInput.

(* ================================================================== *)
(** ** script.js: class SolarSystem *)

Module SolarSystem.

Import THREE.

(** An entry of [this.planetData] ([info], the text of the information
    panel, is left out). *)
Record PlanetData : Type := mkData {
  name : string;
  radius : num;
  distance : num;
  orbitalSpeed : num;
  rotationSpeed : num;
  color : Z
}.

(** A [THREE.Mesh] placed in its parent's frame; only [rotation.y] of its
    rotation is ever written. *)
Record Mesh : Type := mkMesh {
  mesh_name : string;
  position : Vector3.t;
  rotation_y : num
}.

(** An entry of [this.planets].  [orbitGroup] is a [THREE.Group] at the
    origin of the scene holding the planet's mesh; only its [rotation.y]
    is written. *)
Record Planet : Type := mkPlanet {
  mesh : Mesh;
  orbitGroup_rotation_y : num;
  data : PlanetData;
  angle : num;
  individualSpeed : num
}.

(** An entry of [this.moons]; the moon's mesh is a child of its planet's
    mesh. *)
Record Moon : Type := mkMoon {
  moon_mesh : Mesh;
  moon_angle : num;
  moon_distance : num;
  moon_speed : num
}.

(** The controller owns the one camera object ([this.camera] and
    [this.controls.camera] are the same object); [controls] is the
    [OrbitControls] instance built by [setupControls]. *)
Record t : Type := mk {
  controls : OrbitControls.t;
  isPaused : bool;
  globalSpeedMultiplier : num;
  sun : option Mesh;
  planets : gmap string Planet;
  moons : option (gmap string Moon);
  starField_rotation_y : option num
}.

Definition set_controls (v : OrbitControls.t) (s : t) : t :=
  mk v (isPaused s) (globalSpeedMultiplier s) (sun s) (planets s) (moons s)
     (starField_rotation_y s).

Definition set_isPaused (v : bool) (s : t) : t :=
  mk (controls s) v (globalSpeedMultiplier s) (sun s) (planets s) (moons s)
     (starField_rotation_y s).

Definition set_globalSpeedMultiplier (v : num) (s : t) : t :=
  mk (controls s) (isPaused s) v (sun s) (planets s) (moons s)
     (starField_rotation_y s).

Definition set_sun (v : option Mesh) (s : t) : t :=
  mk (controls s) (isPaused s) (globalSpeedMultiplier s) v (planets s)
     (moons s) (starField_rotation_y s).

Definition set_planets (v : gmap string Planet) (s : t) : t :=
  mk (controls s) (isPaused s) (globalSpeedMultiplier s) (sun s) v (moons s)
     (starField_rotation_y s).

Definition set_moons (v : option (gmap string Moon)) (s : t) : t :=
  mk (controls s) (isPaused s) (globalSpeedMultiplier s) (sun s) (planets s)
     v (starField_rotation_y s).

Definition set_starField_rotation_y (v : option num) (s : t) : t :=
  mk (controls s) (isPaused s) (globalSpeedMultiplier s) (sun s) (planets s)
     (moons s) v.

Definition rotate_mesh (d : num) (m : Mesh) : Mesh :=
  mkMesh (mesh_name m) (position m) (rotation_y m + d)%js.

(** The body of the [forEach] over [this.planets] in [updatePlanets]. *)
Definition updatePlanet (globalSpeedMultiplier : num) (planet : Planet)
  : Planet :=
  let data := data planet in
  let speedMultiplier := (globalSpeedMultiplier * individualSpeed planet)%js in
  let angle := (angle planet + orbitalSpeed data * speedMultiplier)%js in
  mkPlanet (rotate_mesh (rotationSpeed data * speedMultiplier)%js (mesh planet))
           angle data angle (individualSpeed planet).

(** The body of the [forEach] over [this.moons] in [updatePlanets]. *)
Definition updateMoon (globalSpeedMultiplier : num) (moon : Moon) : Moon :=
  let angle := (moon_angle moon + moon_speed moon * globalSpeedMultiplier)%js in
  let m := moon_mesh moon in
  let p :=
    Vector3.mk (Math.cos angle * moon_distance moon)%js
               (Vector3.y (position m))
               (Math.sin angle * moon_distance moon)%js in
  mkMoon (rotate_mesh (Fin 0.02 * globalSpeedMultiplier)%js
                      (mkMesh (mesh_name m) p (rotation_y m)))
         angle (moon_distance moon) (moon_speed moon).

(** [updatePlanets(deltaTime)]; the argument is not used by the source. *)
Definition updatePlanets (deltaTime : num) (s : t) : t :=
  let g := globalSpeedMultiplier s in
  let s :=
    match sun s with
    | Some m => set_sun (Some (rotate_mesh (Fin 0.005 * g)%js m)) s
    | None => s
    end in
  let s := set_planets (updatePlanet g <$> planets s) s in
  match moons s with
  | Some ms => set_moons (Some (updateMoon g <$> ms)) s
  | None => s
  end.

Definition updateStarField (s : t) : t :=
  match starField_rotation_y s with
  | Some r => set_starField_rotation_y (Some (r + Fin 0.0001)%js) s
  | None => s
  end.

(** [animate()], one frame; [deltaTime] is the value of
    [this.clock.getDelta()].  Scheduling the next frame and rendering do not
    change the modelled state. *)
Definition animate (deltaTime : num) (s : t) : t :=
  let s :=
    if negb (isPaused s)
    then updateStarField (updatePlanets deltaTime s)
    else s in
  set_controls (OrbitControls.update (controls s)) s.

Definition togglePause (s : t) : t := set_isPaused (negb (isPaused s)) s.

(** The [input] listener of the global speed slider; [value] is
    [parseFloat(e.target.value)]. *)
Definition onGlobalSpeedInput (value : num) (s : t) : t :=
  set_globalSpeedMultiplier value s.

(** The [input] listener of the speed slider of planet [key].  The sliders
    are created from the keys of [this.planetData], so [key] names a
    planet; for any other key the map is left as it is. *)
Definition onPlanetSpeedInput (key : string) (value : num) (s : t) : t :=
  let speed := value in
  set_planets
    (alter (fun p => mkPlanet (mesh p) (orbitGroup_rotation_y p) (data p)
                              (angle p) speed) key (planets s)) s.

(** The slider [setupUI] creates for each planet:
    [min="0" max="3" step="0.1"]. *)
Definition planetSlider : RangeInput.t := RangeInput.mk 0 3 0.1.

(** Modelled from the spec: the attributes of the global speed slider.
    The slider is an element of index.html, which is not among the
    sources; the documented domain of the global multiplier is [0, 5].
    Its step is left open. *)
Definition globalSlider (step : R) : RangeInput.t := RangeInput.mk 0 5 step.

(** An [input] event of the global speed slider after [raw] was assigned
    to the slider: the listener reads [e.target.value], the value the
    slider holds. *)
Definition onGlobalSpeedSlider (step : R) (raw : option R) (s : t) : t :=
  onGlobalSpeedInput (Fin (RangeInput.sanitize (globalSlider step) raw)) s.

(** The same for the slider of planet [key]. *)
Definition onPlanetSpeedSlider (key : string) (raw : option R) (s : t) : t :=
  onPlanetSpeedInput key (Fin (RangeInput.sanitize planetSlider raw)) s.

(** [planet.mesh.getWorldPosition(...)]: the mesh sits in its orbit group,
    which is at the origin and rotated about the vertical axis. *)
Definition getWorldPosition (planet : Planet) : Vector3.t :=
  applyRotationY (orbitGroup_rotation_y planet) (position (mesh planet)).

(** [moon.mesh.getWorldPosition(...)]: the moon's mesh is a child of its
    planet's mesh ([planet.add(moon)]), which is turned by its own
    [rotation.y] at its place in the orbit group. *)
Definition moonWorldPosition (planet : Planet) (moon : Moon) : Vector3.t :=
  applyRotationY (orbitGroup_rotation_y planet)
    (Vector3.add (position (mesh planet))
       (applyRotationY (rotation_y (mesh planet))
                       (position (moon_mesh moon)))).

(** The values captured by the closure [animateCamera] of [focusOnObject]. *)
Record Focus : Type := mkFocus {
  startPosition : Vector3.t;
  endPosition : Vector3.t;
  targetPosition : Vector3.t;
  duration : num;
  startTime : R
}.

Definition camera_position (s : t) : Vector3.t :=
  OrbitControls.PerspectiveCamera.position (OrbitControls.camera (controls s)).

(** [focusOnObject] up to, and without, its first call of [animateCamera];
    [now] is the value of [Date.now()].  [None] is the early [return]. *)
Definition startFocus (objectName : string) (now : R) (s : t)
  : option Focus :=
  let found :=
    if String.eqb objectName "sun"
    then Some (Vector3.zero, Fin 15)
    else match planets s !! objectName with
         | Some planet =>
             Some (getWorldPosition planet, (radius (data planet) * Fin 8)%js)
         | None => None
         end in
  match found with
  | Some (targetPosition, distance) =>
      let startPosition := camera_position s in
      let endPosition :=
        Vector3.add targetPosition
          (Vector3.mk distance (distance * Fin 0.5)%js distance) in
      Some (mkFocus startPosition endPosition targetPosition (Fin 2000) now)
  | None => None
  end.

Definition progress_of (f : Focus) (now : R) : num :=
  let elapsed := (Fin now - Fin (startTime f))%js in
  Math.min (elapsed / duration f)%js (Fin 1).

Definition eased_of (progress : num) : num :=
  (Fin 1 - Math.pow (Fin 1 - progress)%js 3)%js.

(** One call of [animateCamera] at time [now]; the boolean tells whether it
    asks for another animation frame ([progress < 1]). *)
Definition animateCamera (f : Focus) (now : R) (s : t) : t * bool :=
  let progress := progress_of f now in
  let eased := eased_of progress in
  let c := controls s in
  let cam := OrbitControls.camera c in
  let c :=
    OrbitControls.set_camera
      (OrbitControls.PerspectiveCamera.set_position
         (Vector3.lerpVectors (startPosition f) (endPosition f) eased) cam) c in
  let c :=
    OrbitControls.set_target
      (Vector3.lerp (OrbitControls.target c) (targetPosition f) eased) c in
  let c := OrbitControls.update c in
  (set_controls c s, JsNum.ltb progress (Fin 1)).

(** [focusOnObject(objectName)]: [now] is read when the transition is set
    up, [now'] by the first call of [animateCamera].  The result holds the
    transition when it is still running. *)
Definition focusOnObject (objectName : string) (now now' : R) (s : t)
  : t * option Focus :=
  match startFocus objectName now s with
  | Some f =>
      let (s, again) := animateCamera f now' s in
      (s, if again then Some f else None)
  | None => (s, None)
  end.

(** *** Construction *)

Definition planetData : list (string * PlanetData) :=
  [ ("mercury", mkData "Mercury" (Fin 1.2) (Fin 12) (Fin 0.02) (Fin 0.005) 0x8c7853);
    ("venus", mkData "Venus" (Fin 1.8) (Fin 18) (Fin 0.015) (Fin 0.002) 0xffc649);
    ("earth", mkData "Earth" (Fin 2.0) (Fin 24) (Fin 0.01) (Fin 0.02) 0x6b93d6);
    ("mars", mkData "Mars" (Fin 1.5) (Fin 30) (Fin 0.008) (Fin 0.018) 0xcd5c5c);
    ("jupiter", mkData "Jupiter" (Fin 5.5) (Fin 40) (Fin 0.005) (Fin 0.04) 0xd8ca9d);
    ("saturn", mkData "Saturn" (Fin 4.8) (Fin 52) (Fin 0.003) (Fin 0.035) 0xfad5a5);
    ("uranus", mkData "Uranus" (Fin 3.2) (Fin 64) (Fin 0.002) (Fin 0.025) 0x4fd0e4);
    ("neptune", mkData "Neptune" (Fin 3.0) (Fin 76) (Fin 0.001) (Fin 0.022) 0x4b70dd) ].

(** [addEarthMoon(planet, planetRadius)]. *)
Definition addEarthMoon (planetRadius : num) (s : t) : t :=
  let moon :=
    mkMesh "moon" (Vector3.mk (planetRadius * Fin 3)%js (Fin 0) (Fin 0))
           (Fin 0) in
  let ms := match moons s with Some ms => ms | None => ∅ end in
  set_moons
    (Some (<["earth" := mkMoon moon (Fin 0) (planetRadius * Fin 3)%js
                               (Fin 0.05)]> ms)) s.

(** [createPlanet(key, data)]; [random] is the value of [Math.random()]. *)
Definition createPlanet (key : string) (data : PlanetData) (random : R)
  (s : t) : t :=
  let planet := mkMesh key Vector3.zero (Fin 0) in
  let s := if String.eqb key "earth" then addEarthMoon (radius data) s else s in
  let planet :=
    mkMesh (mesh_name planet)
           (Vector3.mk (distance data) (Vector3.y (position planet))
                       (Vector3.z (position planet)))
           (rotation_y planet) in
  set_planets
    (<[key := mkPlanet planet (Fin 0) data
                       (Fin random * Math.PI * Fin 2)%js (Fin 1.0)]>
       (planets s)) s.

Definition createSun (s : t) : t :=
  set_sun (Some (mkMesh "sun" Vector3.zero (Fin 0))) s.

(** [setupCamera] and [setupControls]. *)
Definition setupControls (clientHeight : num) : OrbitControls.t :=
  let camera :=
    OrbitControls.PerspectiveCamera.mk
      (Vector3.mk (Fin 0) (Fin 50) (Fin 120))
      (Vector3.mk (Fin 0) (Fin 1) (Fin 0)) (Fin 75) in
  let c :=
    OrbitControls.create camera (OrbitControls.DomElement.mk clientHeight) in
  let c := OrbitControls.set_enableDamping true c in
  let c := OrbitControls.set_dampingFactor (Fin 0.05) c in
  let c := OrbitControls.set_minDistance (Fin 10) c in
  let c := OrbitControls.set_maxDistance (Fin 400) c in
  let c := OrbitControls.set_autoRotate false c in
  OrbitControls.set_autoRotateSpeed (Fin 0.5) c.

(** The state after [init]: the star field, the Sun and the planets of
    [table]; [random key] is the value [Math.random()] returned when the
    planet [key] was created. *)
Definition init (clientHeight : num) (table : list (string * PlanetData))
  (random : string -> R) : t :=
  let s :=
    mk (setupControls clientHeight) false (Fin 1.0) None ∅ None
       (Some (Fin 0)) in
  let s := createSun s in
  fold_left (fun s kd => createPlanet (fst kd) (snd kd) (random (fst kd)) s)
            table s.

End SolarSystem.

(* ================================================================== *)
(** ** script.js: the fallback controls of [setupBasicControls] *)

Module BasicControls.

Import THREE.

(** The fields [setupBasicControls] adds to the [SolarSystem] instance,
    and the position of the camera, which [updateCameraPosition] writes.
    The mock [controls] object (an [update] that does nothing and a target
    at the origin) holds no state of its own. *)
Record t : Type := mk {
  isMouseDown : bool;
  mouseX : num;
  mouseY : num;
  cameraDistance : num;
  cameraAngleX : num;
  cameraAngleY : num;
  camera_position : Vector3.t
}.

Definition set_isMouseDown (v : bool) (s : t) : t :=
  mk v (mouseX s) (mouseY s) (cameraDistance s) (cameraAngleX s)
     (cameraAngleY s) (camera_position s).

Definition set_mouse (x y : num) (s : t) : t :=
  mk (isMouseDown s) x y (cameraDistance s) (cameraAngleX s)
     (cameraAngleY s) (camera_position s).

Definition set_cameraDistance (v : num) (s : t) : t :=
  mk (isMouseDown s) (mouseX s) (mouseY s) v (cameraAngleX s)
     (cameraAngleY s) (camera_position s).

Definition set_cameraAngleX (v : num) (s : t) : t :=
  mk (isMouseDown s) (mouseX s) (mouseY s) (cameraDistance s) v
     (cameraAngleY s) (camera_position s).

Definition set_cameraAngleY (v : num) (s : t) : t :=
  mk (isMouseDown s) (mouseX s) (mouseY s) (cameraDistance s)
     (cameraAngleX s) v (camera_position s).

Definition set_camera_position (v : Vector3.t) (s : t) : t :=
  mk (isMouseDown s) (mouseX s) (mouseY s) (cameraDistance s)
     (cameraAngleX s) (cameraAngleY s) v.

(** A touch point; these listeners read [clientX] and [clientY]. *)
Record Touch : Type := mkTouch { clientX : R; clientY : R }.

(** The field initialisers of [setupBasicControls]; [position] is where
    [setupCamera] has put the camera. *)
Definition setupBasicControls (position : Vector3.t) : t :=
  mk false (Fin 0) (Fin 0) (Fin 120) (Fin 0) (Fin 0) position.

(** [updateCameraPosition()]; [lookAt] only writes the orientation. *)
Definition updateCameraPosition (s : t) : t :=
  let x :=
    (cameraDistance s * Math.cos (cameraAngleX s)
     * Math.sin (cameraAngleY s))%js in
  let y := (cameraDistance s * Math.sin (cameraAngleX s))%js in
  let z :=
    (cameraDistance s * Math.cos (cameraAngleX s)
     * Math.cos (cameraAngleY s))%js in
  set_camera_position (Vector3.mk x y z) s.

Definition onMouseDown (clientX clientY : R) (s : t) : t :=
  set_mouse (Fin clientX) (Fin clientY) (set_isMouseDown true s).

Definition onMouseUp (s : t) : t := set_isMouseDown false s.

(** The statements the [mousemove] and the [touchmove] listeners share,
    after their guards. *)
Definition dragTo (clientX clientY : R) (s : t) : t :=
  let deltaX := (Fin clientX - mouseX s)%js in
  let deltaY := (Fin clientY - mouseY s)%js in
  let s := set_cameraAngleY (cameraAngleY s + deltaX * Fin 0.01)%js s in
  let s := set_cameraAngleX (cameraAngleX s + deltaY * Fin 0.01)%js s in
  let s :=
    set_cameraAngleX
      (Math.max (- Math.PI / Fin 2)%js
                (Math.min (Math.PI / Fin 2)%js (cameraAngleX s))) s in
  let s := updateCameraPosition s in
  set_mouse (Fin clientX) (Fin clientY) s.

Definition onMouseMove (clientX clientY : R) (s : t) : t :=
  if negb (isMouseDown s) then s else dragTo clientX clientY s.

Definition onWheel (deltaY : R) (s : t) : t :=
  let s := set_cameraDistance (cameraDistance s + Fin deltaY * Fin 0.2)%js s in
  let s :=
    set_cameraDistance
      (Math.max (Fin 20) (Math.min (Fin 400) (cameraDistance s))) s in
  updateCameraPosition s.

Definition onTouchStart (touches : list Touch) (s : t) : t :=
  match touches with
  | [t0] => set_mouse (Fin (clientX t0)) (Fin (clientY t0))
                      (set_isMouseDown true s)
  | _ => s
  end.

Definition onTouchEnd (s : t) : t := set_isMouseDown false s.

Definition onTouchMove (touches : list Touch) (s : t) : t :=
  match touches with
  | [t0] =>
      if negb (isMouseDown s) then s else dragTo (clientX t0) (clientY t0) s
  | _ => s
  end.

(** The events the canvas delivers to these listeners. *)
Inductive Event : Type :=
| MouseDown (clientX clientY : R)
| MouseUp
| MouseMove (clientX clientY : R)
| Wheel (deltaY : R)
| TouchStart (touches : list Touch)
| TouchEnd
| TouchMove (touches : list Touch).

Definition dispatch (e : Event) (s : t) : t :=
  match e with
  | MouseDown px py => onMouseDown px py s
  | MouseUp => onMouseUp s
  | MouseMove px py => onMouseMove px py s
  | Wheel dy => onWheel dy s
  | TouchStart ts => onTouchStart ts s
  | TouchEnd => onTouchEnd s
  | TouchMove ts => onTouchMove ts s
  end.

Definition run (es : list Event) (s : t) : t :=
  fold_left (fun s e => dispatch e s) es s.

End BasicControls.

(* ================================================================== *)
(** ** script.js: the pointer position used for picking *)

Module Canvas.

Import THREE.

(** The result of [this.canvas.getBoundingClientRect()]. *)
Record DOMRect : Type := mkRect {
  left : num;
  top : num;
  width : num;
  height : num
}.

(** [updateMousePosition(event)]: the value written to [this.mouse]. *)
Definition updateMousePosition (rect : DOMRect) (clientX clientY : R)
  : Vector2.t :=
  Vector2.mk
    (((Fin clientX - left rect) / width rect) * Fin 2 - Fin 1)%js
    (- ((Fin clientY - top rect) / height rect) * Fin 2 + Fin 1)%js.

End Canvas.

(* ================================================================== *)
(** ** orbit-controls.js: the registration of the listeners *)

Module Listeners.

(** Where a listener is registered. *)
Inductive EventTarget : Type := DomElement | Document.

(** A function value: a method found on the prototype, or the result of a
    call of [bind].  Every call of [bind] makes a new function object;
    [serial] tells these apart. *)
Inductive Fn : Type :=
| Method (name : string)
| Bound (name : string) (serial : nat).

Definition Fn_name (f : Fn) : string :=
  match f with Method n | Bound n _ => n end.

Definition Fn_eqb (f g : Fn) : bool :=
  match f, g with
  | Method a, Method b => String.eqb a b
  | Bound a i, Bound b j => String.eqb a b && Nat.eqb i j
  | _, _ => false
  end.

Definition EventTarget_eqb (a b : EventTarget) : bool :=
  match a, b with
  | DomElement, DomElement | Document, Document => true
  | _, _ => false
  end.

Record Listener : Type := mkListener {
  on : EventTarget;
  type : string;
  callback : Fn
}.

Definition Listener_eqb (a b : Listener) : bool :=
  EventTarget_eqb (on a) (on b) && String.eqb (type a) (type b)
  && Fn_eqb (callback a) (callback b).

(** The listeners registered on the two event targets, the own properties
    of the controller that hold functions, and the number of function
    objects [bind] has made. *)
Record t : Type := mk {
  registered : list Listener;
  own : list (string * Fn);
  serial : nat
}.

(** [this.<name>]: the own property when there is one, the method of the
    prototype otherwise. *)
Definition get (name : string) (w : t) : Fn :=
  match find (fun p => String.eqb (fst p) name) (own w) with
  | Some p => snd p
  | None => Method name
  end.

(** [f.bind(this)]. *)
Definition bind (f : Fn) (w : t) : Fn * t :=
  (Bound (Fn_name f) (serial w), mk (registered w) (own w) (S (serial w))).

(** [this.<name> = f]. *)
Definition assign (name : string) (f : Fn) (w : t) : t :=
  mk (registered w)
     ((name, f) :: filter (fun p => negb (String.eqb (fst p) name)) (own w))
     (serial w).

(** [target.addEventListener(type, f)]: a listener that is already
    registered for the type is not registered twice. *)
Definition addEventListener (target : EventTarget) (type : string) (f : Fn)
  (w : t) : t :=
  let l := mkListener target type f in
  if existsb (Listener_eqb l) (registered w) then w
  else mk (registered w ++ [l]) (own w) (serial w).

(** [target.removeEventListener(type, f)]. *)
Definition removeEventListener (target : EventTarget) (type : string)
  (f : Fn) (w : t) : t :=
  let l := mkListener target type f in
  mk (filter (fun r => negb (Listener_eqb l r)) (registered w)) (own w)
     (serial w).

(** [this.<name> = this.<name>.bind(this)]. *)
Definition rebind (name : string) (w : t) : t :=
  let (f, w) := bind (get name w) w in assign name f w.

(** [this.domElement.addEventListener(type, this.<name>.bind(this))]. *)
Definition listen (type name : string) (w : t) : t :=
  let (f, w) := bind (get name w) w in addEventListener DomElement type f w.

Definition setupEventListeners (w : t) : t :=
  let w := listen "contextmenu" "onContextMenu" w in
  let w := listen "mousedown" "onMouseDown" w in
  let w := listen "wheel" "onMouseWheel" w in
  let w := listen "touchstart" "onTouchStart" w in
  let w := listen "touchend" "onTouchEnd" w in
  listen "touchmove" "onTouchMove" w.

(** The part of the constructor that deals with functions. *)
Definition create : t :=
  let w := mk [] [] 0 in
  let w := rebind "update" w in
  let w := rebind "onMouseMove" w in
  let w := rebind "onMouseUp" w in
  setupEventListeners w.

(** The registrations of [onMouseDown], made when the button started an
    interaction. *)
Definition onMouseDown (w : t) : t :=
  let w := addEventListener Document "mousemove" (get "onMouseMove" w) w in
  addEventListener Document "mouseup" (get "onMouseUp" w) w.

Definition onMouseUp (w : t) : t :=
  let w := removeEventListener Document "mousemove" (get "onMouseMove" w) w in
  removeEventListener Document "mouseup" (get "onMouseUp" w) w.

Definition dispose (w : t) : t :=
  let w :=
    removeEventListener DomElement "contextmenu" (get "onContextMenu" w) w in
  let w := removeEventListener DomElement "mousedown" (get "onMouseDown" w) w in
  let w := removeEventListener DomElement "wheel" (get "onMouseWheel" w) w in
  let w :=
    removeEventListener DomElement "touchstart" (get "onTouchStart" w) w in
  let w := removeEventListener DomElement "touchend" (get "onTouchEnd" w) w in
  let w :=
    removeEventListener DomElement "touchmove" (get "onTouchMove" w) w in
  let w := removeEventListener Document "mousemove" (get "onMouseMove" w) w in
  removeEventListener Document "mouseup" (get "onMouseUp" w) w.

(** The mouse events that change the registrations: a mouse-down that
    starts an interaction, and a mouse-up. *)
Inductive Event : Type := MouseDown | MouseUp.

Definition dispatch (e : Event) (w : t) : t :=
  match e with
  | MouseDown => onMouseDown w
  | MouseUp => onMouseUp w
  end.

Definition run (es : list Event) (w : t) : t :=
  fold_left (fun w e => dispatch e w) es w.

End Listeners.

(* ================================================================== *)
(** ** Vocabulary of the statements *)

Section Vocabulary.

Import THREE.

(** The camera offset from the target, in the basis where the camera's up
    vector is the vertical axis: the vector [update] converts to spherical
    coordinates. *)
Definition update_offset (c : OrbitControls.t) : Vector3.t :=
  Vector3.applyQuaternion
    (Vector3.sub
       (OrbitControls.PerspectiveCamera.position (OrbitControls.camera c))
       (OrbitControls.target c))
    (setFromUnitVectors
       (OrbitControls.PerspectiveCamera.up (OrbitControls.camera c))
       (Vector3.mk (Fin 0) (Fin 1) (Fin 0))).

(** A run of the animation loop: one call of [animate] per frame, each with
    the clock delta of that frame. *)
Definition frames (deltas : list num) (s : SolarSystem.t) : SolarSystem.t :=
  fold_left (fun s dt => SolarSystem.animate dt s) deltas s.

(** The default up vector of a three.js object, (0, 1, 0); the source
    never assigns [camera.up]. *)
Definition up0 : Vector3.t := Vector3.mk (Fin 0) (Fin 1) (Fin 0).

(** The controller as [setupControls] leaves it, written out: the camera
    at (0, 50, 120) looks at the origin from the distance 130. *)
Definition idle_controls (clientHeight : num) : OrbitControls.t :=
  OrbitControls.mk
    (OrbitControls.PerspectiveCamera.mk
       (Vector3.mk (Fin 0) (Fin 50) (Fin 120)) up0 (Fin 75))
    (OrbitControls.DomElement.mk clientHeight)
    true (Vector3.mk (Fin 0) (Fin 0) (Fin 0)) true (Fin 0.05) (Fin 10)
    (Fin 400) false (Fin 0.5) OrbitControls.NONE
    (Spherical.mk (Fin 130) (Fin (acos ((50 - 0) / 130)))
                  (Fin (Math.Ratan2 (0 - 0) (120 - 0))))
    (Spherical.mk (Fin 0) (Fin 0) (Fin 0)) Vector3.zero false
    Vector2.zero Vector2.zero Vector2.zero
    Vector2.zero Vector2.zero Vector2.zero
    Vector2.zero Vector2.zero Vector2.zero
    (Fin 1) false.

(** *** The invariant of the controller *)

Definition finite2 (v : Vector2.t) : Prop :=
  JsNum.finite (Vector2.x v) /\ JsNum.finite (Vector2.y v).

Definition finite3 (v : Vector3.t) : Prop :=
  JsNum.finite (Vector3.x v) /\ JsNum.finite (Vector3.y v)
  /\ JsNum.finite (Vector3.z v).

Definition finiteQ (q : Quaternion.t) : Prop :=
  JsNum.finite (Quaternion.x q) /\ JsNum.finite (Quaternion.y q)
  /\ JsNum.finite (Quaternion.z q) /\ JsNum.finite (Quaternion.w q).

(** A controller whose numbers are all real numbers: positions, target,
    pending deltas and scale are finite, the viewport has a positive
    height, the distance bounds are ordered, and the pinch distance kept in
    [dollyStart.y] is not negative. *)
Record Good (c : OrbitControls.t) : Prop := mkGood {
  good_position :
    finite3 (OrbitControls.PerspectiveCamera.position (OrbitControls.camera c));
  good_up :
    finite3 (OrbitControls.PerspectiveCamera.up (OrbitControls.camera c));
  good_fov :
    JsNum.finite (OrbitControls.PerspectiveCamera.fov (OrbitControls.camera c));
  good_height :
    exists h,
      OrbitControls.DomElement.clientHeight (OrbitControls.domElement c)
      = Fin h /\ 0 < h;
  good_target : finite3 (OrbitControls.target c);
  good_damping : JsNum.finite (OrbitControls.dampingFactor c);
  good_min : JsNum.finite (OrbitControls.minDistance c);
  good_bounds :
    JsNum.le (OrbitControls.minDistance c) (OrbitControls.maxDistance c);
  good_speed : JsNum.finite (OrbitControls.autoRotateSpeed c);
  good_delta_phi :
    JsNum.finite (Spherical.phi (OrbitControls.sphericalDelta c));
  good_delta_theta :
    JsNum.finite (Spherical.theta (OrbitControls.sphericalDelta c));
  good_pan : finite3 (OrbitControls.panOffset c);
  good_rotateStart : finite2 (OrbitControls.rotateStart c);
  good_panStart : finite2 (OrbitControls.panStart c);
  good_dollyStart :
    exists d, Vector2.y (OrbitControls.dollyStart c) = Fin d /\ 0 <= d;
  good_scale : JsNum.finite (OrbitControls.scale c)
}.

(** The clamp invariant of the spherical coordinates. *)
Definition SphericalClamped (c : OrbitControls.t) : Prop :=
  JsNum.le (Fin 0.000001) (Spherical.phi (OrbitControls.spherical c))
  /\ JsNum.le (Spherical.phi (OrbitControls.spherical c))
               (Fin (PI - 0.000001))
  /\ JsNum.le (OrbitControls.minDistance c)
               (Spherical.radius (OrbitControls.spherical c))
  /\ JsNum.le (Spherical.radius (OrbitControls.spherical c))
               (OrbitControls.maxDistance c).

(** Events as a pointing device delivers them inside the viewport: the two
    fingers of a two-finger move are at different points, and the vertical
    mouse coordinate is not negative. *)
Definition regular (e : OrbitControls.Event) : Prop :=
  match e with
  | OrbitControls.TouchMove [t0; t1] =>
      OrbitControls.pageX t0 <> OrbitControls.pageX t1
      \/ OrbitControls.pageY t0 <> OrbitControls.pageY t1
  | OrbitControls.MouseDown _ _ clientY
  | OrbitControls.MouseMove _ clientY => 0 <= clientY
  | _ => True
  end.

(** A number that can divide: a real other than zero. *)
Definition is_nonzero (a : num) : Prop := exists r, a = Fin r /\ r <> 0.

(** The rotation delta [update] adds to the angles: [sphericalDelta], after
    the auto-rotation step when that is switched on and no interaction is
    in progress. *)
Definition pending_delta (c : OrbitControls.t) : Spherical.t :=
  OrbitControls.sphericalDelta
    (if OrbitControls.autoRotate c
        && OrbitControls.STATE_eqb (OrbitControls.currentState c)
                                   OrbitControls.NONE
     then OrbitControls.rotateLeft (OrbitControls.getAutoRotationAngle c) c
     else c).

(** The handlers that do not call [update] leave the spherical coordinates
    and the distance bounds alone. *)
Definition same_clamp (c c' : OrbitControls.t) : Prop :=
  OrbitControls.spherical c' = OrbitControls.spherical c
  /\ OrbitControls.minDistance c' = OrbitControls.minDistance c
  /\ OrbitControls.maxDistance c' = OrbitControls.maxDistance c.

(** [a] is a real within [eps] of [r]. *)
Definition close_to (a : num) (r eps : R) : Prop :=
  match a with
  | Fin x => Rabs (x - r) <= eps
  | _ => False
  end.

(** The table of the end-to-end scenario: one body at orbital radius 24
    with orbital rate 0.01. *)
Definition one_body : list (string * SolarSystem.PlanetData) :=
  [ ("body", SolarSystem.mkData "Body" (Fin 2) (Fin 24) (Fin 0.01) (Fin 0.02)
                                0x6b93d6) ].

(** The scenario: the system is built with the body at angle 0
    ([Math.random()] returned 0), the global multiplier is set to 2, the
    individual multiplier keeps its default 1, and the motion is advanced
    once. *)
Definition scenario : SolarSystem.t :=
  SolarSystem.updatePlanets (Fin 0.016)
    (SolarSystem.onGlobalSpeedInput (Fin 2)
       (SolarSystem.init (Fin 800) one_body (fun _ => 0))).

(** The baseline system after [init], in a viewport 800 pixels high, every
    planet created at angle 0. *)
Definition baseline : SolarSystem.t :=
  SolarSystem.init (Fin 800) SolarSystem.planetData (fun _ => 0).

(** The transition [focusOnObject("earth")] sets up on [baseline] at time
    0: the Earth is at the world position (24, 0, 0) and the vantage point
    is 8 Earth radii away along (1, 0.5, 1). *)
Definition earth_focus : SolarSystem.Focus :=
  SolarSystem.mkFocus
    (Vector3.mk (Fin 0) (Fin 50) (Fin 120))
    (Vector3.mk (Fin (cos 0 * 24 + sin 0 * 0 + 2.0 * 8))
                (Fin (0 + 2.0 * 8 * 0.5))
                (Fin (- sin 0 * 24 + cos 0 * 0 + 2.0 * 8)))
    (Vector3.mk (Fin (cos 0 * 24 + sin 0 * 0)) (Fin 0)
                (Fin (- sin 0 * 24 + cos 0 * 0)))
    (Fin 2000) 0.

(** The Earth of [baseline] one unpaused frame later. *)
Definition earth_moved : SolarSystem.Planet :=
  SolarSystem.updatePlanet (Fin 1.0)
    (SolarSystem.mkPlanet (SolarSystem.mkMesh "earth" (Vector3.mk (Fin 24) (Fin 0) (Fin 0)) (Fin 0))
              (Fin 0)
              (SolarSystem.mkData "Earth" (Fin 2.0) (Fin 24) (Fin 0.01) (Fin 0.02)
                      0x6b93d6)
              (Fin 0 * Math.PI * Fin 2)%js (Fin 1.0)).

(** Where the moon of planet [key] is in the scene, seen from the centre
    of the planet: the world position of the moon's mesh minus that of the
    planet's mesh. *)
Definition moon_offset_in_scene (key : string) (s : SolarSystem.t)
  : option Vector3.t :=
  match SolarSystem.planets s !! key, SolarSystem.moons s with
  | Some p, Some ms =>
      match ms !! key with
      | Some m =>
          Some (Vector3.sub (SolarSystem.moonWorldPosition p m)
                            (SolarSystem.getWorldPosition p))
      | None => None
      end
  | _, _ => None
  end.

(** *** Vocabulary of the further properties *)

(** The distance from the camera to the point it orbits, as [pan] computes
    it. *)
Definition targetDistance (c : OrbitControls.t) : num :=
  Vector3.distanceTo
    (OrbitControls.PerspectiveCamera.position (OrbitControls.camera c))
    (OrbitControls.target c).

(** [controls.enabled = v], an assignment made by the host of the
    controller. *)
Definition set_enabled (v : bool) (c : OrbitControls.t) : OrbitControls.t :=
  OrbitControls.mk
    (OrbitControls.camera c) (OrbitControls.domElement c) v
    (OrbitControls.target c) (OrbitControls.enableDamping c)
    (OrbitControls.dampingFactor c) (OrbitControls.minDistance c)
    (OrbitControls.maxDistance c) (OrbitControls.autoRotate c)
    (OrbitControls.autoRotateSpeed c) (OrbitControls.currentState c)
    (OrbitControls.spherical c) (OrbitControls.sphericalDelta c)
    (OrbitControls.panOffset c) (OrbitControls.zoomChanged c)
    (OrbitControls.rotateStart c) (OrbitControls.rotateEnd c)
    (OrbitControls.rotateDelta c) (OrbitControls.panStart c)
    (OrbitControls.panEnd c) (OrbitControls.panDelta c)
    (OrbitControls.dollyStart c) (OrbitControls.dollyEnd c)
    (OrbitControls.dollyDelta c) (OrbitControls.scale c)
    (OrbitControls.listening c).

(** The factor one notch of the mouse wheel applies to [scale]: 0.95
    (closer) for a negative [deltaY], 1 / 0.95 (farther) for a positive
    one. *)
Definition wheel_factor (deltaY : R) : R :=
  if Rlt_dec deltaY 0 then 0.95
  else if Rlt_dec 0 deltaY then 1 / 0.95 else 1.

(** Events of the fallback controls that start nothing: every event but a
    mouse-down, a turn of the wheel and a touch-start with one finger. *)
Definition starts_nothing (e : BasicControls.Event) : Prop :=
  match e with
  | BasicControls.MouseDown _ _ | BasicControls.Wheel _
  | BasicControls.TouchStart [_] => False
  | _ => True
  end.

(** The part of the state the orbital motion reads and writes: everything
    but the camera controller. *)
Definition motion (s : SolarSystem.t)
  : bool * num * option SolarSystem.Mesh * gmap string SolarSystem.Planet
    * option (gmap string SolarSystem.Moon) * option num :=
  (SolarSystem.isPaused s, SolarSystem.globalSpeedMultiplier s,
   SolarSystem.sun s, SolarSystem.planets s, SolarSystem.moons s,
   SolarSystem.starField_rotation_y s).

(** The entry [createPlanet] stores for the key [key]. *)
Definition created_planet (key : string) (data : SolarSystem.PlanetData)
  (random : R) : SolarSystem.Planet :=
  SolarSystem.mkPlanet
    (SolarSystem.mkMesh key
       (Vector3.mk (SolarSystem.distance data) (Fin 0) (Fin 0)) (Fin 0))
    (Fin 0) data (Fin random * Math.PI * Fin 2)%js (Fin 1.0).

(** The entry [addEarthMoon] stores for a planet of radius
    [planetRadius]. *)
Definition created_moon (planetRadius : num) : SolarSystem.Moon :=
  SolarSystem.mkMoon
    (SolarSystem.mkMesh "moon"
       (Vector3.mk (planetRadius * Fin 3)%js (Fin 0) (Fin 0)) (Fin 0))
    (Fin 0) (planetRadius * Fin 3)%js (Fin 0.05).

(** The property names every JavaScript object inherits from
    [Object.prototype].  [this.planets] is an object literal, so
    [this.planets[name]] finds a value for these names although no planet
    has them; the map that models [this.planets] holds own properties
    only. *)
Definition Object_prototype_names : list string :=
  [ "constructor"; "hasOwnProperty"; "isPrototypeOf"; "propertyIsEnumerable";
    "toLocaleString"; "toString"; "valueOf"; "__proto__";
    "__defineGetter__"; "__defineSetter__"; "__lookupGetter__";
    "__lookupSetter__" ].

End Vocabulary.

(* ================================================================== *)
(** * Properties *)

(** ** Arithmetic of JavaScript numbers *)

Section NumFacts.

Implicit Types a b : num.
Implicit Types r s : R.

Lemma Rcase_neg {A : Type} r (n z p : A) : r < 0 -> JsNum.Rcase r n z p = n.
Proof.
  intros H. unfold JsNum.Rcase.
  destruct (total_order_T r 0) as [[?|?]|?]; [reflexivity | lra | lra].
Qed.

Lemma Rcase_zero {A : Type} r (n z p : A) : r = 0 -> JsNum.Rcase r n z p = z.
Proof.
  intros H. unfold JsNum.Rcase.
  destruct (total_order_T r 0) as [[?|?]|?]; [lra | reflexivity | lra].
Qed.

Lemma Rcase_pos {A : Type} r (n z p : A) : 0 < r -> JsNum.Rcase r n z p = p.
Proof.
  intros H. unfold JsNum.Rcase.
  destruct (total_order_T r 0) as [[?|?]|?]; [lra | lra | reflexivity].
Qed.

Lemma finite_inv a : JsNum.finite a -> exists r, a = Fin r.
Proof. destruct a; simpl; intros H; try contradiction. now exists r. Qed.

Lemma mul_NaN_r a : (a * NaN)%js = NaN.
Proof. now destruct a. Qed.

Lemma mul_NaN_l a : (NaN * a)%js = NaN.
Proof. now destruct a. Qed.

Lemma add_NaN_r a : (a + NaN)%js = NaN.
Proof. now destruct a. Qed.

Lemma add_NaN_l a : (NaN + a)%js = NaN.
Proof. now destruct a. Qed.

Lemma sub_NaN_r a : (a - NaN)%js = NaN.
Proof. now destruct a. Qed.

Lemma sub_NaN_l a : (NaN - a)%js = NaN.
Proof. now destruct a. Qed.

Lemma max_NaN_r a : Math.max a NaN = NaN.
Proof. now destruct a. Qed.

Lemma min_NaN_r a : Math.min a NaN = NaN.
Proof. now destruct a. Qed.

Lemma div_Fin r s : s <> 0 -> (Fin r / Fin s)%js = Fin (r / s).
Proof. intros H. simpl. destruct (Req_dec_T s 0); [contradiction | reflexivity]. Qed.

Lemma div_zero_zero : (Fin 0 / Fin 0)%js = NaN.
Proof.
  simpl. destruct (Req_dec_T 0 0) as [_|H]; [| now elim H].
  now apply Rcase_zero.
Qed.

Lemma div_pos_zero r : 0 < r -> (Fin r / Fin 0)%js = PInf.
Proof.
  intros H. simpl. destruct (Req_dec_T 0 0) as [_|N]; [| now elim N].
  now apply Rcase_pos.
Qed.

Lemma finite_add a b : JsNum.finite a -> JsNum.finite b -> JsNum.finite (a + b)%js.
Proof. destruct a, b; simpl; tauto. Qed.

Lemma finite_neg a : JsNum.finite a -> JsNum.finite (- a)%js.
Proof. destruct a; simpl; tauto. Qed.

Lemma finite_sub a b : JsNum.finite a -> JsNum.finite b -> JsNum.finite (a - b)%js.
Proof. destruct a, b; simpl; tauto. Qed.

Lemma finite_mul a b : JsNum.finite a -> JsNum.finite b -> JsNum.finite (a * b)%js.
Proof. destruct a, b; simpl; tauto. Qed.

Lemma finite_div a s : JsNum.finite a -> s <> 0 -> JsNum.finite (a / Fin s)%js.
Proof.
  destruct a; simpl; try tauto. intros _ H.
  destruct (Req_dec_T s 0); [contradiction | exact I].
Qed.

Lemma finite_cos a : JsNum.finite a -> JsNum.finite (Math.cos a).
Proof. destruct a; simpl; tauto. Qed.

Lemma finite_sin a : JsNum.finite a -> JsNum.finite (Math.sin a).
Proof. destruct a; simpl; tauto. Qed.

Lemma finite_tan a : JsNum.finite a -> JsNum.finite (Math.tan a).
Proof. destruct a; simpl; tauto. Qed.

Lemma finite_atan2 a b :
  JsNum.finite a -> JsNum.finite b -> JsNum.finite (Math.atan2 a b).
Proof. destruct a, b; simpl; tauto. Qed.

Lemma finite_abs a : JsNum.finite a -> JsNum.finite (Math.abs a).
Proof. destruct a; simpl; tauto. Qed.

(** [MathUtils.clamp] between finite bounds in the right order yields a
    real in the interval, whatever finite value is clamped. *)
Lemma clamp_Fin r lo hi :
  lo <= hi ->
  exists v, THREE.MathUtils.clamp (Fin r) (Fin lo) (Fin hi) = Fin v
            /\ lo <= v <= hi.
Proof.
  intros H. unfold THREE.MathUtils.clamp. simpl. eexists. split; [reflexivity|].
  unfold Rmax, Rmin.
  destruct (Rle_dec hi r); destruct (Rle_dec lo _); lra.
Qed.

Lemma finite_acos_clamp a :
  JsNum.finite a ->
  JsNum.finite (Math.acos (THREE.MathUtils.clamp a (Fin (-1)) (Fin 1))).
Proof.
  intros H. apply finite_inv in H as [r ->].
  destruct (clamp_Fin r (-1) 1) as (v & -> & Hv); [lra|].
  simpl. destruct (Rle_dec (-1) v); [| lra].
  destruct (Rle_dec v 1); [exact I | lra].
Qed.

(** The square root of a sum of squares of finite numbers is a
    non-negative real. *)
Lemma sqrt_sum_squares x y z :
  Math.sqrt (Fin x * Fin x + Fin y * Fin y + Fin z * Fin z)%js
  = Fin (sqrt (x * x + y * y + z * z)).
Proof.
  simpl. destruct (Rlt_dec _ 0) as [H|_]; [| reflexivity]. nra.
Qed.

(** The clamp of [update]: [Math.max(lo, Math.min(hi, v))] lies between
    [lo] and [hi] when the bounds are ordered and [v] is not NaN. *)
Lemma max_min_bounds lo hi v :
  JsNum.le lo hi -> ~ JsNum.is_nan v ->
  JsNum.le lo (Math.max lo (Math.min hi v))
  /\ JsNum.le (Math.max lo (Math.min hi v)) hi.
Proof.
  destruct lo as [l| | |], hi as [h| | |], v as [r| | |]; simpl;
    try tauto; intros H _; unfold Rmax, Rmin;
    repeat match goal with
           | |- context [Rle_dec ?p ?q] => destruct (Rle_dec p q)
           end; simpl; try tauto; lra.
Qed.

Lemma max_min_finite lo hi v :
  JsNum.finite lo -> JsNum.le lo hi -> JsNum.finite v ->
  JsNum.finite (Math.max lo (Math.min hi v)).
Proof.
  destruct lo as [l| | |], hi as [h| | |], v as [r| | |]; simpl; tauto.
Qed.

End NumFacts.

(** *** Polar coordinates on reals *)

Section PolarFacts.

Lemma sqrt_sq_scaled a t : 0 < a -> sqrt (a * a * (1 + t²)) = a * sqrt (1 + t²).
Proof.
  intros Ha. rewrite sqrt_mult by (try apply Rle_0_sqr; unfold Rsqr; nra).
  rewrite sqrt_square by lra. reflexivity.
Qed.

Lemma hyp_pos t : 0 < sqrt (1 + t²).
Proof. apply sqrt_lt_R0. unfold Rsqr. nra. Qed.

(** [Math.atan2(x, z)] is the polar angle of the point (z, x). *)
Lemma polar_of_atan2 x z :
  sqrt (x * x + z * z) * sin (Math.Ratan2 x z) = x
  /\ sqrt (x * x + z * z) * cos (Math.Ratan2 x z) = z.
Proof.
  unfold Math.Ratan2, JsNum.Rcase.
  destruct (total_order_T z 0) as [[Hz|Hz]|Hz].
  - (* z < 0 *)
    assert (E : x * x + z * z = (- z) * (- z) * (1 + (x / z)²))
      by (unfold Rsqr; field; lra).
    rewrite E, sqrt_sq_scaled by lra.
    pose proof (hyp_pos (x / z)) as Hp.
    assert (S1 : sin (atan (x / z) + PI) = - sin (atan (x / z))) by apply neg_sin.
    assert (C1 : cos (atan (x / z) + PI) = - cos (atan (x / z))) by apply neg_cos.
    assert (S2 : sin (atan (x / z) - PI) = - sin (atan (x / z))).
    { rewrite sin_minus, sin_PI, cos_PI. ring. }
    assert (C2 : cos (atan (x / z) - PI) = - cos (atan (x / z))).
    { rewrite cos_minus, sin_PI, cos_PI. ring. }
    destruct (Rlt_dec x 0); rewrite ?S1, ?C1, ?S2, ?C2, sin_atan, cos_atan;
      split; field; lra.
  - (* z = 0 *)
    subst z. replace (x * x + 0 * 0) with (x * x) by ring.
    destruct (total_order_T x 0) as [[Hx|Hx]|Hx].
    + replace (x * x) with ((- x) * (- x)) by ring.
      rewrite sqrt_square by lra. rewrite sin_neg, cos_neg, sin_PI2, cos_PI2.
      split; ring.
    + subst x. rewrite Rmult_0_l, sqrt_0. split; ring.
    + rewrite sqrt_square by lra. rewrite sin_PI2, cos_PI2. split; ring.
  - (* z > 0 *)
    assert (E : x * x + z * z = z * z * (1 + (x / z)²))
      by (unfold Rsqr; field; lra).
    rewrite E, sqrt_sq_scaled by lra.
    pose proof (hyp_pos (x / z)) as Hp.
    rewrite sin_atan, cos_atan. split; field; lra.
Qed.

Lemma ratio_in_unit x y z :
  0 < sqrt (x * x + y * y + z * z) ->
  -1 <= y / sqrt (x * x + y * y + z * z) <= 1.
Proof.
  intros Hr. set (r := sqrt (x * x + y * y + z * z)) in *.
  assert (Hrr : r * r = x * x + y * y + z * z).
  { unfold r. apply sqrt_sqrt. nra. }
  assert (- r <= y <= r) by nra.
  split.
  - apply Rmult_le_reg_r with r; [lra|]. unfold Rdiv. rewrite Rmult_assoc, Rinv_l by lra. lra.
  - apply Rmult_le_reg_r with r; [lra|]. unfold Rdiv. rewrite Rmult_assoc, Rinv_l by lra. lra.
Qed.

Lemma sin_acos_scaled x y z :
  0 < sqrt (x * x + y * y + z * z) ->
  sin (acos (y / sqrt (x * x + y * y + z * z))) * sqrt (x * x + y * y + z * z)
  = sqrt (x * x + z * z).
Proof.
  intros Hr. pose proof (ratio_in_unit x y z Hr) as Hu.
  set (r := sqrt (x * x + y * y + z * z)) in *.
  assert (Hrr : r * r = x * x + y * y + z * z).
  { unfold r. apply sqrt_sqrt. nra. }
  rewrite sin_acos by exact Hu.
  rewrite <- (sqrt_square r) at 2 by lra.
  rewrite <- sqrt_mult.
  - f_equal. transitivity (r * r - y * y); [unfold Rsqr; field; lra | lra].
  - unfold Rsqr. destruct Hu as [H1 H2].
    assert (y / r * (y / r) <= 1) by nra. lra.
  - nra.
Qed.

Lemma cos_small_gt : 9 / 10 < cos 0.000001.
Proof.
  assert (Hpi : 0.000001 < PI / 2) by (pose proof PI2_1; lra).
  assert (Hc : 0 < cos 0.000001) by (apply cos_gt_0; lra).
  assert (Hs : 0 < sin 0.000001) by (apply sin_gt_0; lra).
  assert (Hs' : sin 0.000001 < 0.000001) by (apply sin_lt_x; lra).
  pose proof (sin2_cos2 0.000001) as E. unfold Rsqr in E.
  nra.
Qed.

Lemma acos_in_clamp u :
  0 <= u <= 9 / 10 -> 0.000001 <= acos u <= PI - 0.000001.
Proof.
  intros Hu. pose proof (acos_bound u) as Hb. pose proof PI2_1 as Hpi.
  assert (Hcos : cos (acos u) = u) by (apply cos_acos; lra).
  split.
  - destruct (Rle_dec 0.000001 (acos u)) as [H|H]; [exact H|].
    exfalso. apply Rnot_le_lt in H.
    assert (cos 0.000001 < cos (acos u)) by (apply cos_decreasing_1; lra).
    pose proof cos_small_gt. lra.
  - destruct (Rle_dec (acos u) (PI / 2)) as [H|H]; [lra|].
    exfalso. apply Rnot_le_lt in H.
    assert (cos (acos u) < cos (PI / 2)) by (apply cos_decreasing_1; lra).
    rewrite cos_PI2 in *. lra.
Qed.

Lemma sqrt_16900 : sqrt 16900 = 130.
Proof. replace 16900 with (130 * 130) by ring. apply sqrt_square. lra. Qed.

End PolarFacts.

(** ** three.js on finite vectors *)

Section ThreeFacts.

Import THREE.

Lemma Fin_eq r s : r = s -> Fin r = Fin s.
Proof. now intros ->. Qed.

Lemma sqrt_Fin r : 0 <= r -> Math.sqrt (Fin r) = Fin (sqrt r).
Proof. intros H. simpl. destruct (Rlt_dec r 0); [lra | reflexivity]. Qed.

Lemma is_zero_Fin r : r <> 0 -> JsNum.is_zero (Fin r) = false.
Proof. intros H. simpl. destruct (Req_dec_T r 0); [contradiction | reflexivity]. Qed.

Lemma sqrt_4 : sqrt 4 = 2.
Proof. replace 4 with (2 * 2) by ring. apply sqrt_square. lra. Qed.

Lemma normalize_axis_w :
  Quaternion.normalize (Quaternion.mk (Fin 0) (Fin 0) (Fin 0) (Fin 2))
  = Quaternion.mk (Fin 0) (Fin 0) (Fin 0) (Fin 1).
Proof.
  unfold Quaternion.normalize, Quaternion.length.
  cbn [Quaternion.x Quaternion.y Quaternion.z Quaternion.w JsNum.mul JsNum.add].
  rewrite sqrt_Fin by lra.
  replace (0 * 0 + 0 * 0 + 0 * 0 + 2 * 2) with 4 by ring. rewrite sqrt_4.
  rewrite is_zero_Fin by lra. rewrite div_Fin by lra.
  cbn [JsNum.mul]. f_equal; apply Fin_eq; lra.
Qed.

Lemma quat_of_default_up :
  setFromUnitVectors up0 up0 = Quaternion.mk (Fin 0) (Fin 0) (Fin 0) (Fin 1).
Proof.
  unfold setFromUnitVectors, up0, Vector3.dot.
  cbn [Vector3.x Vector3.y Vector3.z JsNum.mul JsNum.add JsNum.sub JsNum.neg JsNum.ltb].
  destruct (Rlt_dec _ _) as [H|_]; [lra|].
  rewrite <- normalize_axis_w. f_equal. f_equal; apply Fin_eq; lra.
Qed.

Lemma applyQuaternion_id x y z :
  Vector3.applyQuaternion (Vector3.mk (Fin x) (Fin y) (Fin z))
    (Quaternion.mk (Fin 0) (Fin 0) (Fin 0) (Fin 1))
  = Vector3.mk (Fin x) (Fin y) (Fin z).
Proof. unfold Vector3.applyQuaternion. cbn. f_equal; apply Fin_eq; ring. Qed.

Lemma applyQuaternion_id_inv x y z :
  Vector3.applyQuaternion (Vector3.mk (Fin x) (Fin y) (Fin z))
    (Quaternion.invert (Quaternion.mk (Fin 0) (Fin 0) (Fin 0) (Fin 1)))
  = Vector3.mk (Fin x) (Fin y) (Fin z).
Proof. unfold Vector3.applyQuaternion. cbn. f_equal; apply Fin_eq; ring. Qed.

Lemma setFromVector3_Fin x y z :
  0 < sqrt (x * x + y * y + z * z) ->
  Spherical.setFromVector3 (Vector3.mk (Fin x) (Fin y) (Fin z))
  = Spherical.mk (Fin (sqrt (x * x + y * y + z * z)))
                 (Fin (acos (y / sqrt (x * x + y * y + z * z))))
                 (Fin (Math.Ratan2 x z)).
Proof.
  intros Hr. unfold Spherical.setFromVector3, Spherical.setFromCartesianCoords.
  cbn [Vector3.x Vector3.y Vector3.z].
  rewrite sqrt_sum_squares. rewrite is_zero_Fin by lra.
  rewrite div_Fin by lra.
  pose proof (ratio_in_unit x y z Hr) as Hu.
  f_equal. unfold MathUtils.clamp. cbn [Math.min Math.max].
  rewrite Rmin_right by lra. rewrite Rmax_right by lra.
  simpl. destruct (Rle_dec _ _); [|lra]. destruct (Rle_dec _ _); [|lra]. reflexivity.
Qed.

Lemma setFromSpherical_polar x y z :
  0 < sqrt (x * x + y * y + z * z) ->
  setFromSpherical
    (Spherical.mk (Fin (sqrt (x * x + y * y + z * z)))
                  (Fin (acos (y / sqrt (x * x + y * y + z * z))))
                  (Fin (Math.Ratan2 x z)))
  = Vector3.mk (Fin x) (Fin y) (Fin z).
Proof.
  intros Hr. unfold setFromSpherical, Vector3.setFromSphericalCoords. cbn.
  pose proof (sin_acos_scaled x y z Hr) as Hs.
  pose proof (ratio_in_unit x y z Hr) as Hu.
  destruct (polar_of_atan2 x z) as [Px Pz].
  f_equal; apply Fin_eq.
  - rewrite Hs. exact Px.
  - rewrite cos_acos by exact Hu. field. lra.
  - rewrite Hs. exact Pz.
Qed.

End ThreeFacts.

(* ================================================================== *)
(** ** The camera controller *)

Section UpdateFacts.

Import THREE OrbitControls.

Ltac update_cases c :=
  unfold update; cbn;
  destruct (autoRotate c); destruct (currentState c); cbn;
  destruct (enableDamping c); cbn.

Lemma update_radius c :
  Spherical.radius (spherical (update c))
  = Math.max (minDistance c)
      (Math.min (maxDistance c)
         (Spherical.radius (Spherical.setFromVector3 (update_offset c))
          * scale c)%js).
Proof.
  update_cases c; reflexivity.
Qed.

Lemma update_phi c :
  Spherical.phi (spherical (update c))
  = Math.max (Fin 0.000001)
      (Math.min (Math.PI - Fin 0.000001)%js
         (Spherical.phi (Spherical.setFromVector3 (update_offset c))
          + Spherical.phi (sphericalDelta c))%js).
Proof.
  update_cases c; reflexivity.
Qed.

Lemma update_scale c : scale (update c) = Fin 1.
Proof.
  update_cases c; reflexivity.
Qed.

Lemma update_target c :
  target (update c) = Vector3.add (target c) (panOffset c).
Proof.
  update_cases c; reflexivity.
Qed.

Lemma update_position c :
  PerspectiveCamera.position (camera (update c))
  = Vector3.add (target (update c))
      (Vector3.applyQuaternion
         (setFromSpherical (spherical (update c)))
         (Quaternion.invert
            (setFromUnitVectors (PerspectiveCamera.up (camera c))
                                (Vector3.mk (Fin 0) (Fin 1) (Fin 0))))).
Proof.
  update_cases c; reflexivity.
Qed.

Lemma update_config c :
  minDistance (update c) = minDistance c
  /\ maxDistance (update c) = maxDistance c
  /\ enabled (update c) = enabled c
  /\ enableDamping (update c) = enableDamping c
  /\ dampingFactor (update c) = dampingFactor c
  /\ autoRotate (update c) = autoRotate c
  /\ autoRotateSpeed (update c) = autoRotateSpeed c
  /\ domElement (update c) = domElement c.
Proof.
  unfold update; cbn.
  destruct (autoRotate c) eqn:E1; destruct (currentState c) eqn:E2; cbn;
    destruct (enableDamping c) eqn:E3; cbn; rewrite ?E1, ?E3;
    repeat split; reflexivity.
Qed.

Lemma update_theta c :
  autoRotate c = false ->
  Spherical.theta (spherical (update c))
  = (Spherical.theta (Spherical.setFromVector3 (update_offset c))
     + Spherical.theta (sphericalDelta c))%js.
Proof.
  intros H. unfold update; cbn. rewrite H. cbn.
  destruct (enableDamping c); reflexivity.
Qed.

Lemma update_sphericalDelta_damped c :
  autoRotate c = false -> enableDamping c = true ->
  sphericalDelta (update c)
  = Spherical.mk
      (Spherical.radius (sphericalDelta c))
      (Spherical.phi (sphericalDelta c) * (Fin 1 - dampingFactor c))%js
      (Spherical.theta (sphericalDelta c) * (Fin 1 - dampingFactor c))%js.
Proof.
  intros H H'. unfold update; cbn. rewrite H. cbn. rewrite H'. reflexivity.
Qed.

Lemma update_sphericalDelta_reset c :
  enableDamping c = false ->
  sphericalDelta (update c) = Spherical.mk (Fin 0) (Fin 0) (Fin 0).
Proof.
  intros H'. unfold update; cbn.
  destruct (autoRotate c); destruct (currentState c); cbn; rewrite H';
    reflexivity.
Qed.

Lemma update_panOffset c :
  panOffset (update c)
  = if enableDamping c
    then Vector3.multiplyScalar (panOffset c) (Fin 1 - dampingFactor c)%js
    else Vector3.zero.
Proof.
  unfold update; cbn.
  destruct (autoRotate c); destruct (currentState c); cbn;
    destruct (enableDamping c); reflexivity.
Qed.

Lemma update_gesture c :
  currentState (update c) = currentState c
  /\ listening (update c) = listening c
  /\ rotateStart (update c) = rotateStart c
  /\ panStart (update c) = panStart c
  /\ dollyStart (update c) = dollyStart c
  /\ PerspectiveCamera.up (camera (update c)) = PerspectiveCamera.up (camera c)
  /\ PerspectiveCamera.fov (camera (update c)) = PerspectiveCamera.fov (camera c).
Proof.
  unfold update; cbn.
  destruct (autoRotate c) eqn:E1; destruct (currentState c) eqn:E2; cbn;
    destruct (enableDamping c) eqn:E3; cbn; rewrite ?E2;
    repeat split; reflexivity.
Qed.

Lemma Spherical_eta (s : Spherical.t) :
  s = Spherical.mk (Spherical.radius s) (Spherical.phi s) (Spherical.theta s).
Proof. now destruct s. Qed.

Lemma max_min_id lo hi r :
  JsNum.le lo (Fin r) -> JsNum.le (Fin r) hi ->
  Math.max lo (Math.min hi (Fin r)) = Fin r.
Proof.
  destruct lo as [l| | |], hi as [h| | |]; simpl; try tauto; intros H1 H2;
    rewrite ?Rmin_right, ?Rmax_right by lra; try reflexivity.
Qed.

(** [update] is the identity on the camera position and the target when
    nothing is pending (no rotation delta, no pan offset, scale 1, no
    auto-rotation) and the spherical coordinates of the camera are inside
    the clamps. *)
Lemma update_fixed c px py pz tx ty tz :
  PerspectiveCamera.up (camera c) = up0 ->
  PerspectiveCamera.position (camera c) = Vector3.mk (Fin px) (Fin py) (Fin pz) ->
  target c = Vector3.mk (Fin tx) (Fin ty) (Fin tz) ->
  autoRotate c = false ->
  Spherical.phi (sphericalDelta c) = Fin 0 ->
  Spherical.theta (sphericalDelta c) = Fin 0 ->
  panOffset c = Vector3.zero ->
  scale c = Fin 1 ->
  forall r, r = sqrt ((px - tx) * (px - tx) + (py - ty) * (py - ty)
                      + (pz - tz) * (pz - tz)) ->
  0 < r ->
  JsNum.le (minDistance c) (Fin r) -> JsNum.le (Fin r) (maxDistance c) ->
  0.000001 <= acos ((py - ty) / r) <= PI - 0.000001 ->
  PerspectiveCamera.position (camera (update c))
    = Vector3.mk (Fin px) (Fin py) (Fin pz)
  /\ target (update c) = Vector3.mk (Fin tx) (Fin ty) (Fin tz)
  /\ spherical (update c)
     = Spherical.mk (Fin r) (Fin (acos ((py - ty) / r)))
                    (Fin (Math.Ratan2 (px - tx) (pz - tz))).
Proof.
  intros Hup Hp Ht Hauto Hdp Hdt Hpan Hsc r Er Hr Hlo Hhi Hphi.
  assert (Hoff : update_offset c
                 = Vector3.mk (Fin (px - tx)) (Fin (py - ty)) (Fin (pz - tz))).
  { unfold update_offset. rewrite Hup, Hp, Ht.
    change (Vector3.mk (Fin 0) (Fin 1) (Fin 0)) with up0.
    rewrite quat_of_default_up. unfold Vector3.sub. cbn.
    rewrite applyQuaternion_id. reflexivity. }
  assert (Hsph : spherical (update c)
     = Spherical.mk (Fin r) (Fin (acos ((py - ty) / r)))
                    (Fin (Math.Ratan2 (px - tx) (pz - tz)))).
  { rewrite (Spherical_eta (spherical (update c))).
    rewrite update_radius, update_phi, update_theta by exact Hauto.
    rewrite Hoff, setFromVector3_Fin by (rewrite <- Er; exact Hr).
    rewrite <- Er, Hsc, Hdp, Hdt. cbn [Spherical.radius Spherical.phi Spherical.theta].
    f_equal.
    - cbn [JsNum.mul]. replace (r * 1) with r by ring. now apply max_min_id.
    - cbn. rewrite Rmin_right, Rmax_right by lra. apply Fin_eq; lra.
    - cbn. apply Fin_eq; lra. }
  assert (Htg : target (update c) = Vector3.mk (Fin tx) (Fin ty) (Fin tz)).
  { rewrite update_target, Ht, Hpan. unfold Vector3.add. cbn.
    f_equal; apply Fin_eq; lra. }
  split; [|split; assumption].
  rewrite update_position, Htg, Hsph, Hup.
  change (Vector3.mk (Fin 0) (Fin 1) (Fin 0)) with up0.
  rewrite quat_of_default_up. rewrite Er.
  rewrite setFromSpherical_polar by (rewrite <- Er; exact Hr).
  rewrite applyQuaternion_id_inv. unfold Vector3.add. cbn.
  f_equal; apply Fin_eq; lra.
Qed.

Lemma update_sphericalDelta c :
  sphericalDelta (update c)
  = if enableDamping c
    then Spherical.mk
           (Spherical.radius (pending_delta c))
           (Spherical.phi (pending_delta c) * (Fin 1 - dampingFactor c))%js
           (Spherical.theta (pending_delta c) * (Fin 1 - dampingFactor c))%js
    else Spherical.mk (Fin 0) (Fin 0) (Fin 0).
Proof. unfold pending_delta. update_cases c; reflexivity. Qed.

Lemma update_theta_pending c :
  Spherical.theta (spherical (update c))
  = (Spherical.theta (Spherical.setFromVector3 (update_offset c))
     + Spherical.theta (pending_delta c))%js.
Proof. unfold pending_delta, update_offset. update_cases c; reflexivity. Qed.

End UpdateFacts.

Section SetupFacts.

Import THREE OrbitControls.

Lemma controls_ext (c1 c2 : t) :
  camera c1 = camera c2 ->
  domElement c1 = domElement c2 ->
  enabled c1 = enabled c2 ->
  target c1 = target c2 ->
  enableDamping c1 = enableDamping c2 ->
  dampingFactor c1 = dampingFactor c2 ->
  minDistance c1 = minDistance c2 ->
  maxDistance c1 = maxDistance c2 ->
  autoRotate c1 = autoRotate c2 ->
  autoRotateSpeed c1 = autoRotateSpeed c2 ->
  currentState c1 = currentState c2 ->
  spherical c1 = spherical c2 ->
  sphericalDelta c1 = sphericalDelta c2 ->
  panOffset c1 = panOffset c2 ->
  zoomChanged c1 = zoomChanged c2 ->
  rotateStart c1 = rotateStart c2 ->
  rotateEnd c1 = rotateEnd c2 ->
  rotateDelta c1 = rotateDelta c2 ->
  panStart c1 = panStart c2 ->
  panEnd c1 = panEnd c2 ->
  panDelta c1 = panDelta c2 ->
  dollyStart c1 = dollyStart c2 ->
  dollyEnd c1 = dollyEnd c2 ->
  dollyDelta c1 = dollyDelta c2 ->
  scale c1 = scale c2 ->
  listening c1 = listening c2 ->
  c1 = c2.
Proof.
  destruct c1, c2; cbn; intros; subst; reflexivity.
Qed.

Lemma update_scratch c :
  zoomChanged (update c) = zoomChanged c
  /\ rotateEnd (update c) = rotateEnd c
  /\ rotateDelta (update c) = rotateDelta c
  /\ panEnd (update c) = panEnd c
  /\ panDelta (update c) = panDelta c
  /\ dollyEnd (update c) = dollyEnd c
  /\ dollyDelta (update c) = dollyDelta c.
Proof.
  unfold update; cbn.
  destruct (autoRotate c); destruct (currentState c); cbn;
    destruct (enableDamping c); cbn; repeat split; reflexivity.
Qed.

Lemma camera_ext (a b : PerspectiveCamera.t) :
  PerspectiveCamera.position a = PerspectiveCamera.position b ->
  PerspectiveCamera.up a = PerspectiveCamera.up b ->
  PerspectiveCamera.fov a = PerspectiveCamera.fov b -> a = b.
Proof. destruct a, b; cbn; intros; subst; reflexivity. Qed.

Lemma create_eq h :
  create
    (PerspectiveCamera.mk (Vector3.mk (Fin 0) (Fin 50) (Fin 120))
                          (Vector3.mk (Fin 0) (Fin 1) (Fin 0)) (Fin 75))
    (DomElement.mk h)
  = mk (PerspectiveCamera.mk (Vector3.mk (Fin 0) (Fin 50) (Fin 120)) up0
                             (Fin 75))
       (DomElement.mk h) true (Vector3.mk (Fin 0) (Fin 0) (Fin 0)) false
       (Fin 0.05) (Fin 0) PInf false (Fin 2) NONE
       (Spherical.mk (Fin 130) (Fin (acos ((50 - 0) / 130)))
                     (Fin (Math.Ratan2 (0 - 0) (120 - 0))))
       (Spherical.mk (Fin 0) (Fin 0) (Fin 0)) Vector3.zero false
       Vector2.zero Vector2.zero Vector2.zero
       Vector2.zero Vector2.zero Vector2.zero
       Vector2.zero Vector2.zero Vector2.zero
       (Fin 1) false.
Proof.
  unfold create.
  match goal with |- update ?c0 = _ => set (c := c0) end.
  destruct (update_fixed c 0 50 120 0 0 0 eq_refl eq_refl eq_refl eq_refl
              eq_refl eq_refl eq_refl eq_refl 130) as (Hp & Ht & Hs).
  { replace ((0 - 0) * (0 - 0) + (50 - 0) * (50 - 0) + (120 - 0) * (120 - 0))
      with 16900 by ring. now rewrite sqrt_16900. }
  { lra. }
  { cbn. lra. }
  { exact I. }
  { apply acos_in_clamp. lra. }
  destruct (update_config c) as (C1 & C2 & C3 & C4 & C5 & C6 & C7 & C8).
  destruct (update_gesture c) as (G1 & G2 & G3 & G4 & G5 & G6 & G7).
  destruct (update_scratch c) as (S1 & S2 & S3 & S4 & S5 & S6 & S7).
  pose proof (update_scale c) as Hsc.
  pose proof (update_panOffset c) as Hpan.
  pose proof (update_sphericalDelta_reset c eq_refl) as Hsd.
  apply controls_ext;
    first [ exact Ht | exact Hs | exact C1 | exact C2 | exact C3 | exact C4
          | exact C5 | exact C6 | exact C7 | exact C8 | exact G1 | exact G2
          | exact G3 | exact G4 | exact G5 | exact S1 | exact S2 | exact S3
          | exact S4 | exact S5 | exact S6 | exact S7 | exact Hsc | exact Hpan
          | exact Hsd
          | apply camera_ext; [exact Hp | exact G6 | exact G7] ].
Qed.

Lemma setupControls_eq h : SolarSystem.setupControls h = idle_controls h.
Proof. unfold SolarSystem.setupControls. rewrite create_eq. reflexivity. Qed.

End SetupFacts.

Opaque OrbitControls.update.

Section RotateClaims.

Import THREE OrbitControls.

Lemma rotateTo_sphericalDelta px py c sx sy th ph h :
  rotateStart c = Vector2.mk (Fin sx) (Fin sy) ->
  Spherical.theta (sphericalDelta c) = Fin th ->
  Spherical.phi (sphericalDelta c) = Fin ph ->
  DomElement.clientHeight (domElement c) = Fin h ->
  h <> 0 ->
  Spherical.theta (sphericalDelta (rotateTo px py c))
    = Fin (th - 2 * PI * (0.01 * (px - sx)) / h)
  /\ Spherical.phi (sphericalDelta (rotateTo px py c))
    = Fin (ph - 2 * PI * (0.01 * (py - sy)) / h)
  /\ rotateStart (rotateTo px py c) = Vector2.mk (Fin px) (Fin py).
Proof.
  intros Hs Ht Hp Hh Hh0.
  unfold rotateTo, rotateLeft, rotateUp.
  cbn -[JsNum.div]. rewrite Hs, Ht, Hp, Hh. cbn -[JsNum.div].
  rewrite !div_Fin by exact Hh0. cbn.
  repeat split; apply Fin_eq; field; exact Hh0.
Qed.

(** C2, as amended.  During a rotate interaction a pointer move by
    (dx, dy) pixels decreases [sphericalDelta.theta] by
    2 pi (0.01 dx) / clientHeight and [sphericalDelta.phi] by
    2 pi (0.01 dy) / clientHeight: the pixel delta is scaled by 0.01 before
    the conversion, so a drag over the whole viewport height adds one
    hundredth of a full turn to the pending rotation.  This is the rotate
    branch of [onMouseMove] (state ROTATE) and the one-finger branch of
    [onTouchMove]. *)
Theorem C2_rotate_angle_per_pixel (px py : R) (c : t) (sx sy th ph h : R) :
  enabled c = true ->
  rotateStart c = Vector2.mk (Fin sx) (Fin sy) ->
  Spherical.theta (sphericalDelta c) = Fin th ->
  Spherical.phi (sphericalDelta c) = Fin ph ->
  DomElement.clientHeight (domElement c) = Fin h ->
  h <> 0 ->
  (currentState c = ROTATE ->
   Spherical.theta (sphericalDelta (onMouseMove_switch px py c))
     = Fin (th - 2 * PI * (0.01 * (px - sx)) / h)
   /\ Spherical.phi (sphericalDelta (onMouseMove_switch px py c))
     = Fin (ph - 2 * PI * (0.01 * (py - sy)) / h))
  /\ Spherical.theta (sphericalDelta (onTouchMove [mkTouch px py] c))
     = Fin (th - 2 * PI * (0.01 * (px - sx)) / h)
  /\ Spherical.phi (sphericalDelta (onTouchMove [mkTouch px py] c))
     = Fin (ph - 2 * PI * (0.01 * (py - sy)) / h).
Proof.
  intros He Hs Ht Hp Hh Hh0.
  destruct (rotateTo_sphericalDelta px py c sx sy th ph h Hs Ht Hp Hh Hh0)
    as (R1 & R2 & _).
  split.
  - intros Hst. unfold onMouseMove_switch. rewrite Hst. now split.
  - unfold onTouchMove. rewrite He. cbn [negb pageX pageY]. now split.
Qed.

End RotateClaims.

Section PinchClaims.

Import THREE OrbitControls.

Lemma sum_squares_nonneg a b : 0 <= a * a + b * b.
Proof. nra. Qed.

Lemma touchDistance_Fin t0 t1 :
  touchDistance t0 t1
  = Fin (sqrt ((pageX t0 - pageX t1) * (pageX t0 - pageX t1)
               + (pageY t0 - pageY t1) * (pageY t0 - pageY t1))).
Proof.
  unfold touchDistance. cbn -[Math.sqrt].
  rewrite sqrt_Fin by apply sum_squares_nonneg. reflexivity.
Qed.

Lemma touchDistance_same t : touchDistance t t = Fin 0.
Proof.
  rewrite touchDistance_Fin. apply Fin_eq.
  replace (_ + _) with 0 by ring. apply sqrt_0.
Qed.

Lemma touchDistance_3_4 :
  touchDistance (mkTouch 0 0) (mkTouch 3 4) = Fin 5.
Proof.
  rewrite touchDistance_Fin. apply Fin_eq. cbn [pageX pageY].
  replace (_ + _) with (5 * 5) by ring. apply sqrt_square. lra.
Qed.

Lemma Math_pow_pos r e :
  0 < r -> e <> 0 -> Math.pow (Fin r) e = Fin (Rpower r e).
Proof.
  intros Hr He. unfold Math.pow.
  destruct (Req_dec_T e 0); [contradiction|]. now apply Rcase_pos.
Qed.

Lemma Math_pow_NaN e : e <> 0 -> Math.pow NaN e = NaN.
Proof.
  intros He. unfold Math.pow. now destruct (Req_dec_T e 0).
Qed.

Lemma Math_pow_PInf e : 0 < e -> Math.pow PInf e = PInf.
Proof.
  intros He. unfold Math.pow.
  destruct (Req_dec_T e 0); [lra|]. destruct (Rlt_dec 0 e); [reflexivity|lra].
Qed.

Lemma Rpower_gt_0 x y : 0 < Rpower x y.
Proof. unfold Rpower. apply exp_pos. Qed.

(** What the two-finger branch of [onTouchMove] does, in every state. *)
Lemma onTouchMove_pinch c t0 t1 :
  enabled c = true ->
  let k := Math.pow (touchDistance t0 t1 / Vector2.y (dollyStart c))%js 0.1 in
  scale (onTouchMove [t0; t1] c) = (scale c / k)%js
  /\ Vector2.y (dollyDelta (onTouchMove [t0; t1] c)) = k
  /\ dollyStart (onTouchMove [t0; t1] c)
     = Vector2.mk (Fin 0) (touchDistance t0 t1)
  /\ zoomChanged (onTouchMove [t0; t1] c) = true.
Proof.
  intros He. unfold onTouchMove. rewrite He. now repeat split.
Qed.

Lemma onTouchStart_pinch c t0 t1 :
  enabled c = true ->
  dollyStart (onTouchStart [t0; t1] c)
    = Vector2.mk (Fin 0) (touchDistance t0 t1)
  /\ scale (onTouchStart [t0; t1] c) = scale c
  /\ enabled (onTouchStart [t0; t1] c) = true.
Proof.
  intros He. unfold onTouchStart. rewrite He. now repeat split.
Qed.

(** A NaN [scale] reaches the radius and the camera position through
    [update]. *)
Lemma setFromSpherical_NaN p t (T : Vector3.t) (Q : Quaternion.t) :
  Vector3.add T
    (Vector3.applyQuaternion (setFromSpherical (Spherical.mk NaN p t)) Q)
  = Vector3.mk NaN NaN NaN.
Proof.
  unfold setFromSpherical, Vector3.setFromSphericalCoords.
  cbn [Spherical.radius Spherical.phi Spherical.theta].
  rewrite !mul_NaN_r. cbn [JsNum.mul].
  unfold Vector3.applyQuaternion. cbn [Vector3.x Vector3.y Vector3.z].
  rewrite !mul_NaN_r. cbn [JsNum.mul JsNum.add JsNum.sub JsNum.neg].
  unfold Vector3.add. cbn [Vector3.x Vector3.y Vector3.z].
  rewrite !add_NaN_r. reflexivity.
Qed.

Lemma update_NaN_scale c :
  scale c = NaN ->
  Spherical.radius (spherical (update c)) = NaN
  /\ PerspectiveCamera.position (camera (update c))
     = Vector3.mk NaN NaN NaN.
Proof.
  intros Hs.
  assert (Hr : Spherical.radius (spherical (update c)) = NaN).
  { rewrite update_radius, Hs, mul_NaN_r, min_NaN_r, max_NaN_r. reflexivity. }
  split; [exact Hr|].
  rewrite update_position. revert Hr.
  generalize (target (update c)).
  generalize (Quaternion.invert
                (setFromUnitVectors (PerspectiveCamera.up (camera c))
                                    (Vector3.mk (Fin 0) (Fin 1) (Fin 0)))).
  generalize (spherical (update c)).
  intros [r p t] Q T Hr. cbn in Hr. subst r. apply setFromSpherical_NaN.
Qed.

(** C4, as amended.  The two-finger branch of [onTouchMove] has no guard:
    in every state it divides [scale] by
    [Math.pow(distance / dollyStart.y, 0.1)], records the distance in
    [dollyStart] and sets [zoomChanged]; no step is skipped and no epsilon
    replaces a zero distance.  The quotient has a non-zero divisor only
    when the previous distance is not zero: when the previous and the
    current distances are positive the factor is the positive real
    (d / d0) ^ 0.1 and [scale] stays a real. *)
Theorem C4_pinch_step_is_unguarded (c : t) (t0 t1 : Touch) :
  enabled c = true ->
  let d := sqrt ((pageX t0 - pageX t1) * (pageX t0 - pageX t1)
                 + (pageY t0 - pageY t1) * (pageY t0 - pageY t1)) in
  let c' := onTouchMove [t0; t1] c in
  scale c' = (scale c / Math.pow (Fin d / Vector2.y (dollyStart c))%js 0.1)%js
  /\ dollyStart c' = Vector2.mk (Fin 0) (Fin d)
  /\ zoomChanged c' = true
  /\ (forall d0 sc,
        Vector2.y (dollyStart c) = Fin d0 -> 0 < d0 -> 0 < d ->
        scale c = Fin sc ->
        scale c' = Fin (sc / Rpower (d / d0) 0.1)
        /\ 0 < Rpower (d / d0) 0.1).
Proof.
  intros He d c'.
  destruct (onTouchMove_pinch c t0 t1 He) as (H1 & _ & H3 & H4).
  rewrite touchDistance_Fin in H1, H3. fold d in H1, H3. fold c' in H1, H3, H4.
  split; [exact H1|]. split; [exact H3|]. split; [exact H4|].
  intros d0 sc Hd0 Hpos Hd Hsc.
  pose proof (Rpower_gt_0 (d / d0) 0.1) as Hk.
  split; [|exact Hk].
  rewrite H1, Hd0, Hsc. rewrite div_Fin by lra.
  rewrite Math_pow_pos by (try apply Rdiv_lt_0_compat; lra).
  apply div_Fin. lra.
Qed.

End PinchClaims.

(* ================================================================== *)
(** Projections of field assignments. *)
Ltac oc_simpl :=
  cbn [OrbitControls.camera OrbitControls.domElement OrbitControls.enabled
       OrbitControls.target OrbitControls.enableDamping
       OrbitControls.dampingFactor OrbitControls.minDistance
       OrbitControls.maxDistance OrbitControls.autoRotate
       OrbitControls.autoRotateSpeed OrbitControls.currentState
       OrbitControls.spherical OrbitControls.sphericalDelta
       OrbitControls.panOffset OrbitControls.zoomChanged
       OrbitControls.rotateStart OrbitControls.rotateEnd
       OrbitControls.rotateDelta OrbitControls.panStart OrbitControls.panEnd
       OrbitControls.panDelta OrbitControls.dollyStart OrbitControls.dollyEnd
       OrbitControls.dollyDelta OrbitControls.scale OrbitControls.listening
       OrbitControls.set_camera OrbitControls.set_target
       OrbitControls.set_currentState OrbitControls.set_spherical
       OrbitControls.set_sphericalDelta OrbitControls.set_panOffset
       OrbitControls.set_zoomChanged OrbitControls.set_rotateStart
       OrbitControls.set_rotateEnd OrbitControls.set_rotateDelta
       OrbitControls.set_panStart OrbitControls.set_panEnd
       OrbitControls.set_panDelta OrbitControls.set_dollyStart
       OrbitControls.set_dollyEnd OrbitControls.set_dollyDelta
       OrbitControls.set_scale OrbitControls.set_listening
       OrbitControls.PerspectiveCamera.position
       OrbitControls.PerspectiveCamera.up OrbitControls.PerspectiveCamera.fov
       OrbitControls.PerspectiveCamera.set_position
       OrbitControls.DomElement.clientHeight
       THREE.Spherical.radius THREE.Spherical.phi THREE.Spherical.theta
       THREE.Vector2.x THREE.Vector2.y
       THREE.Vector3.x THREE.Vector3.y THREE.Vector3.z
       THREE.Vector2.multiplyScalar THREE.Vector2.subVectors].

(* ================================================================== *)
(** ** Finiteness is preserved *)

Section InvariantFacts.

Import THREE.

Lemma nonzero_Fin r : r <> 0 -> is_nonzero (Fin r).
Proof. intros H. now exists r. Qed.

Lemma nonzero_finite a : is_nonzero a -> JsNum.finite a.
Proof. now intros (r & -> & _). Qed.

Lemma finite_div_nonzero a b :
  JsNum.finite a -> is_nonzero b -> JsNum.finite (a / b)%js.
Proof. intros Ha (s & -> & Hs). now apply finite_div. Qed.

Lemma sqrt_sq3 a b c :
  JsNum.finite a -> JsNum.finite b -> JsNum.finite c ->
  exists r, Math.sqrt (a * a + b * b + c * c)%js = Fin r /\ 0 <= r.
Proof.
  intros Ha Hb Hc.
  apply finite_inv in Ha as [x ->]. apply finite_inv in Hb as [y ->].
  apply finite_inv in Hc as [z ->].
  rewrite sqrt_sum_squares. eexists. split; [reflexivity | apply sqrt_pos].
Qed.

Lemma sqrt_sq4 a b c d :
  JsNum.finite a -> JsNum.finite b -> JsNum.finite c -> JsNum.finite d ->
  exists r, Math.sqrt (a * a + b * b + c * c + d * d)%js = Fin r /\ 0 <= r.
Proof.
  intros Ha Hb Hc Hd.
  apply finite_inv in Ha as [x ->]. apply finite_inv in Hb as [y ->].
  apply finite_inv in Hc as [z ->]. apply finite_inv in Hd as [w ->].
  cbn -[Math.sqrt]. rewrite sqrt_Fin by nra.
  eexists. split; [reflexivity | apply sqrt_pos].
Qed.

Lemma nonzero_or_else a : JsNum.finite a -> is_nonzero (JsNum.or_else a (Fin 1)).
Proof.
  intros Ha. apply finite_inv in Ha as [r ->]. cbn.
  destruct (Req_dec_T r 0); apply nonzero_Fin; lra.
Qed.

Lemma nonzero_of_is_zero a :
  JsNum.finite a -> JsNum.is_zero a = false -> is_nonzero a.
Proof.
  intros Ha. apply finite_inv in Ha as [r ->]. cbn.
  destruct (Req_dec_T r 0); [discriminate|]. intros _. now apply nonzero_Fin.
Qed.

Lemma finite_one_over a : is_nonzero a -> JsNum.finite (Fin 1 / a)%js.
Proof. intros H. now apply finite_div_nonzero. Qed.

Lemma finite_Fin r : JsNum.finite (Fin r).
Proof. exact I. Qed.

Create HintDb finite_db.

#[local] Hint Resolve finite_Fin finite_add finite_sub finite_mul finite_neg
  finite_cos finite_sin finite_tan finite_atan2 finite_abs finite_div_nonzero
  finite_one_over nonzero_Fin nonzero_or_else : finite_db.

Lemma finite3_intro a b c :
  JsNum.finite a -> JsNum.finite b -> JsNum.finite c ->
  finite3 (Vector3.mk a b c).
Proof. now repeat split. Qed.

Ltac fin3 :=
  repeat match goal with
         | H : finite3 _ |- _ => destruct H as (? & ? & ?)
         | H : finiteQ _ |- _ => destruct H as (? & ? & ? & ?)
         | H : finite2 _ |- _ => destruct H as (? & ?)
         end;
  try (apply finite3_intro); try (repeat split);
  cbn [Vector3.x Vector3.y Vector3.z Vector2.x Vector2.y
       Quaternion.x Quaternion.y Quaternion.z Quaternion.w];
  auto 20 with finite_db.

Lemma finite3_add a b : finite3 a -> finite3 b -> finite3 (Vector3.add a b).
Proof. intros. unfold Vector3.add. fin3. Qed.

Lemma finite3_sub a b : finite3 a -> finite3 b -> finite3 (Vector3.sub a b).
Proof. intros. unfold Vector3.sub. fin3. Qed.

Lemma finite3_multiplyScalar a s :
  finite3 a -> JsNum.finite s -> finite3 (Vector3.multiplyScalar a s).
Proof. intros. unfold Vector3.multiplyScalar. fin3. Qed.

Lemma finite3_crossVectors a b :
  finite3 a -> finite3 b -> finite3 (Vector3.crossVectors a b).
Proof. intros. unfold Vector3.crossVectors. fin3. Qed.

Lemma finite_length a : finite3 a -> JsNum.finite (Vector3.length a).
Proof.
  intros (Hx & Hy & Hz). unfold Vector3.length.
  destruct (sqrt_sq3 _ _ _ Hx Hy Hz) as (r & -> & _). exact I.
Qed.

Lemma finite_distanceTo a b :
  finite3 a -> finite3 b -> JsNum.finite (Vector3.distanceTo a b).
Proof.
  intros Ha Hb. unfold Vector3.distanceTo, Vector3.distanceToSquared.
  destruct (finite3_sub a b Ha Hb) as (Hx & Hy & Hz).
  destruct (sqrt_sq3 _ _ _ Hx Hy Hz) as (r & Hr & _).
  cbv zeta. unfold Vector3.sub in Hr. cbn [Vector3.x Vector3.y Vector3.z] in Hr.
  rewrite Hr. exact I.
Qed.

Lemma finite3_normalize a : finite3 a -> finite3 (Vector3.normalize a).
Proof.
  intros Ha. unfold Vector3.normalize, Vector3.divideScalar.
  apply finite3_multiplyScalar; [exact Ha|].
  apply finite_one_over, nonzero_or_else, finite_length, Ha.
Qed.

Lemma finite3_applyQuaternion v q :
  finite3 v -> finiteQ q -> finite3 (Vector3.applyQuaternion v q).
Proof. intros. unfold Vector3.applyQuaternion. cbv zeta. fin3. Qed.

Lemma finiteQ_invert q : finiteQ q -> finiteQ (Quaternion.invert q).
Proof. intros. unfold Quaternion.invert. fin3. Qed.

Lemma finiteQ_normalize q : finiteQ q -> finiteQ (Quaternion.normalize q).
Proof.
  intros (Hx & Hy & Hz & Hw). unfold Quaternion.normalize, Quaternion.length.
  destruct (sqrt_sq4 _ _ _ _ Hx Hy Hz Hw) as (r & -> & _).
  cbn [JsNum.is_zero]. destruct (Req_dec_T r 0).
  - repeat split; exact I.
  - rewrite div_Fin by assumption. fin3.
Qed.

Lemma finiteQ_setFromUnitVectors a b :
  finite3 a -> finite3 b -> finiteQ (setFromUnitVectors a b).
Proof.
  intros Ha Hb. unfold setFromUnitVectors, Vector3.dot. cbv zeta.
  destruct (JsNum.ltb _ _); [destruct (JsNum.gtb _ _)|];
    apply finiteQ_normalize; fin3.
Qed.

Lemma finite_setFromVector3 v :
  finite3 v ->
  JsNum.finite (Spherical.radius (Spherical.setFromVector3 v))
  /\ JsNum.finite (Spherical.phi (Spherical.setFromVector3 v))
  /\ JsNum.finite (Spherical.theta (Spherical.setFromVector3 v)).
Proof.
  intros (Hx & Hy & Hz).
  unfold Spherical.setFromVector3, Spherical.setFromCartesianCoords.
  destruct (sqrt_sq3 _ _ _ Hx Hy Hz) as (r & -> & _). cbv zeta.
  cbn [JsNum.is_zero]. destruct (Req_dec_T r 0).
  - repeat split; exact I.
  - cbn [Spherical.radius Spherical.phi Spherical.theta].
    split; [exact I|]. split.
    + apply finite_acos_clamp. now apply finite_div.
    + now apply finite_atan2.
Qed.

Lemma finite3_setFromSpherical s :
  JsNum.finite (Spherical.radius s) -> JsNum.finite (Spherical.phi s) ->
  JsNum.finite (Spherical.theta s) -> finite3 (setFromSpherical s).
Proof.
  intros. unfold setFromSpherical, Vector3.setFromSphericalCoords. cbv zeta.
  fin3.
Qed.


#[local] Hint Resolve finite3_add finite3_sub finite3_multiplyScalar
  finite3_crossVectors finite_length finite_distanceTo finite3_normalize
  finite3_applyQuaternion finiteQ_invert finiteQ_normalize
  finiteQ_setFromUnitVectors finite3_setFromSpherical : finite_db.

(* ================================================================== *)
(** ** The invariant is preserved by every handler *)

Import OrbitControls.

Lemma finite_getZoomScale : is_nonzero getZoomScale.
Proof.
  unfold getZoomScale. rewrite Math_pow_pos by lra.
  apply nonzero_Fin. pose proof (Rpower_gt_0 0.95 1). lra.
Qed.

Lemma finite_pending_delta c :
  Good c ->
  JsNum.finite (Spherical.phi (pending_delta c))
  /\ JsNum.finite (Spherical.theta (pending_delta c)).
Proof.
  intros G. unfold pending_delta.
  destruct (autoRotate c && STATE_eqb (currentState c) NONE).
  - unfold rotateLeft, getAutoRotationAngle. oc_simpl.
    split; [apply G|]. apply finite_sub; [apply G|].
    apply finite_mul; [|apply G]. unfold Math.PI.
    repeat (apply finite_div; [|lra]). exact I.
  - split; apply G.
Qed.

Lemma phi_bounds_ordered :
  JsNum.le (Fin 0.000001) (Math.PI - Fin 0.000001)%js.
Proof. cbn. pose proof PI2_1. lra. Qed.

Lemma finite_not_nan a : JsNum.finite a -> ~ JsNum.is_nan a.
Proof. now destruct a. Qed.

Lemma finite_update_spherical c :
  Good c ->
  JsNum.finite (Spherical.radius (spherical (update c)))
  /\ JsNum.finite (Spherical.phi (spherical (update c)))
  /\ JsNum.finite (Spherical.theta (spherical (update c))).
Proof.
  intros G.
  assert (Ho : finite3 (update_offset c)).
  { unfold update_offset. apply finite3_applyQuaternion.
    - apply finite3_sub; apply G.
    - apply finiteQ_setFromUnitVectors; [apply G | now repeat split]. }
  destruct (finite_setFromVector3 _ Ho) as (Hr & Hp & Ht).
  destruct (finite_pending_delta c G) as (Dp & Dt).
  rewrite update_radius, update_phi, update_theta_pending.
  split; [|split].
  - apply max_min_finite; [apply G | apply G |].
    apply finite_mul; [exact Hr | apply G].
  - apply max_min_finite; [exact I | apply phi_bounds_ordered |].
    apply finite_add; [exact Hp | apply G].
  - apply finite_add; [exact Ht | exact Dt].
Qed.

(** After [update] on a controller with real numbers, the spherical
    coordinates are inside the clamps. *)
Lemma update_clamped c : Good c -> SphericalClamped (update c).
Proof.
  intros G.
  assert (Ho : finite3 (update_offset c)).
  { unfold update_offset. apply finite3_applyQuaternion.
    - apply finite3_sub; apply G.
    - apply finiteQ_setFromUnitVectors; [apply G | now repeat split]. }
  destruct (finite_setFromVector3 _ Ho) as (Hr & Hp & Ht).
  destruct (update_config c) as (C1 & C2 & _).
  unfold SphericalClamped. rewrite C1, C2, update_radius, update_phi.
  destruct (max_min_bounds (minDistance c) (maxDistance c)
              (Spherical.radius (Spherical.setFromVector3 (update_offset c))
               * scale c)%js) as (R1 & R2).
  { apply G. }
  { apply finite_not_nan, finite_mul; [exact Hr | apply G]. }
  destruct (max_min_bounds (Fin 0.000001) (Math.PI - Fin 0.000001)%js
              (Spherical.phi (Spherical.setFromVector3 (update_offset c))
               + Spherical.phi (sphericalDelta c))%js) as (P1 & P2).
  { apply phi_bounds_ordered. }
  { apply finite_not_nan, finite_add; [exact Hp | apply G]. }
  split; [exact P1|]. split; [|split; [exact R1 | exact R2]].
  revert P2. generalize (Math.max (Fin 0.000001)
    (Math.min (Math.PI - Fin 0.000001)%js
       (Spherical.phi (Spherical.setFromVector3 (update_offset c)) +
        Spherical.phi (sphericalDelta c))%js)).
  intros [v| | |]; cbn; tauto.
Qed.

Lemma Good_update c : Good c -> Good (update c).
Proof.
  intros G.
  destruct (finite_update_spherical c G) as (Sr & Sp & St).
  destruct (finite_pending_delta c G) as (Dp & Dt).
  destruct (update_config c) as (C1 & C2 & C3 & C4 & C5 & C6 & C7 & C8).
  destruct (update_gesture c) as (G1 & G2 & G3 & G4 & G5 & G6 & G7).
  assert (Ht : finite3 (target (update c))).
  { rewrite update_target. apply finite3_add; apply G. }
  constructor.
  - rewrite update_position. apply finite3_add; [exact Ht|].
    apply finite3_applyQuaternion.
    + apply finite3_setFromSpherical; [exact Sr | exact Sp | exact St].
    + apply finiteQ_invert, finiteQ_setFromUnitVectors;
        [apply G | now repeat split].
  - rewrite G6. apply G.
  - rewrite G7. apply G.
  - rewrite C8. apply G.
  - exact Ht.
  - rewrite C5. apply G.
  - rewrite C1. apply G.
  - rewrite C1, C2. apply G.
  - rewrite C7. apply G.
  - rewrite update_sphericalDelta. destruct (enableDamping c); oc_simpl.
    + apply finite_mul; [exact Dp|]. apply finite_sub; [exact I | apply G].
    + exact I.
  - rewrite update_sphericalDelta. destruct (enableDamping c); oc_simpl.
    + apply finite_mul; [exact Dt|]. apply finite_sub; [exact I | apply G].
    + exact I.
  - rewrite update_panOffset. destruct (enableDamping c).
    + apply finite3_multiplyScalar; [apply G|].
      apply finite_sub; [exact I | apply G].
    + now repeat split.
  - rewrite G3. apply G.
  - rewrite G4. apply G.
  - rewrite G5. apply G.
  - rewrite update_scale. exact I.
Qed.

Lemma finite3_x v : finite3 v -> JsNum.finite (Vector3.x v).
Proof. now intros (? & ? & ?). Qed.

Lemma finite3_y v : finite3 v -> JsNum.finite (Vector3.y v).
Proof. now intros (? & ? & ?). Qed.

Lemma finite3_z v : finite3 v -> JsNum.finite (Vector3.z v).
Proof. now intros (? & ? & ?). Qed.

Lemma finite2_x v : finite2 v -> JsNum.finite (Vector2.x v).
Proof. now intros (? & ?). Qed.

Lemma finite2_y v : finite2 v -> JsNum.finite (Vector2.y v).
Proof. now intros (? & ?). Qed.

Lemma finite_PI : JsNum.finite Math.PI.
Proof. exact I. Qed.

#[local] Hint Resolve finite3_x finite3_y finite3_z finite2_x finite2_y
  finite_PI good_position good_up good_fov good_target good_damping
  good_min good_speed good_delta_phi good_delta_theta good_pan
  good_rotateStart good_panStart good_scale : finite_db.

#[local] Hint Extern 1 (_ <> 0) => lra : finite_db.

(** One field of [Good] after a handler: the setters are projected away,
    the viewport height and the pinch distance are replaced by their real
    values, and the goal is closed by the closure lemmas. *)
Ltac good_field G h Hh d0 Hd0 :=
  oc_simpl; rewrite ?Hh, ?Hd0;
  first [ exact I
        | apply G
        | eexists; split; [reflexivity | lra]
        | split; oc_simpl; solve [auto 30 with finite_db]
        | solve [auto 30 with finite_db] ].

Ltac good_start G h Hh Hpos d0 Hd0 Hd0pos :=
  destruct (good_height _ G) as (h & Hh & Hpos);
  destruct (good_dollyStart _ G) as (d0 & Hd0 & Hd0pos);
  assert (h <> 0) by lra.

Lemma Good_rotateTo px py c : Good c -> Good (rotateTo px py c).
Proof.
  intros G. good_start G h Hh Hpos d0 Hd0 Hd0pos.
  unfold rotateTo, rotateLeft, rotateUp. cbv zeta.
  constructor; good_field G h Hh d0 Hd0.
Qed.

Lemma Good_pan dx dy c :
  JsNum.finite dx -> JsNum.finite dy -> Good c -> Good (pan dx dy c).
Proof.
  intros Hx Hy G. good_start G h Hh Hpos d0 Hd0 Hd0pos.
  unfold pan. cbv zeta.
  constructor; good_field G h Hh d0 Hd0.
Qed.

Lemma Good_dollyIn k c : is_nonzero k -> Good c -> Good (dollyIn k c).
Proof.
  intros Hk G. good_start G h Hh Hpos d0 Hd0 Hd0pos.
  unfold dollyIn. constructor; good_field G h Hh d0 Hd0.
Qed.

Lemma Good_dollyOut k c : JsNum.finite k -> Good c -> Good (dollyOut k c).
Proof.
  intros Hk G. good_start G h Hh Hpos d0 Hd0 Hd0pos.
  unfold dollyOut. constructor; good_field G h Hh d0 Hd0.
Qed.

Lemma Good_onMouseDown b px py c :
  0 <= py -> Good c -> Good (onMouseDown b px py c).
Proof.
  intros Hy G. good_start G h Hh Hpos d0 Hd0 Hd0pos.
  unfold onMouseDown. destruct (enabled c); [|exact G]. cbn [negb]. cbv zeta.
  assert (G' : Good
    match b with
    | 0%Z => set_rotateStart (Vector2.mk (Fin px) (Fin py))
               (set_currentState ROTATE c)
    | 1%Z => set_dollyStart (Vector2.mk (Fin px) (Fin py))
               (set_currentState DOLLY c)
    | 2%Z => set_panStart (Vector2.mk (Fin px) (Fin py))
               (set_currentState PAN c)
    | _ => c
    end).
  { destruct b as [|[p|p|]|p]; try exact G;
      try (destruct p; try exact G);
      constructor; good_field G h Hh d0 Hd0. }
  destruct (negb _); [|exact G'].
  destruct (good_height _ G') as (h' & Hh' & Hpos').
  destruct (good_dollyStart _ G') as (d' & Hd' & Hd'pos).
  constructor; good_field G' h' Hh' d' Hd'.
Qed.

Lemma finite_getZoomScale' : JsNum.finite getZoomScale.
Proof. apply nonzero_finite, finite_getZoomScale. Qed.

#[local] Hint Resolve finite_getZoomScale finite_getZoomScale' : finite_db.

Lemma Good_onMouseMove_switch px py c :
  0 <= py -> Good c -> Good (onMouseMove_switch px py c).
Proof.
  intros Hy G. unfold onMouseMove_switch.
  destruct (currentState c); [exact G | now apply Good_rotateTo | |].
  - (* DOLLY *)
    good_start G h Hh Hpos d0 Hd0 Hd0pos. cbv zeta.
    destruct (JsNum.gtb _ _); [|destruct (JsNum.ltb _ _)];
      unfold dollyIn, dollyOut; constructor; good_field G h Hh d0 Hd0.
  - (* PAN *)
    good_start G h Hh Hpos d0 Hd0 Hd0pos.
    unfold pan. cbv zeta. constructor; good_field G h Hh d0 Hd0.
Qed.

Lemma Good_onMouseMove px py c :
  0 <= py -> Good c -> Good (onMouseMove px py c).
Proof.
  intros Hy G. unfold onMouseMove. destruct (enabled c); [|exact G].
  cbn [negb]. apply Good_update, Good_onMouseMove_switch; assumption.
Qed.

Lemma Good_onMouseUp c : Good c -> Good (onMouseUp c).
Proof.
  intros G. unfold onMouseUp. destruct (enabled c); [|exact G]. cbn [negb].
  good_start G h Hh Hpos d0 Hd0 Hd0pos.
  constructor; good_field G h Hh d0 Hd0.
Qed.

Lemma Good_onMouseWheel dy c : Good c -> Good (onMouseWheel dy c).
Proof.
  intros G. unfold onMouseWheel. destruct (enabled c); [|exact G].
  cbn [negb]. cbv zeta. apply Good_update.
  destruct (JsNum.ltb _ _); [|destruct (JsNum.gtb _ _)];
    [apply Good_dollyOut | apply Good_dollyIn | ];
    auto with finite_db.
Qed.

Lemma touchDistance_nonneg t0 t1 :
  exists d, touchDistance t0 t1 = Fin d /\ 0 <= d.
Proof.
  rewrite touchDistance_Fin. eexists. split; [reflexivity | apply sqrt_pos].
Qed.

Lemma sum_squares_pos a b : a <> 0 \/ b <> 0 -> 0 < a * a + b * b.
Proof.
  intros [H|H]; pose proof (Rsqr_pos_lt _ H) as P; unfold Rsqr in P; nra.
Qed.

Lemma touchDistance_pos t0 t1 :
  pageX t0 <> pageX t1 \/ pageY t0 <> pageY t1 ->
  exists d, touchDistance t0 t1 = Fin d /\ 0 < d.
Proof.
  intros H. rewrite touchDistance_Fin. eexists. split; [reflexivity|].
  apply sqrt_lt_R0, sum_squares_pos. destruct H; [left | right]; lra.
Qed.

Lemma Good_onTouchStart ts c : Good c -> Good (onTouchStart ts c).
Proof.
  intros G. unfold onTouchStart. destruct (enabled c); [|exact G].
  cbn [negb]. good_start G h Hh Hpos d0 Hd0 Hd0pos.
  destruct ts as [|t0 [|t1 [|t2 ts]]]; try exact G; cbv zeta.
  - constructor; good_field G h Hh d0 Hd0.
  - destruct (touchDistance_nonneg t0 t1) as (d & Hd & Hdpos).
    rewrite Hd. constructor; good_field G h Hh d0 Hd0.
Qed.

(** The pinch factor of a regular two-finger move is not NaN: dividing a
    finite [scale] by it gives a finite number. *)
Lemma finite_pinch_scale sc d d0 :
  JsNum.finite sc -> 0 < d -> 0 <= d0 ->
  JsNum.finite (sc / Math.pow (Fin d / Fin d0)%js 0.1)%js.
Proof.
  intros Hsc Hd Hd0. apply finite_inv in Hsc as [s ->].
  destruct (Req_dec_T d0 0) as [->|Hne].
  - rewrite div_pos_zero by exact Hd. rewrite Math_pow_PInf by lra. exact I.
  - rewrite div_Fin by exact Hne.
    rewrite Math_pow_pos by (try apply Rdiv_lt_0_compat; lra).
    apply finite_div; [exact I|]. pose proof (Rpower_gt_0 (d / d0) 0.1). lra.
Qed.

Lemma Good_onTouchMove ts c :
  regular (TouchMove ts) -> Good c -> Good (onTouchMove ts c).
Proof.
  intros Hreg G. unfold onTouchMove. destruct (enabled c); [|exact G].
  cbn [negb].
  destruct ts as [|t0 [|t1 [|t2 ts]]]; try exact G.
  - now apply Good_rotateTo.
  - cbn [regular] in Hreg. cbv zeta.
    good_start G h Hh Hpos d0 Hd0 Hd0pos.
    destruct (touchDistance_pos t0 t1 Hreg) as (d & Hd & Hdpos).
    rewrite Hd. unfold dollyIn.
    pose proof (finite_pinch_scale (scale c) d d0 (good_scale c G) Hdpos Hd0pos).
    constructor; good_field G h Hh d0 Hd0.
Qed.

Lemma Good_onTouchEnd c : Good c -> Good (onTouchEnd c).
Proof.
  intros G. unfold onTouchEnd. destruct (enabled c); [|exact G]. cbn [negb].
  good_start G h Hh Hpos d0 Hd0 Hd0pos.
  constructor; good_field G h Hh d0 Hd0.
Qed.

Lemma Good_dispatch e c : regular e -> Good c -> Good (dispatch e c).
Proof.
  intros Hreg G. destruct e; cbn [dispatch].
  - now apply Good_onMouseDown.
  - destruct (listening c); [now apply Good_onMouseMove | exact G].
  - destruct (listening c); [now apply Good_onMouseUp | exact G].
  - now apply Good_onMouseWheel.
  - now apply Good_onTouchStart.
  - now apply Good_onTouchMove.
  - now apply Good_onTouchEnd.
  - now apply Good_update.
Qed.

Lemma same_clamp_refl c : same_clamp c c.
Proof. now repeat split. Qed.

Lemma same_clamp_clamped c c' :
  same_clamp c c' -> SphericalClamped c -> SphericalClamped c'.
Proof.
  intros (Hs & Hlo & Hhi). unfold SphericalClamped. now rewrite Hs, Hlo, Hhi.
Qed.

Ltac same_clamp_solve := repeat split; oc_simpl; reflexivity.

Lemma same_clamp_rotateTo px py c : same_clamp c (rotateTo px py c).
Proof. unfold rotateTo, rotateLeft, rotateUp. cbv zeta. same_clamp_solve. Qed.

Lemma same_clamp_onMouseDown b px py c :
  same_clamp c (onMouseDown b px py c).
Proof.
  unfold onMouseDown. destruct (enabled c); [|apply same_clamp_refl].
  cbn [negb]. cbv zeta.
  destruct b as [|[p|p|]|p]; try (destruct p);
    oc_simpl; cbn [STATE_eqb negb]; try destruct (negb _);
    same_clamp_solve.
Qed.

Lemma same_clamp_onMouseMove_switch px py c :
  same_clamp c (onMouseMove_switch px py c).
Proof.
  unfold onMouseMove_switch.
  destruct (currentState c);
    [apply same_clamp_refl | apply same_clamp_rotateTo | |]; cbv zeta.
  - destruct (JsNum.gtb _ _); [|destruct (JsNum.ltb _ _)];
      unfold dollyIn, dollyOut; same_clamp_solve.
  - unfold pan. cbv zeta. same_clamp_solve.
Qed.

Lemma same_clamp_onMouseUp c : same_clamp c (onMouseUp c).
Proof.
  unfold onMouseUp. destruct (enabled c); [|apply same_clamp_refl].
  same_clamp_solve.
Qed.

Lemma same_clamp_onTouchStart ts c : same_clamp c (onTouchStart ts c).
Proof.
  unfold onTouchStart. destruct (enabled c); [|apply same_clamp_refl].
  cbn [negb]. destruct ts as [|t0 [|t1 [|t2 ts]]];
    try apply same_clamp_refl; same_clamp_solve.
Qed.

Lemma same_clamp_onTouchMove ts c : same_clamp c (onTouchMove ts c).
Proof.
  unfold onTouchMove. destruct (enabled c); [|apply same_clamp_refl].
  cbn [negb]. destruct ts as [|t0 [|t1 [|t2 ts]]];
    try apply same_clamp_refl; [apply same_clamp_rotateTo|].
  unfold dollyIn. same_clamp_solve.
Qed.

Lemma same_clamp_onTouchEnd c : same_clamp c (onTouchEnd c).
Proof.
  unfold onTouchEnd. destruct (enabled c); [|apply same_clamp_refl].
  same_clamp_solve.
Qed.

Lemma clamped_dispatch e c :
  regular e -> Good c -> SphericalClamped c -> SphericalClamped (dispatch e c).
Proof.
  intros Hreg G S. destruct e; cbn [dispatch].
  - eapply same_clamp_clamped; [apply same_clamp_onMouseDown | exact S].
  - destruct (listening c); [|exact S]. unfold onMouseMove.
    destruct (enabled c); [|exact S]. cbn [negb].
    apply update_clamped, Good_onMouseMove_switch; assumption.
  - destruct (listening c); [|exact S].
    eapply same_clamp_clamped; [apply same_clamp_onMouseUp | exact S].
  - unfold onMouseWheel. destruct (enabled c); [|exact S]. cbn [negb].
    cbv zeta. apply update_clamped.
    destruct (JsNum.ltb _ _); [|destruct (JsNum.gtb _ _)];
      [apply Good_dollyOut | apply Good_dollyIn | ]; auto with finite_db.
  - eapply same_clamp_clamped; [apply same_clamp_onTouchStart | exact S].
  - eapply same_clamp_clamped; [apply same_clamp_onTouchMove | exact S].
  - eapply same_clamp_clamped; [apply same_clamp_onTouchEnd | exact S].
  - now apply update_clamped.
Qed.

Lemma run_invariant es : forall c,
  Good c -> SphericalClamped c -> Forall regular es ->
  Good (run es c) /\ SphericalClamped (run es c).
Proof.
  induction es as [|e es IH]; intros c G S Hreg; [now split|].
  inversion Hreg as [|? ? He Hes]; subst.
  change (run (e :: es) c) with (run es (dispatch e c)).
  apply IH; [now apply Good_dispatch | now apply clamped_dispatch | exact Hes].
Qed.


(** *** Concrete runs *)

Lemma Good_idle h : 0 < h -> Good (idle_controls (Fin h)).
Proof.
  intros Hh. constructor; cbn; repeat split; try exact I; try lra.
  - exists h. now split.
  - exists 0. split; [reflexivity | lra].
Qed.

Lemma clamped_idle h : SphericalClamped (idle_controls h).
Proof.
  unfold SphericalClamped. cbn.
  pose proof (acos_in_clamp ((50 - 0) / 130)) as H. lra.
Qed.

(** The controller that [setupControls] builds satisfies the hypotheses of
    the invariant. *)
Lemma setupControls_invariant h :
  0 < h ->
  Good (SolarSystem.setupControls (Fin h))
  /\ SphericalClamped (SolarSystem.setupControls (Fin h)).
Proof.
  intros Hh. rewrite setupControls_eq.
  split; [now apply Good_idle | apply clamped_idle].
Qed.


(** The degenerate pinch: both fingers at one point when the touch starts
    and when it moves. *)
Lemma degenerate_pinch_scale c t :
  enabled c = true ->
  scale (onTouchMove [t; t] (onTouchStart [t; t] c)) = NaN
  /\ Vector2.y (dollyDelta (onTouchMove [t; t] (onTouchStart [t; t] c)))
     = NaN
  /\ Vector2.y (dollyStart (onTouchStart [t; t] c)) = Fin 0.
Proof.
  intros He.
  destruct (onTouchStart_pinch c t t He) as (S1 & S2 & S3).
  destruct (onTouchMove_pinch _ t t S3) as (M1 & M2 & _).
  rewrite touchDistance_same in *.
  assert (K : Math.pow (Fin 0 / Vector2.y (dollyStart (onTouchStart [t; t] c)))%js
                       0.1 = NaN).
  { rewrite S1. cbn [Vector2.y]. rewrite div_zero_zero.
    apply Math_pow_NaN. lra. }
  rewrite K in M1, M2. split; [|split].
  - rewrite M1. now destruct (scale _).
  - exact M2.
  - now rewrite S1.
Qed.

Lemma degenerate_pinch_breaks_clamp c t :
  enabled c = true ->
  let c' := update (onTouchMove [t; t] (onTouchStart [t; t] c)) in
  Spherical.radius (spherical c') = NaN
  /\ minDistance c' = minDistance c
  /\ maxDistance c' = maxDistance c
  /\ ~ SphericalClamped c'.
Proof.
  intros He c'.
  destruct (degenerate_pinch_scale c t He) as (Hs & _).
  destruct (update_NaN_scale _ Hs) as (Hr & _). fold c' in Hr.
  destruct (update_config (onTouchMove [t; t] (onTouchStart [t; t] c)))
    as (C1 & C2 & _). fold c' in C1, C2.
  destruct (same_clamp_onTouchMove [t; t] (onTouchStart [t; t] c))
    as (_ & M1 & M2).
  destruct (same_clamp_onTouchStart [t; t] c) as (_ & T1 & T2).
  split; [exact Hr|]. split; [now rewrite C1, M1, T1|].
  split; [now rewrite C2, M2, T2|].
  unfold SphericalClamped. rewrite Hr. intros (_ & _ & H & _).
  revert H. generalize (minDistance c'). now intros [].
Qed.


(** C2, witness. *)
Lemma C2_rotate_angle_per_pixel_witness :
  let c := onMouseDown 0 0 0 (idle_controls (Fin 800)) in
  (currentState c = ROTATE ->
   Spherical.theta (sphericalDelta (onMouseMove_switch 0 800 c))
     = Fin (0 - 2 * PI * (0.01 * (0 - 0)) / 800)
   /\ Spherical.phi (sphericalDelta (onMouseMove_switch 0 800 c))
     = Fin (0 - 2 * PI * (0.01 * (800 - 0)) / 800))
  /\ Spherical.theta (sphericalDelta (onTouchMove [mkTouch 0 800] c))
     = Fin (0 - 2 * PI * (0.01 * (0 - 0)) / 800)
  /\ Spherical.phi (sphericalDelta (onTouchMove [mkTouch 0 800] c))
     = Fin (0 - 2 * PI * (0.01 * (800 - 0)) / 800).
Proof.
  intros c.
  apply (C2_rotate_angle_per_pixel 0 800 c 0 0 0 0 800);
    try reflexivity. lra.
Defined.

(** C2, counterexample: a drag down the whole height of an 800 pixel
    viewport changes [sphericalDelta.phi] by 2 pi / 100, not by
    2 pi 800 / 800 in either direction. *)
Lemma C2_counterexample :
  let c := onMouseDown 0 0 0 (SolarSystem.setupControls (Fin 800)) in
  let c' := onMouseMove_switch 0 800 c in
  currentState c = ROTATE
  /\ DomElement.clientHeight (domElement c) = Fin 800
  /\ Spherical.phi (sphericalDelta c) = Fin 0
  /\ Spherical.phi (sphericalDelta c') = Fin (- (2 * PI / 100))
  /\ Spherical.phi (sphericalDelta c') <> Fin (2 * PI * (800 - 0) / 800)
  /\ Spherical.phi (sphericalDelta c') <> Fin (0 - 2 * PI * (800 - 0) / 800).
Proof.
  intros c c'. subst c c'. rewrite setupControls_eq.
  set (c := onMouseDown 0 0 0 (idle_controls (Fin 800))).
  destruct (rotateTo_sphericalDelta 0 800 c 0 0 0 0 800) as (_ & Hp & _);
    try reflexivity; [lra|].
  change (onMouseMove_switch 0 800 c) with (rotateTo 0 800 c).
  rewrite Hp. pose proof PI_RGT_0 as Hpi.
  split; [reflexivity|]. split; [reflexivity|]. split; [reflexivity|].
  split; [apply Fin_eq; lra|].
  split; intros H; injection H as H; lra.
Qed.

(** C4, witness. *)
Lemma C4_pinch_step_is_unguarded_witness :
  let c := onTouchStart [mkTouch 0 0; mkTouch 3 4] (idle_controls (Fin 800)) in
  let t0 := mkTouch 0 0 in
  let t1 := mkTouch 6 8 in
  let d := sqrt ((pageX t0 - pageX t1) * (pageX t0 - pageX t1)
                 + (pageY t0 - pageY t1) * (pageY t0 - pageY t1)) in
  let c' := onTouchMove [t0; t1] c in
  scale c' = (scale c / Math.pow (Fin d / Vector2.y (dollyStart c))%js 0.1)%js
  /\ dollyStart c' = Vector2.mk (Fin 0) (Fin d)
  /\ zoomChanged c' = true
  /\ (forall d0 sc,
        Vector2.y (dollyStart c) = Fin d0 -> 0 < d0 -> 0 < d ->
        scale c = Fin sc ->
        scale c' = Fin (sc / Rpower (d / d0) 0.1)
        /\ 0 < Rpower (d / d0) 0.1).
Proof.
  intros c t0 t1.
  apply (C4_pinch_step_is_unguarded c t0 t1). reflexivity.
Defined.

(** C4, counterexample: the pinch starts with both fingers at one point, so
    the recorded distance is 0.  A move to two points 5 pixels apart
    evaluates 5 / 0: the factor is infinite and [scale] drops to 0.  A move
    that keeps both fingers together evaluates 0 / 0: the factor and
    [scale] are NaN, and the next [update] writes NaN into the radius and
    into the camera position. *)
Lemma C4_counterexample :
  let p := mkTouch 5 5 in
  let c1 := onTouchStart [p; p] (SolarSystem.setupControls (Fin 800)) in
  let c2 := onTouchMove [mkTouch 0 0; mkTouch 3 4] c1 in
  let c3 := onTouchMove [p; p] c1 in
  Vector2.y (dollyStart c1) = Fin 0
  /\ Vector2.y (dollyDelta c2) = PInf
  /\ scale c1 = Fin 1 /\ scale c2 = Fin 0
  /\ Vector2.y (dollyDelta c3) = NaN
  /\ scale c3 = NaN
  /\ Spherical.radius (spherical (update c3)) = NaN
  /\ PerspectiveCamera.position (camera (update c3))
     = Vector3.mk NaN NaN NaN.
Proof.
  intros p c1 c2 c3. subst c1 c2 c3. rewrite setupControls_eq.
  set (c0 := idle_controls (Fin 800)).
  destruct (degenerate_pinch_scale c0 p eq_refl) as (Hs & Hd & Hz).
  destruct (onTouchStart_pinch c0 p p eq_refl) as (S1 & S2 & S3).
  destruct (onTouchMove_pinch _ (mkTouch 0 0) (mkTouch 3 4) S3)
    as (M1 & M2 & _).
  rewrite touchDistance_3_4, Hz, div_pos_zero, Math_pow_PInf in M1, M2 by lra.
  destruct (update_NaN_scale _ Hs) as (Hr & Hp).
  split; [exact Hz|]. split; [exact M2|]. split; [exact S2|].
  split; [rewrite M1, S2; reflexivity|].
  split; [exact Hd|]. split; [exact Hs|]. split; [exact Hr | exact Hp].
Qed.

End InvariantFacts.

Section ControllerClaims.

Import THREE OrbitControls.

(** C8.  Immediately after every call of [update], [scale] is 1: the zoom
    scale multiplies the radius once, inside that call (the new radius is
    the clamp of the old radius times [scale]), and is then reset, so that
    the next call multiplies by 1 unless a dolly input came in between.
    The handlers that end with [this.update()] leave [scale] at 1 too. *)
Theorem C8_zoom_scale_is_one_shot (c : t) :
  scale (update c) = Fin 1
  /\ Spherical.radius (spherical (update c))
     = Math.max (minDistance c)
         (Math.min (maxDistance c)
            (Spherical.radius (Spherical.setFromVector3 (update_offset c))
             * scale c)%js)
  /\ Spherical.radius (spherical (update (update c)))
     = Math.max (minDistance c)
         (Math.min (maxDistance c)
            (Spherical.radius
               (Spherical.setFromVector3 (update_offset (update c)))
             * Fin 1)%js)
  /\ (forall dy, scale (onMouseWheel dy c)
                 = if enabled c then Fin 1 else scale c)
  /\ (forall px py, scale (onMouseMove px py c)
                    = if enabled c then Fin 1 else scale c).
Proof.
  split; [apply update_scale|].
  split; [apply update_radius|].
  split.
  - rewrite update_radius, update_scale.
    destruct (update_config c) as (-> & -> & _). reflexivity.
  - split; intros; unfold onMouseWheel, onMouseMove;
      destruct (enabled c); simpl; auto using update_scale.
Qed.

End ControllerClaims.

(* ================================================================== *)
(** ** The orbital motion model *)

Section MotionClaims.

Import THREE SolarSystem.

Lemma animate_paused dt s :
  isPaused s = true ->
  animate dt s = set_controls (OrbitControls.update (controls s)) s.
Proof. intros H. unfold animate. now rewrite H. Qed.

Lemma frames_paused dts : forall s,
  isPaused s = true ->
  frames dts s
  = set_controls
      (Nat.iter (length dts) OrbitControls.update (controls s)) s.
Proof.
  induction dts as [|dt dts IH]; intros s H.
  - now destruct s.
  - change (frames (dt :: dts) s) with (frames dts (animate dt s)).
    rewrite animate_paused by assumption.
    rewrite IH by exact H. cbn [length]. rewrite Nat.iter_succ_r.
    reflexivity.
Qed.

(** C9.  With the pause flag set, any number of frames of the animation
    loop leaves the planets (orbital angle, orbit rotation, self-rotation),
    the moons and the Sun exactly as they were, while the camera
    controller's [update] has run once per frame. *)
Theorem C9_pause_freezes_orbits (deltas : list num) (s : SolarSystem.t) :
  isPaused s = true ->
  planets (frames deltas s) = planets s
  /\ moons (frames deltas s) = moons s
  /\ sun (frames deltas s) = sun s
  /\ isPaused (frames deltas s) = true
  /\ controls (frames deltas s)
     = Nat.iter (length deltas) OrbitControls.update (controls s).
Proof.
  intros H. rewrite frames_paused by exact H. now repeat split.
Qed.

Lemma updatePlanets_moons dt s :
  moons (updatePlanets dt s)
  = fmap (M := option) (fmap (updateMoon (globalSpeedMultiplier s))) (moons s).
Proof.
  destruct s as [c p g [m|] pl [ms|] sf]; reflexivity.
Qed.

Lemma animate_moons dt s :
  isPaused s = false ->
  moons (animate dt s)
  = fmap (M := option) (fmap (updateMoon (globalSpeedMultiplier s))) (moons s).
Proof.
  intros H. unfold animate. rewrite H. cbn [negb set_controls moons].
  rewrite <- updatePlanets_moons with (dt := dt).
  unfold updateStarField.
  now destruct (starField_rotation_y (updatePlanets dt s)).
Qed.

(** C10, as amended.  On an unpaused frame every moon's orbital angle
    grows by its own speed times the global multiplier and its
    self-rotation by 0.02 times the global multiplier; its position in the
    frame of its parent planet's mesh is recomputed from the new angle.
    The individual speed of a planet does not enter these values kept for
    the moon: assigning any value to any planet's individual speed before
    the frame leaves the records of the moons after the frame unchanged.
    (The moon of the baseline is created with speed 0.05.) *)
Theorem C10_moon_record_ignores_individual_speed
  (dt : num) (key : string) (v : num) (s : SolarSystem.t) :
  isPaused s = false ->
  moons (animate dt (onPlanetSpeedInput key v s)) = moons (animate dt s)
  /\ (forall ms k m,
        moons s = Some ms -> ms !! k = Some m ->
        exists ms' m',
          moons (animate dt s) = Some ms' /\ ms' !! k = Some m'
          /\ moon_angle m'
             = (moon_angle m + moon_speed m * globalSpeedMultiplier s)%js
          /\ rotation_y (moon_mesh m')
             = (rotation_y (moon_mesh m)
                + Fin 0.02 * globalSpeedMultiplier s)%js
          /\ Vector3.x (position (moon_mesh m'))
             = (Math.cos (moon_angle m') * moon_distance m)%js
          /\ Vector3.z (position (moon_mesh m'))
             = (Math.sin (moon_angle m') * moon_distance m)%js
          /\ moon_speed m' = moon_speed m)
  /\ (forall r s0,
        fmap (M := option) (fun ms => moon_speed <$> ms !! "earth")
             (moons (addEarthMoon r s0))
        = Some (Some (Fin 0.05))).
Proof.
  intros H. split; [|split].
  - rewrite !animate_moons by (cbn; exact H). reflexivity.
  - intros ms k m Hms Hk. rewrite animate_moons by exact H. rewrite Hms.
    exists (updateMoon (globalSpeedMultiplier s) <$> ms),
           (updateMoon (globalSpeedMultiplier s) m).
    split; [reflexivity|]. split; [now rewrite lookup_fmap, Hk|].
    now repeat split.
  - intros r s0. unfold addEarthMoon. cbn [set_moons moons fmap option_fmap option_map].
    now rewrite lookup_insert_eq.
Qed.

(** The two slider listeners store the value they read as it is. *)
Lemma speed_listeners_store_the_value (key : string) (v : num)
  (s : SolarSystem.t) :
  globalSpeedMultiplier (onGlobalSpeedInput v s) = v
  /\ individualSpeed <$> (planets (onPlanetSpeedInput key v s) !! key)
     = (fun _ => v) <$> (planets s !! key).
Proof.
  split; [reflexivity|].
  unfold onPlanetSpeedInput. cbn [set_planets planets].
  rewrite lookup_alter_eq. now destruct (planets s !! key).
Qed.

End MotionClaims.

(* ================================================================== *)
(** ** The speed sliders *)

Section SliderFacts.

Import THREE SolarSystem.

Lemma Int_part_spec x z : IZR z <= x -> x < IZR z + 1 -> Int_part x = z.
Proof.
  intros H1 H2. unfold Int_part.
  rewrite <- (up_tech x z H1); [lia|]. rewrite plus_IZR. exact H2.
Qed.

Lemma Int_part_bounds x : IZR (Int_part x) <= x < IZR (Int_part x) + 1.
Proof. destruct (base_Int_part x) as [H1 H2]. lra. Qed.

Lemma Int_part_le x y : x <= y -> (Int_part x <= Int_part y)%Z.
Proof.
  intros H. destruct (Int_part_bounds x) as [X1 X2].
  destruct (Int_part_bounds y) as [Y1 Y2].
  destruct (Z_lt_le_dec (Int_part y) (Int_part x)) as [L|L]; [|exact L].
  exfalso. assert (L' : (Int_part y + 1 <= Int_part x)%Z) by lia.
  apply IZR_le in L'. rewrite plus_IZR in L'. lra.
Qed.

Lemma Int_part_nonneg x : 0 <= x -> (0 <= Int_part x)%Z.
Proof.
  intros H. replace 0%Z with (Int_part 0); [now apply Int_part_le|].
  apply Int_part_spec; lra.
Qed.

(** A range input with ordered bounds and a positive step holds a value
    inside its bounds, whatever was assigned to it; below the lower bound
    it holds the lower bound, above the upper bound the largest of its
    values. *)
Lemma sanitize_range (i : RangeInput.t) (raw : option R) :
  RangeInput.min i <= RangeInput.max i -> 0 < RangeInput.step i ->
  RangeInput.min i <= RangeInput.sanitize i raw <= RangeInput.max i
  /\ (forall v, raw = Some v -> v < RangeInput.min i ->
        RangeInput.sanitize i raw = RangeInput.min i)
  /\ (forall v, raw = Some v -> RangeInput.max i < v ->
        RangeInput.sanitize i raw
        = RangeInput.min i
          + IZR (Int_part ((RangeInput.max i - RangeInput.min i)
                           / RangeInput.step i)) * RangeInput.step i).
Proof.
  destruct i as [lo hi st]. cbn [RangeInput.min RangeInput.max RangeInput.step].
  intros Hb Hs. unfold RangeInput.sanitize.
  cbn [RangeInput.min RangeInput.max RangeInput.step].
  destruct (Rlt_dec hi lo) as [C|_]; [lra|].
  set (q := (hi - lo) / st).
  assert (Hq : 0 <= q).
  { unfold q, Rdiv. apply Rmult_le_pos; [lra|].
    apply Rlt_le, Rinv_0_lt_compat, Hs. }
  assert (Eq : q * st = hi - lo) by (unfold q; field; lra).
  pose proof (Int_part_nonneg q Hq) as K0.
  destruct (Int_part_bounds q) as [K1 _].
  assert (In : forall v, lo <= v <= hi ->
            lo <= lo + IZR (Z.min (Int_part ((v - lo) / st + 1 / 2))
                                  (Int_part q)) * st <= hi).
  { intros v Hv.
    assert (Hp : 0 <= (v - lo) / st + 1 / 2).
    { assert (0 <= (v - lo) / st); [|lra]. unfold Rdiv.
      apply Rmult_le_pos; [lra|]. apply Rlt_le, Rinv_0_lt_compat, Hs. }
    pose proof (Int_part_nonneg _ Hp) as P0.
    set (k := Z.min _ _).
    assert (Hk : (0 <= k <= Int_part q)%Z) by (unfold k; lia).
    destruct Hk as [Hk1 Hk2]. apply IZR_le in Hk1, Hk2.
    assert (IZR k * st <= q * st) by (apply Rmult_le_compat_r; lra).
    assert (0 <= IZR k * st) by (apply Rmult_le_pos; lra).
    lra. }
  split; [|split].
  - destruct raw as [v|].
    + destruct (Rlt_dec v lo); [|destruct (Rlt_dec hi v)];
        try destruct (Rlt_dec hi lo); apply In; lra.
    + unfold RangeInput.default.
      cbn [RangeInput.min RangeInput.max RangeInput.step].
      destruct (Rlt_dec hi lo); [lra|].
      destruct (Rlt_dec _ lo); [|destruct (Rlt_dec hi _)];
        try destruct (Rlt_dec hi lo); apply In; lra.
  - intros v -> Hv. destruct (Rlt_dec v lo); [|lra].
    destruct (Rlt_dec hi lo); [lra|].
    replace ((lo - lo) / st + 1 / 2) with (1 / 2) by (field; lra).
    rewrite (Int_part_spec (1 / 2) 0) by lra.
    rewrite Z.min_l by exact K0. lra.
  - intros v -> Hv. destruct (Rlt_dec v lo); [lra|].
    destruct (Rlt_dec hi v); [|lra]. fold q.
    rewrite Z.min_r; [reflexivity|]. apply Int_part_le. lra.
Qed.

Lemma planetSlider_top :
  IZR (Int_part ((3 - 0) / 0.1)) * 0.1 = 3.
Proof.
  rewrite (Int_part_spec ((3 - 0) / 0.1) 30) by lra. lra.
Qed.



End SliderFacts.

(* ================================================================== *)
(** ** The solar system: construction and motion *)

Section SystemFacts.

Import THREE SolarSystem.

Lemma sin_lower a : 0 <= a -> a <= PI -> a - a ^ 3 / 6 <= sin a.
Proof.
  intros H0 H1. pose proof (sin_bound a 0 H0 H1) as [H _].
  unfold sin_approx, sin_term in H. simpl in H. lra.
Qed.

Lemma cos_upper a :
  - PI / 2 <= a -> a <= PI / 2 -> cos a <= 1 - a ^ 2 / 2 + a ^ 4 / 24.
Proof.
  intros H0 H1. pose proof (cos_bound a 0 H0 H1) as [_ H].
  unfold cos_approx, cos_term in H. simpl in H. lra.
Qed.

Lemma sin_small_lower a : 0 < a <= 1 / 10 -> 9 / 10 * a < sin a.
Proof.
  intros Ha. pose proof PI2_1.
  pose proof (sin_lower a ltac:(lra) ltac:(lra)) as H1.
  assert (H2 : a * a <= 1 / 100) by nra.
  assert (H3 : a ^ 3 = a * (a * a)) by ring.
  assert (H4 : a * (a * a) <= a * (1 / 100))
    by (apply Rmult_le_compat_l; lra).
  lra.
Qed.

Lemma cos_small_upper a : 0 < a <= 1 / 10 -> cos a < 1 - 4 / 10 * (a * a).
Proof.
  intros Ha. pose proof PI2_1.
  pose proof (cos_upper a ltac:(lra) ltac:(lra)) as H1.
  assert (H2 : a * a <= 1 / 100) by nra.
  assert (H3 : a ^ 2 = a * a) by ring.
  assert (H4 : a ^ 4 = (a * a) * (a * a)) by ring.
  assert (H5 : (a * a) * (a * a) <= (a * a) * (1 / 100))
    by (apply Rmult_le_compat_l; nra).
  assert (H6 : 0 < a * a) by nra.
  lra.
Qed.

Lemma planets_createPlanet key d rnd s :
  planets (createPlanet key d rnd s)
  = <[key := mkPlanet (mkMesh key (Vector3.mk (distance d) (Fin 0) (Fin 0))
                              (Fin 0))
                      (Fin 0) d (Fin rnd * Math.PI * Fin 2)%js (Fin 1.0)]>
      (planets s).
Proof.
  unfold createPlanet. destruct (String.eqb key "earth"); reflexivity.
Qed.

Lemma controls_createPlanet key d rnd s :
  controls (createPlanet key d rnd s) = controls s
  /\ isPaused (createPlanet key d rnd s) = isPaused s
  /\ globalSpeedMultiplier (createPlanet key d rnd s)
     = globalSpeedMultiplier s.
Proof.
  unfold createPlanet. destruct (String.eqb key "earth"); now repeat split.
Qed.

Lemma init_controls h : forall table rnd,
  controls (init h table rnd) = setupControls h
  /\ isPaused (init h table rnd) = false
  /\ globalSpeedMultiplier (init h table rnd) = Fin 1.0.
Proof.
  intros table rnd. unfold init. cbv zeta.
  set (s0 := createSun _).
  assert (H0 : controls s0 = setupControls h /\ isPaused s0 = false
               /\ globalSpeedMultiplier s0 = Fin 1.0) by now repeat split.
  clearbody s0. revert s0 H0.
  induction table as [|[k d] table IH]; intros s0 H0; [exact H0|].
  cbn [fold_left fst snd]. apply IH.
  destruct (controls_createPlanet k d (rnd k) s0) as (-> & -> & ->).
  exact H0.
Qed.

(** The Earth of the baseline table, as [createPlanet] stores it. *)
Lemma init_earth h rnd :
  planets (init h planetData rnd) !! "earth"
  = Some (mkPlanet (mkMesh "earth" (Vector3.mk (Fin 24) (Fin 0) (Fin 0))
                           (Fin 0))
                   (Fin 0)
                   (mkData "Earth" (Fin 2.0) (Fin 24) (Fin 0.01) (Fin 0.02)
                           0x6b93d6)
                   (Fin (rnd "earth") * Math.PI * Fin 2)%js (Fin 1.0)).
Proof.
  unfold init, planetData. cbv zeta. cbn [fold_left fst snd].
  rewrite !planets_createPlanet.
  rewrite !lookup_insert_ne by discriminate.
  now rewrite lookup_insert_eq.
Qed.

Lemma updatePlanets_planets dt s :
  planets (updatePlanets dt s)
  = updatePlanet (globalSpeedMultiplier s) <$> planets s.
Proof. destruct s as [c p g [m|] pl [ms|] sf]; reflexivity. Qed.

Lemma updatePlanets_controls dt s :
  controls (updatePlanets dt s) = controls s.
Proof. destruct s as [c p g [m|] pl [ms|] sf]; reflexivity. Qed.

Lemma animate_planets dt s :
  isPaused s = false ->
  planets (animate dt s)
  = updatePlanet (globalSpeedMultiplier s) <$> planets s.
Proof.
  intros H. unfold animate. rewrite H. cbn [negb set_controls planets].
  rewrite <- updatePlanets_planets with (dt := dt).
  unfold updateStarField.
  now destruct (starField_rotation_y (updatePlanets dt s)).
Qed.

Lemma animate_controls dt s :
  controls (animate dt s) = OrbitControls.update (controls s).
Proof.
  unfold animate. cbn [set_controls controls]. f_equal.
  destruct (negb (isPaused s)); [|reflexivity].
  unfold updateStarField.
  destruct (starField_rotation_y (updatePlanets dt s));
    apply updatePlanets_controls.
Qed.

Lemma getWorldPosition_Fin th x y z d a sp n r :
  getWorldPosition
    (mkPlanet (mkMesh n (Vector3.mk (Fin x) (Fin y) (Fin z)) r) (Fin th)
              d a sp)
  = Vector3.mk (Fin (cos th * x + sin th * z)) (Fin y)
               (Fin (- sin th * x + cos th * z)).
Proof. reflexivity. Qed.

End SystemFacts.

Section ScenarioClaims.

Import THREE SolarSystem.

Lemma Rabs_le_inv x e : Rabs x <= e -> - e <= x <= e.
Proof. intros H. unfold Rabs in H. destruct (Rcase_abs x); lra. Qed.

Lemma scenario_body :
  planets scenario !! "body"
  = Some (mkPlanet
            (mkMesh "body" (Vector3.mk (Fin 24) (Fin 0) (Fin 0))
                    (Fin (0 + 0.02 * (2 * 1.0))))
            (Fin (0 * PI * 2 + 0.01 * (2 * 1.0)))
            (mkData "Body" (Fin 2) (Fin 24) (Fin 0.01) (Fin 0.02) 0x6b93d6)
            (Fin (0 * PI * 2 + 0.01 * (2 * 1.0))) (Fin 1.0)).
Proof.
  unfold scenario. rewrite updatePlanets_planets, lookup_fmap.
  unfold onGlobalSpeedInput. cbn [set_globalSpeedMultiplier planets
                                  globalSpeedMultiplier].
  unfold init, one_body. cbv zeta. cbn [fold_left fst snd].
  rewrite planets_createPlanet, lookup_insert_eq. reflexivity.
Qed.

(** C3, as amended.  In the scenario (one body at orbital radius 24, rate
    0.01, starting angle 0, global multiplier 2, individual multiplier 1)
    one advance leaves the orbital angle at 0.02.  The advance writes the
    angle into the rotation of the body's orbit group and does not touch
    the body's own position: the local position stays (24, 0, 0), and the
    world position, the local one turned by the angle about the vertical
    axis, is (24 cos 0.02, 0, - 24 sin 0.02). *)
Theorem C3_single_advance_of_the_scenario :
  exists p,
    planets scenario !! "body" = Some p
    /\ angle p = Fin 0.02
    /\ orbitGroup_rotation_y p = Fin 0.02
    /\ position (mesh p) = Vector3.mk (Fin 24) (Fin 0) (Fin 0)
    /\ getWorldPosition p
       = Vector3.mk (Fin (24 * cos 0.02)) (Fin 0) (Fin (- (24 * sin 0.02))).
Proof.
  eexists. split; [apply scenario_body|].
  replace (0 * PI * 2 + 0.01 * (2 * 1.0)) with 0.02 by lra.
  split; [reflexivity|]. split; [reflexivity|]. split; [reflexivity|].
  rewrite getWorldPosition_Fin. f_equal; apply Fin_eq; lra.
Qed.

(** C3, counterexample: after the advance of the scenario neither the
    body's local position nor its world position has x and z within 1e-9
    of (24 cos 0.02, 24 sin 0.02): the local position is still (24, 0, 0)
    and the world z is - 24 sin 0.02. *)
Lemma C3_counterexample :
  exists p,
    planets scenario !! "body" = Some p
    /\ angle p = Fin 0.02
    /\ ~ (close_to (Vector3.x (position (mesh p))) (24 * cos 0.02) 1e-9
          /\ close_to (Vector3.z (position (mesh p))) (24 * sin 0.02) 1e-9)
    /\ ~ (close_to (Vector3.x (getWorldPosition p)) (24 * cos 0.02) 1e-9
          /\ close_to (Vector3.z (getWorldPosition p)) (24 * sin 0.02) 1e-9).
Proof.
  eexists. split; [apply scenario_body|].
  replace (0 * PI * 2 + 0.01 * (2 * 1.0)) with 0.02 by lra.
  pose proof (sin_small_lower 0.02 ltac:(lra)) as Hs.
  pose proof (cos_small_upper 0.02 ltac:(lra)) as Hc.
  split; [reflexivity|]. split.
  - unfold close_to. cbn [position mesh Vector3.x Vector3.z].
    intros [H _]. apply Rabs_le_inv in H. lra.
  - rewrite getWorldPosition_Fin. unfold close_to.
    cbn [Vector3.x Vector3.z]. intros [_ H]. apply Rabs_le_inv in H. lra.
Qed.

(** C9, witness: three paused frames of the baseline system. *)
Lemma C9_pause_freezes_orbits_witness :
  let s := togglePause (init (Fin 800) planetData (fun _ => 0)) in
  let deltas := [Fin 0.016; Fin 0.016; Fin 0.017] in
  planets (frames deltas s) = planets s
  /\ moons (frames deltas s) = moons s
  /\ sun (frames deltas s) = sun s
  /\ isPaused (frames deltas s) = true
  /\ controls (frames deltas s)
     = Nat.iter (length deltas) OrbitControls.update (controls s).
Proof.
  intros s deltas. apply (C9_pause_freezes_orbits deltas s).
  unfold s, togglePause. cbn [set_isPaused isPaused].
  destruct (init_controls (Fin 800) planetData (fun _ => 0)) as (_ & -> & _).
  reflexivity.
Defined.

(** C10, witness: a frame of the baseline system after the Earth's slider
    was moved to 3. *)
Lemma C10_moon_record_ignores_individual_speed_witness :
  let s := init (Fin 800) planetData (fun _ => 0) in
  moons (animate (Fin 0.016) (onPlanetSpeedInput "earth" (Fin 3) s))
  = moons (animate (Fin 0.016) s).
Proof.
  intros s.
  apply (C10_moon_record_ignores_individual_speed (Fin 0.016) "earth" (Fin 3) s).
  unfold s.
  destruct (init_controls (Fin 800) planetData (fun _ => 0)) as (_ & H & _).
  exact H.
Defined.

End ScenarioClaims.

(* ================================================================== *)
(** ** The focus transition *)

Section FocusClaims.

Import THREE SolarSystem.

Lemma startFocus_inv objectName t0 s0 f :
  startFocus objectName t0 s0 = Some f ->
  duration f = Fin 2000 /\ startTime f = t0
  /\ startPosition f = camera_position s0
  /\ exists dist,
       endPosition f
       = Vector3.add (targetPosition f)
                     (Vector3.mk dist (dist * Fin 0.5)%js dist)
       /\ ((objectName = "sun" /\ targetPosition f = Vector3.zero
            /\ dist = Fin 15)
           \/ (objectName <> "sun"
               /\ exists planet,
                    planets s0 !! objectName = Some planet
                    /\ targetPosition f = getWorldPosition planet
                    /\ dist = (radius (data planet) * Fin 8)%js)).
Proof.
  unfold startFocus.
  destruct (String.eqb objectName "sun") eqn:E.
  - apply String.eqb_eq in E. intros [= <-]. cbn.
    repeat split. exists (Fin 15). split; [reflexivity|]. now left.
  - apply String.eqb_neq in E.
    destruct (planets s0 !! objectName) as [planet|] eqn:L; [|discriminate].
    intros [= <-]. cbn. repeat split.
    exists (radius (data planet) * Fin 8)%js. split; [reflexivity|].
    right. split; [exact E|]. now exists planet.
Qed.

Lemma progress_Fin f now :
  duration f = Fin 2000 ->
  progress_of f now = Fin (Rmin ((now - startTime f) / 2000) 1).
Proof.
  intros H. unfold progress_of. rewrite H. cbv zeta.
  cbn [JsNum.sub JsNum.neg JsNum.add]. rewrite div_Fin by lra. reflexivity.
Qed.

Lemma eased_Fin p : p <= 1 -> eased_of (Fin p) = Fin (1 - (1 - p) ^ 3).
Proof.
  intros Hp. unfold eased_of. cbn [JsNum.sub JsNum.neg JsNum.add].
  unfold Math.pow. destruct (Req_dec_T 3 0) as [H|_]; [lra|].
  destruct (Req_dec_T p 1) as [->|Hne].
  - rewrite Rcase_zero by lra. destruct (Rlt_dec 0 3); [|lra].
    cbn. apply Fin_eq. ring.
  - rewrite Rcase_pos by lra. cbn. apply Fin_eq.
    replace 3 with (INR 3) at 1 by (simpl; lra).
    rewrite Rpower_pow by lra. ring.
Qed.

Lemma eased_of_progress f now :
  duration f = Fin 2000 ->
  eased_of (progress_of f now)
  = Fin (1 - (1 - Rmin ((now - startTime f) / 2000) 1) ^ 3).
Proof.
  intros H. rewrite progress_Fin by exact H. apply eased_Fin, Rmin_r.
Qed.

(** C6, as amended.  Every step of a focus transition computes
    progress = min(elapsed / 2000, 1) and eased = 1 - (1 - progress)^3,
    sets the camera position to the interpolation between the captured
    start and the computed end at the fraction eased, moves the
    controller's target from its current value toward the destination by
    [lerp] at the same fraction eased, and then calls the controller's
    [update] (which adds the pan offset to the target).  It asks for
    another frame exactly when progress is below 1. *)
Theorem C6_focus_step_interpolation
  (objectName : string) (t0 now : R) (s0 s : SolarSystem.t) (f : Focus) :
  startFocus objectName t0 s0 = Some f ->
  let progress := Rmin ((now - t0) / 2000) 1 in
  let eased := Fin (1 - (1 - progress) ^ 3) in
  let c := controls s in
  animateCamera f now s
  = (set_controls
       (OrbitControls.update
          (OrbitControls.set_target
             (Vector3.lerp (OrbitControls.target c) (targetPosition f) eased)
             (OrbitControls.set_camera
                (OrbitControls.PerspectiveCamera.set_position
                   (Vector3.lerpVectors (startPosition f) (endPosition f)
                                        eased)
                   (OrbitControls.camera c)) c))) s,
     if Rlt_dec progress 1 then true else false)
  /\ OrbitControls.target (controls (fst (animateCamera f now s)))
     = Vector3.add
         (Vector3.lerp (OrbitControls.target c) (targetPosition f) eased)
         (OrbitControls.panOffset c).
Proof.
  intros Hf progress eased c.
  destruct (startFocus_inv _ _ _ _ Hf) as (Hd & Ht & _).
  assert (E : animateCamera f now s
  = (set_controls
       (OrbitControls.update
          (OrbitControls.set_target
             (Vector3.lerp (OrbitControls.target c) (targetPosition f) eased)
             (OrbitControls.set_camera
                (OrbitControls.PerspectiveCamera.set_position
                   (Vector3.lerpVectors (startPosition f) (endPosition f)
                                        eased)
                   (OrbitControls.camera c)) c))) s,
     if Rlt_dec progress 1 then true else false)).
  { unfold animateCamera. cbv zeta.
    rewrite eased_of_progress, progress_Fin by exact Hd. rewrite Ht.
    reflexivity. }
  split; [exact E|]. rewrite E. cbn [fst set_controls controls].
  rewrite update_target. reflexivity.
Qed.

End FocusClaims.

Section FocusConvergence.

Import THREE SolarSystem.

(** The controller that [setupControls] builds is a fixed point of
    [update]: nothing is pending and the camera is inside the clamps. *)
Lemma update_idle h :
  OrbitControls.update (idle_controls h) = idle_controls h.
Proof.
  set (c := idle_controls h).
  destruct (update_fixed c 0 50 120 0 0 0 eq_refl eq_refl eq_refl eq_refl
              eq_refl eq_refl eq_refl eq_refl 130) as (Hp & Ht & Hs).
  { replace ((0 - 0) * (0 - 0) + (50 - 0) * (50 - 0) + (120 - 0) * (120 - 0))
      with 16900 by ring. now rewrite sqrt_16900. }
  { lra. }
  { cbn. lra. }
  { cbn. lra. }
  { apply acos_in_clamp. lra. }
  destruct (update_config c) as (C1 & C2 & C3 & C4 & C5 & C6 & C7 & C8).
  destruct (update_gesture c) as (G1 & G2 & G3 & G4 & G5 & G6 & G7).
  destruct (update_scratch c) as (S1 & S2 & S3 & S4 & S5 & S6 & S7).
  pose proof (update_scale c) as Hsc.
  assert (Hpan : OrbitControls.panOffset (OrbitControls.update c)
                 = Vector3.zero).
  { rewrite update_panOffset. unfold c, idle_controls.
    cbn [OrbitControls.enableDamping OrbitControls.panOffset
         OrbitControls.dampingFactor].
    unfold Vector3.multiplyScalar, Vector3.zero. cbn.
    f_equal; apply Fin_eq; lra. }
  assert (Hsd : OrbitControls.sphericalDelta (OrbitControls.update c)
                = Spherical.mk (Fin 0) (Fin 0) (Fin 0)).
  { rewrite update_sphericalDelta_damped by reflexivity. cbn.
    f_equal; apply Fin_eq; lra. }
  apply controls_ext;
    first [ exact Ht | exact Hs | exact C1 | exact C2 | exact C3 | exact C4
          | exact C5 | exact C6 | exact C7 | exact C8 | exact G1 | exact G2
          | exact G3 | exact G4 | exact G5 | exact S1 | exact S2 | exact S3
          | exact S4 | exact S5 | exact S6 | exact S7 | exact Hsc | exact Hpan
          | exact Hsd
          | apply camera_ext; [exact Hp | exact G6 | exact G7] ].
Qed.

Lemma focus_radius d : 0 < d ->
  1.5 * d = sqrt (d * d + d * 0.5 * (d * 0.5) + d * d).
Proof.
  intros Hd. symmetry. apply sqrt_lem_1; [nra | lra | lra].
Qed.

(** The last step of a transition, on a controller with nothing pending. *)
Lemma animateCamera_final f now s tx ty tz d sx sy sz cx cy cz :
  duration f = Fin 2000 ->
  2000 <= now - startTime f ->
  targetPosition f = Vector3.mk (Fin tx) (Fin ty) (Fin tz) ->
  endPosition f
  = Vector3.add (targetPosition f)
                (Vector3.mk (Fin d) (Fin d * Fin 0.5)%js (Fin d)) ->
  0 < d ->
  startPosition f = Vector3.mk (Fin sx) (Fin sy) (Fin sz) ->
  OrbitControls.target (controls s) = Vector3.mk (Fin cx) (Fin cy) (Fin cz) ->
  OrbitControls.PerspectiveCamera.up (OrbitControls.camera (controls s)) = up0 ->
  OrbitControls.autoRotate (controls s) = false ->
  Spherical.phi (OrbitControls.sphericalDelta (controls s)) = Fin 0 ->
  Spherical.theta (OrbitControls.sphericalDelta (controls s)) = Fin 0 ->
  OrbitControls.panOffset (controls s) = Vector3.zero ->
  OrbitControls.scale (controls s) = Fin 1 ->
  JsNum.le (OrbitControls.minDistance (controls s)) (Fin (1.5 * d)) ->
  JsNum.le (Fin (1.5 * d)) (OrbitControls.maxDistance (controls s)) ->
  snd (animateCamera f now s) = false
  /\ camera_position (fst (animateCamera f now s)) = endPosition f
  /\ OrbitControls.target (controls (fst (animateCamera f now s)))
     = targetPosition f.
Proof.
  intros Hd Hel Htp Hend Hdpos Hsp Hct Hup Har Hphi Hth Hpan Hsc Hlo Hhi.
  unfold animateCamera. cbv zeta. cbn [fst snd].
  rewrite eased_of_progress, progress_Fin by exact Hd.
  rewrite Rmin_right
    by (apply Rmult_le_reg_r with 2000; [lra|]; unfold Rdiv;
        rewrite Rmult_assoc, Rinv_l by lra; lra).
  replace (1 - (1 - 1) ^ 3) with 1 by ring.
  split. { cbn. destruct (Rlt_dec 1 1); [lra | reflexivity]. }
  unfold camera_position. cbn [set_controls controls].
  match goal with |- context [OrbitControls.update ?c0] => set (c' := c0) end.
  assert (Ep : OrbitControls.PerspectiveCamera.position (OrbitControls.camera c')
               = Vector3.mk (Fin (tx + d)) (Fin (ty + d * 0.5)) (Fin (tz + d))).
  { unfold c'. oc_simpl. rewrite Hend, Hsp, Htp.
    unfold Vector3.lerpVectors, Vector3.add. cbn.
    f_equal; apply Fin_eq; ring. }
  assert (Et : OrbitControls.target c'
               = Vector3.mk (Fin tx) (Fin ty) (Fin tz)).
  { unfold c'. oc_simpl. rewrite Htp, Hct. unfold Vector3.lerp. cbn.
    f_equal; apply Fin_eq; ring. }
  destruct (update_fixed c' (tx + d) (ty + d * 0.5) (tz + d) tx ty tz
              Hup Ep Et Har Hphi Hth Hpan Hsc (1.5 * d)) as (Rp & Rt & _).
  { rewrite (focus_radius d Hdpos). f_equal. ring. }
  { lra. }
  { exact Hlo. }
  { exact Hhi. }
  { replace ((ty + d * 0.5 - ty) / (1.5 * d)) with (1 / 3).
    - apply acos_in_clamp. lra.
    - replace 0.5 with (1 / 2) by lra. replace 1.5 with (3 / 2) by lra.
      field. lra. }
  rewrite Rp, Rt, Hend, Htp. split; reflexivity.
Qed.


End FocusConvergence.

Section FocusRuns.

Import THREE SolarSystem.

Lemma baseline_controls : controls baseline = idle_controls (Fin 800).
Proof.
  unfold baseline.
  destruct (init_controls (Fin 800) planetData (fun _ => 0)) as (-> & _).
  apply setupControls_eq.
Qed.

Lemma startFocus_earth : startFocus "earth" 0 baseline = Some earth_focus.
Proof.
  unfold startFocus, camera_position. rewrite baseline_controls.
  unfold baseline. rewrite init_earth. reflexivity.
Qed.

Lemma animateCamera_target f now s :
  duration f = Fin 2000 ->
  OrbitControls.target (controls (fst (animateCamera f now s)))
  = Vector3.add
      (Vector3.lerp (OrbitControls.target (controls s)) (targetPosition f)
         (Fin (1 - (1 - Rmin ((now - startTime f) / 2000) 1) ^ 3)))
      (OrbitControls.panOffset (controls s)).
Proof.
  intros Hd. unfold animateCamera. cbv zeta. cbn [fst set_controls controls].
  rewrite eased_of_progress by exact Hd. rewrite update_target. reflexivity.
Qed.

(** C6, witness. *)
Lemma C6_focus_step_interpolation_witness :
  OrbitControls.target (controls (fst (animateCamera earth_focus 1000 baseline)))
  = Vector3.add
      (Vector3.lerp (OrbitControls.target (controls baseline))
         (targetPosition earth_focus)
         (Fin (1 - (1 - Rmin ((1000 - 0) / 2000) 1) ^ 3)))
      (OrbitControls.panOffset (controls baseline)).
Proof.
  exact (proj2 (C6_focus_step_interpolation "earth" 0 1000 baseline baseline
                  earth_focus startFocus_earth)).
Defined.

(** C6, counterexample: half way through the transition toward the Earth
    (progress 1/2, eased 7/8) the target, which started at the origin, has
    x = 21 = 24 * 7/8; an interpolation at the fraction progress would put
    it at x = 12. *)
Lemma C6_counterexample :
  let c := controls baseline in
  let c' := controls (fst (animateCamera earth_focus 1000 baseline)) in
  startFocus "earth" 0 baseline = Some earth_focus
  /\ progress_of earth_focus 1000 = Fin (1 / 2)
  /\ OrbitControls.target c' = Vector3.mk (Fin 21) (Fin 0) (Fin 0)
  /\ Vector3.add
       (Vector3.lerp (OrbitControls.target c) (targetPosition earth_focus)
                     (progress_of earth_focus 1000))
       (OrbitControls.panOffset c)
     = Vector3.mk (Fin 12) (Fin 0) (Fin 0)
  /\ OrbitControls.target c'
     <> Vector3.add
          (Vector3.lerp (OrbitControls.target c) (targetPosition earth_focus)
                        (progress_of earth_focus 1000))
          (OrbitControls.panOffset c).
Proof.
  intros c c'.
  assert (Hp : progress_of earth_focus 1000 = Fin (1 / 2)).
  { rewrite progress_Fin by reflexivity. apply Fin_eq. cbn [startTime earth_focus].
    rewrite Rmin_left; lra. }
  assert (Ht : OrbitControls.target c' = Vector3.mk (Fin 21) (Fin 0) (Fin 0)).
  { unfold c'. rewrite animateCamera_target by reflexivity.
    rewrite baseline_controls. cbn [startTime earth_focus].
    replace (Rmin ((1000 - 0) / 2000) 1) with (1 / 2)
      by (rewrite Rmin_left; lra).
    unfold Vector3.lerp, Vector3.add. cbn. rewrite cos_0, sin_0.
    f_equal; apply Fin_eq; lra. }
  assert (Hl : Vector3.add
       (Vector3.lerp (OrbitControls.target c) (targetPosition earth_focus)
                     (progress_of earth_focus 1000))
       (OrbitControls.panOffset c)
     = Vector3.mk (Fin 12) (Fin 0) (Fin 0)).
  { rewrite Hp. unfold c. rewrite baseline_controls.
    unfold Vector3.lerp, Vector3.add. cbn. rewrite cos_0, sin_0.
    f_equal; apply Fin_eq; lra. }
  split; [exact startFocus_earth|]. split; [exact Hp|].
  split; [exact Ht|]. split; [exact Hl|].
  rewrite Ht, Hl. intros [= H]. lra.
Qed.


(** The first step, at time 0, leaves the controller as it was. *)
Lemma first_step_controls :
  controls (fst (animateCamera earth_focus 0 baseline))
  = idle_controls (Fin 800).
Proof.
  unfold animateCamera. cbv zeta. cbn [fst set_controls controls].
  rewrite eased_of_progress by reflexivity. cbn [startTime earth_focus].
  replace (Rmin ((0 - 0) / 2000) 1) with 0 by (rewrite Rmin_left; lra).
  rewrite baseline_controls.
  transitivity (OrbitControls.update (idle_controls (Fin 800)));
    [|apply update_idle].
  f_equal. unfold idle_controls, OrbitControls.set_target,
    OrbitControls.set_camera, OrbitControls.PerspectiveCamera.set_position.
  oc_simpl. unfold Vector3.lerpVectors, Vector3.lerp. cbn.
  rewrite cos_0, sin_0.
  f_equal; [f_equal|]; f_equal; apply Fin_eq; lra.
Qed.

Lemma first_step_again : snd (animateCamera earth_focus 0 baseline) = true.
Proof.
  unfold animateCamera. cbv zeta. cbn [snd].
  rewrite progress_Fin by reflexivity. cbn [startTime earth_focus].
  rewrite Rmin_left by lra. cbn. destruct (Rlt_dec _ _); [reflexivity|lra].
Qed.

Lemma animateCamera_rest f now s :
  planets (fst (animateCamera f now s)) = planets s
  /\ isPaused (fst (animateCamera f now s)) = isPaused s
  /\ globalSpeedMultiplier (fst (animateCamera f now s))
     = globalSpeedMultiplier s.
Proof. now repeat split. Qed.

Lemma earth_moved_position :
  getWorldPosition earth_moved
  = Vector3.mk (Fin (24 * cos 0.01)) (Fin 0) (Fin (- (24 * sin 0.01))).
Proof.
  unfold earth_moved, updatePlanet, rotate_mesh. cbn.
  replace (0 * PI * 2 + 0.01 * (1.0 * 1.0)) with 0.01 by lra.
  rewrite getWorldPosition_Fin. f_equal; apply Fin_eq; lra.
Qed.

(** The step at 2000 ms, on any state whose controller is the idle one. *)
Lemma last_step_on_idle s :
  controls s = idle_controls (Fin 800) ->
  snd (animateCamera earth_focus 2000 s) = false
  /\ OrbitControls.target (controls (fst (animateCamera earth_focus 2000 s)))
     = Vector3.mk (Fin 24) (Fin 0) (Fin 0).
Proof.
  intros C.
  destruct (animateCamera_final earth_focus 2000 s
              (cos 0 * 24 + sin 0 * 0) 0 (- sin 0 * 24 + cos 0 * 0) (2.0 * 8)
              0 50 120 0 0 0) as (F1 & _ & F3);
    try (rewrite C; reflexivity); try reflexivity;
    try (cbn [startTime earth_focus]; lra);
    try (rewrite C; cbn; lra).
  split; [exact F1|]. rewrite F3. cbn [targetPosition earth_focus].
  rewrite cos_0, sin_0. f_equal; apply Fin_eq; lra.
Qed.


End FocusRuns.

(* ================================================================== *)
(** * Further properties of the camera controller *)

Section GestureFacts.

Import THREE OrbitControls.

(** X1. A controller that is switched off ([enabled] false) ignores
    every input event: whatever sequence of mouse, wheel and touch
    events arrives, the state is the one before. (A frame of the
    animation loop is not an input event: [update] does not read
    [enabled].) *)
Theorem disabled_controller_ignores_input (es : list Event) (c : t) :
  enabled c = false ->
  Forall (fun e => e <> Frame) es ->
  run es c = c.
Proof.
  intros He Hes. induction Hes as [|e es Hne _ IH]; [reflexivity|].
  change (run (e :: es) c) with (run es (dispatch e c)).
  assert (E : dispatch e c = c).
  { destruct e; try (now elim Hne); cbn [dispatch];
      unfold onMouseDown, onMouseMove, onMouseUp, onMouseWheel, onTouchStart,
        onTouchMove, onTouchEnd; rewrite He; cbn [negb];
      try destruct (listening c); reflexivity. }
  rewrite E. exact IH.
Qed.

Lemma disabled_controller_ignores_input_witness :
  run [MouseDown 0 10 10; MouseMove 50 40; MouseUp; MouseWheel 120;
       TouchStart [mkTouch 1 2]; TouchMove [mkTouch 5 9]; TouchEnd]
      (set_enabled false (idle_controls (Fin 800)))
  = set_enabled false (idle_controls (Fin 800)).
Proof.
  apply disabled_controller_ignores_input; [reflexivity|].
  repeat constructor; discriminate.
Defined.

(** X2. A click, that is a mouse-down followed by a mouse-up with no
    move in between, never moves the camera: whatever the button and the
    state, it leaves the camera, the target, the spherical coordinates,
    the pending rotation and pan and the zoom scale as they were; and a
    mouse move that follows the click is ignored. *)
Theorem click_leaves_the_camera_alone (b : Z) (x y : R) (c : t) :
  let c' := run [MouseDown b x y; MouseUp] c in
  camera c' = camera c
  /\ target c' = target c
  /\ spherical c' = spherical c
  /\ sphericalDelta c' = sphericalDelta c
  /\ panOffset c' = panOffset c
  /\ scale c' = scale c
  /\ forall px py, dispatch (MouseMove px py) c' = c'.
Proof.
  cbv zeta. unfold run. cbn [fold_left dispatch]. unfold onMouseDown.
  destruct (enabled c) eqn:He; cbn [negb].
  - assert (D : forall c0, enabled c0 = true ->
       let c1 := if listening c0 then onMouseUp c0 else c0 in
       camera c1 = camera c0 /\ target c1 = target c0
       /\ spherical c1 = spherical c0 /\ sphericalDelta c1 = sphericalDelta c0
       /\ panOffset c1 = panOffset c0 /\ scale c1 = scale c0
       /\ listening c1 = false).
    { intros c0 H0. cbv zeta. unfold onMouseUp. rewrite H0. cbn [negb].
      destruct (listening c0) eqn:L; repeat split; try reflexivity; exact L. }
    match goal with
    | |- context [if listening ?c0 then onMouseUp ?c0 else ?c0] =>
        assert (H0 : enabled c0 = true
                     /\ camera c0 = camera c /\ target c0 = target c
                     /\ spherical c0 = spherical c
                     /\ sphericalDelta c0 = sphericalDelta c
                     /\ panOffset c0 = panOffset c /\ scale c0 = scale c);
        [| generalize dependent c0 ]
    end.
    { destruct b as [|[p|p|]|p]; try destruct p; oc_simpl;
        destruct (currentState c); oc_simpl; cbn [negb STATE_eqb]; oc_simpl;
        repeat split; first [exact He | reflexivity]. }
    intros c0 (E0 & B1 & B2 & B3 & B4 & B5 & B6).
    destruct (D c0 E0) as (A1 & A2 & A3 & A4 & A5 & A6 & A7).
    cbv zeta in A1, A2, A3, A4, A5, A6, A7.
    rewrite A1, A2, A3, A4, A5, A6.
    repeat split; try assumption.
    intros px py. cbn [dispatch]. rewrite A7. reflexivity.
  - assert (U : (if listening c then onMouseUp c else c) = c).
    { unfold onMouseUp. rewrite He. now destruct (listening c). }
    rewrite U. repeat split; try reflexivity.
    intros px py. cbn [dispatch]. unfold onMouseMove. rewrite He.
    now destruct (listening c).
Qed.

End GestureFacts.

Section DistanceFacts.

Import THREE OrbitControls.

Lemma finite3_inv v :
  finite3 v -> exists x y z, v = Vector3.mk (Fin x) (Fin y) (Fin z).
Proof.
  destruct v as [[x| | |] [y| | |] [z| | |]]; intros (H1 & H2 & H3);
    try contradiction. now exists x, y, z.
Qed.

Lemma update_offset_default_up c px py pz tx ty tz :
  PerspectiveCamera.up (camera c) = up0 ->
  PerspectiveCamera.position (camera c) = Vector3.mk (Fin px) (Fin py) (Fin pz) ->
  target c = Vector3.mk (Fin tx) (Fin ty) (Fin tz) ->
  update_offset c
  = Vector3.mk (Fin (px - tx)) (Fin (py - ty)) (Fin (pz - tz)).
Proof.
  intros Hup Hp Ht. unfold update_offset. rewrite Hup, Hp, Ht.
  change (Vector3.mk (Fin 0) (Fin 1) (Fin 0)) with up0.
  rewrite quat_of_default_up. unfold Vector3.sub. cbn.
  rewrite applyQuaternion_id. reflexivity.
Qed.

Lemma radius_setFromVector3 x y z :
  Spherical.radius
    (Spherical.setFromVector3 (Vector3.mk (Fin x) (Fin y) (Fin z)))
  = Fin (sqrt (x * x + y * y + z * z)).
Proof.
  unfold Spherical.setFromVector3, Spherical.setFromCartesianCoords.
  cbn [Vector3.x Vector3.y Vector3.z]. rewrite sqrt_sum_squares.
  destruct (JsNum.is_zero _); reflexivity.
Qed.

Lemma distanceTo_Fin px py pz tx ty tz :
  Vector3.distanceTo (Vector3.mk (Fin px) (Fin py) (Fin pz))
                     (Vector3.mk (Fin tx) (Fin ty) (Fin tz))
  = Fin (sqrt ((px - tx) * (px - tx) + (py - ty) * (py - ty)
               + (pz - tz) * (pz - tz))).
Proof.
  unfold Vector3.distanceTo, Vector3.distanceToSquared.
  cbn [Vector3.x Vector3.y Vector3.z JsNum.sub JsNum.neg JsNum.add].
  apply sqrt_sum_squares.
Qed.

(** The vector of three.js for the spherical coordinates (r, phi, theta)
    has length r. *)
Lemma sqrt_spherical r p t :
  0 <= r ->
  sqrt (sin p * r * sin t * (sin p * r * sin t) + cos p * r * (cos p * r)
        + sin p * r * cos t * (sin p * r * cos t)) = r.
Proof.
  intros Hr.
  pose proof (sin2_cos2 p) as Ep. pose proof (sin2_cos2 t) as Et.
  unfold Rsqr in Ep, Et.
  replace (_ + _) with
    (r * r * (sin p * sin p * (sin t * sin t + cos t * cos t)
              + cos p * cos p)) by ring.
  rewrite Et, Rmult_1_r, Ep, Rmult_1_r. now apply sqrt_square.
Qed.

(** Before [update]: the radius it reads is the distance to the target. *)
Lemma radius_is_targetDistance c :
  Good c -> PerspectiveCamera.up (camera c) = up0 ->
  Spherical.radius (Spherical.setFromVector3 (update_offset c))
  = targetDistance c.
Proof.
  intros G Hup.
  destruct (finite3_inv _ (good_position _ G)) as (px & py & pz & Hp).
  destruct (finite3_inv _ (good_target _ G)) as (tx & ty & tz & Ht).
  rewrite (update_offset_default_up c px py pz tx ty tz Hup Hp Ht).
  unfold targetDistance. rewrite Hp, Ht, radius_setFromVector3, distanceTo_Fin.
  reflexivity.
Qed.

(** After [update]: the camera is at the distance [spherical.radius] from
    the target, provided the radius is not negative. *)
Lemma targetDistance_is_radius c :
  Good c -> PerspectiveCamera.up (camera c) = up0 ->
  JsNum.le (Fin 0) (minDistance c) ->
  targetDistance (update c) = Spherical.radius (spherical (update c)).
Proof.
  intros G Hup Hmin.
  destruct (finite_update_spherical c G) as (Sr & Sp & St).
  destruct (update_clamped c G) as (_ & _ & Rlo & _).
  destruct (update_config c) as (C1 & _). rewrite C1 in Rlo.
  assert (Ht : finite3 (target (update c))).
  { rewrite update_target. apply finite3_add; apply G. }
  unfold targetDistance. rewrite update_position, Hup.
  change (Vector3.mk (Fin 0) (Fin 1) (Fin 0)) with up0.
  rewrite quat_of_default_up.
  revert Sr Sp St Rlo Ht.
  generalize (target (update c)). generalize (spherical (update c)).
  intros [r p t] T. cbn [Spherical.radius Spherical.phi Spherical.theta].
  intros Sr Sp St Rlo Ht.
  destruct (finite3_inv _ Ht) as (tx & ty & tz & ->).
  apply finite_inv in Sr as [r' ->]. apply finite_inv in Sp as [p' ->].
  apply finite_inv in St as [t' ->].
  assert (Hr : 0 <= r').
  { revert Hmin Rlo. destruct (minDistance c); cbn; try tauto. lra. }
  unfold setFromSpherical, Vector3.setFromSphericalCoords.
  cbn [Spherical.radius Spherical.phi Spherical.theta Math.sin Math.cos
       JsNum.mul].
  rewrite applyQuaternion_id_inv. unfold Vector3.add.
  cbn [Vector3.x Vector3.y Vector3.z JsNum.add].
  rewrite distanceTo_Fin. apply Fin_eq.
  etransitivity; [|apply (sqrt_spherical r' p' t' Hr)]. f_equal. ring.
Qed.

(** X3. What [update] does to the distance between the camera and its
    target: the distance is multiplied by [scale] and the product is
    clamped between [minDistance] and [maxDistance]. In particular the
    camera is never closer to the target than [minDistance] nor farther
    than [maxDistance] once [update] has run. *)
Theorem update_scales_then_clamps_the_distance (c : t) :
  Good c -> PerspectiveCamera.up (camera c) = up0 ->
  JsNum.le (Fin 0) (minDistance c) ->
  targetDistance (update c)
  = Math.max (minDistance c)
      (Math.min (maxDistance c) (targetDistance c * scale c)%js)
  /\ JsNum.le (minDistance c) (targetDistance (update c))
  /\ JsNum.le (targetDistance (update c)) (maxDistance c).
Proof.
  intros G Hup Hmin.
  rewrite (targetDistance_is_radius c G Hup Hmin).
  destruct (update_clamped c G) as (_ & _ & Rlo & Rhi).
  destruct (update_config c) as (C1 & C2 & _). rewrite C1 in Rlo.
  rewrite C2 in Rhi.
  split; [|split; [exact Rlo | exact Rhi]].
  rewrite update_radius, (radius_is_targetDistance c G Hup). reflexivity.
Qed.

Lemma update_scales_then_clamps_the_distance_witness :
  targetDistance (update (idle_controls (Fin 800)))
  = Math.max (Fin 10) (Math.min (Fin 400)
      (targetDistance (idle_controls (Fin 800)) * Fin 1)%js)
  /\ JsNum.le (Fin 10) (targetDistance (update (idle_controls (Fin 800))))
  /\ JsNum.le (targetDistance (update (idle_controls (Fin 800)))) (Fin 400).
Proof.
  apply (update_scales_then_clamps_the_distance (idle_controls (Fin 800))).
  - apply Good_idle. lra.
  - reflexivity.
  - cbn. lra.
Defined.

Lemma targetDistance_nonneg c :
  Good c -> exists d, targetDistance c = Fin d /\ 0 <= d.
Proof.
  intros G.
  destruct (finite3_inv _ (good_position _ G)) as (px & py & pz & Hp).
  destruct (finite3_inv _ (good_target _ G)) as (tx & ty & tz & Ht).
  unfold targetDistance. rewrite Hp, Ht, distanceTo_Fin.
  eexists. split; [reflexivity | apply sqrt_pos].
Qed.

Lemma le_Fin_trans a b M : a <= b -> JsNum.le (Fin b) M -> JsNum.le (Fin a) M.
Proof. destruct M; cbn; try tauto. lra. Qed.

Lemma getZoomScale_value : getZoomScale = Fin 0.95.
Proof.
  unfold getZoomScale. rewrite Math_pow_pos by lra.
  apply Fin_eq, Rpower_1. lra.
Qed.

(** The state [onMouseWheel] hands to [update]. *)
Lemma onMouseWheel_eq dy c :
  enabled c = true -> scale c = Fin 1 ->
  onMouseWheel dy c
  = update (if Rlt_dec dy 0 then dollyOut getZoomScale c
            else if Rlt_dec 0 dy then dollyIn getZoomScale c else c)
  /\ forall c1,
       c1 = (if Rlt_dec dy 0 then dollyOut getZoomScale c
             else if Rlt_dec 0 dy then dollyIn getZoomScale c else c) ->
       camera c1 = camera c /\ target c1 = target c
       /\ minDistance c1 = minDistance c /\ maxDistance c1 = maxDistance c
       /\ enabled c1 = true /\ scale c1 = Fin (wheel_factor dy).
Proof.
  intros He Hs. split.
  - unfold onMouseWheel. rewrite He. cbn [negb JsNum.ltb JsNum.gtb].
    destruct (Rlt_dec dy 0); [reflexivity|]. destruct (Rlt_dec 0 dy); reflexivity.
  - intros c1 ->. unfold wheel_factor.
    destruct (Rlt_dec dy 0); [|destruct (Rlt_dec 0 dy)];
      unfold dollyOut, dollyIn; oc_simpl; rewrite ?Hs, ?getZoomScale_value;
      repeat split; try exact He; try exact Hs.
    + cbn. apply Fin_eq. lra.
    + rewrite div_Fin by lra. reflexivity.
Qed.

Lemma Good_wheel_input dy c :
  Good c ->
  Good (if Rlt_dec dy 0 then dollyOut getZoomScale c
        else if Rlt_dec 0 dy then dollyIn getZoomScale c else c).
Proof.
  intros G. destruct (Rlt_dec dy 0); [|destruct (Rlt_dec 0 dy)].
  - apply Good_dollyOut; [apply finite_getZoomScale' | exact G].
  - apply Good_dollyIn; [apply finite_getZoomScale | exact G].
  - exact G.
Qed.

Lemma wheel_distance dy c :
  Good c -> PerspectiveCamera.up (camera c) = up0 ->
  JsNum.le (Fin 0) (minDistance c) ->
  enabled c = true -> scale c = Fin 1 ->
  targetDistance (onMouseWheel dy c)
  = Math.max (minDistance c)
      (Math.min (maxDistance c)
         (targetDistance c * Fin (wheel_factor dy))%js).
Proof.
  intros G Hup Hmin He Hs.
  destruct (onMouseWheel_eq dy c He Hs) as (-> & H).
  pose proof (Good_wheel_input dy c G) as G1.
  revert G1. specialize (H _ eq_refl). revert H.
  generalize (if Rlt_dec dy 0 then dollyOut getZoomScale c
              else if Rlt_dec 0 dy then dollyIn getZoomScale c else c).
  intros c1 (Hc & Ht & Hlo & Hhi & _ & Hsc) G1.
  assert (Hup1 : PerspectiveCamera.up (camera c1) = up0) by (rewrite Hc; exact Hup).
  assert (Hmin1 : JsNum.le (Fin 0) (minDistance c1)) by (rewrite Hlo; exact Hmin).
  rewrite (targetDistance_is_radius c1 G1 Hup1 Hmin1).
  rewrite update_radius, (radius_is_targetDistance c1 G1 Hup1).
  rewrite Hlo, Hhi, Hsc. unfold targetDistance. rewrite Hc, Ht. reflexivity.
Qed.

(** X4. One notch of the mouse wheel moves the camera along its line of
    sight by five percent: scrolling up ([deltaY] negative) multiplies
    the distance to the target by 0.95, scrolling down divides it by
    0.95, and the result is clamped between [minDistance] and
    [maxDistance]. *)
Theorem wheel_notch_changes_distance_by_five_percent (dy : R) (c : t) :
  Good c -> PerspectiveCamera.up (camera c) = up0 ->
  JsNum.le (Fin 0) (minDistance c) ->
  enabled c = true -> scale c = Fin 1 ->
  targetDistance (onMouseWheel dy c)
  = Math.max (minDistance c)
      (Math.min (maxDistance c)
         (targetDistance c * Fin (wheel_factor dy))%js)
  /\ (dy < 0 -> wheel_factor dy = 0.95)
  /\ (0 < dy -> wheel_factor dy = 1 / 0.95).
Proof.
  intros G Hup Hmin He Hs. split; [now apply wheel_distance|].
  unfold wheel_factor. split; intros H.
  - destruct (Rlt_dec dy 0); [reflexivity | lra].
  - destruct (Rlt_dec dy 0); [lra|]. destruct (Rlt_dec 0 dy); [reflexivity | lra].
Qed.

Lemma wheel_notch_changes_distance_by_five_percent_witness :
  targetDistance (onMouseWheel (-100) (idle_controls (Fin 800)))
  = Math.max (Fin 10)
      (Math.min (Fin 400)
         (targetDistance (idle_controls (Fin 800))
          * Fin (wheel_factor (-100)))%js)
  /\ (-100 < 0 -> wheel_factor (-100) = 0.95)
  /\ (0 < -100 -> wheel_factor (-100) = 1 / 0.95).
Proof.
  apply (wheel_notch_changes_distance_by_five_percent (-100)
           (idle_controls (Fin 800))).
  - apply Good_idle. lra.
  - reflexivity.
  - cbn. lra.
  - reflexivity.
  - reflexivity.
Defined.

Lemma onMouseWheel_keeps dy c :
  enabled c = true -> scale c = Fin 1 ->
  PerspectiveCamera.up (camera (onMouseWheel dy c))
  = PerspectiveCamera.up (camera c)
  /\ minDistance (onMouseWheel dy c) = minDistance c
  /\ maxDistance (onMouseWheel dy c) = maxDistance c
  /\ enabled (onMouseWheel dy c) = true
  /\ scale (onMouseWheel dy c) = Fin 1.
Proof.
  intros He Hs. destruct (onMouseWheel_eq dy c He Hs) as (-> & H).
  specialize (H _ eq_refl). revert H.
  generalize (if Rlt_dec dy 0 then dollyOut getZoomScale c
              else if Rlt_dec 0 dy then dollyIn getZoomScale c else c).
  intros c1 (Hc & Ht & Hlo & Hhi & He1 & Hsc).
  destruct (update_config c1) as (C1 & C2 & C3 & _).
  destruct (update_gesture c1) as (_ & _ & _ & _ & _ & G6 & _).
  rewrite G6, C1, C2, C3, Hc, Hlo, Hhi, update_scale. now repeat split.
Qed.


Lemma sqrt_16900' : sqrt ((0 - 0) * (0 - 0) + (50 - 0) * (50 - 0)
                          + (120 - 0) * (120 - 0)) = 130.
Proof.
  replace (_ + _) with (130 * 130) by ring. apply sqrt_square. lra.
Qed.


End DistanceFacts.

Section DampingFacts.

Import THREE OrbitControls.

Lemma pow_unit q n : 0 <= q <= 1 -> 0 <= q ^ n <= 1.
Proof.
  intros Hq. induction n as [|n IH]; simpl; [lra|]. nra.
Qed.

(** X6. With damping switched on and no auto-rotation, the rotation and
    the pan still pending die out geometrically: after [n] calls of
    [update] with no input in between, each pending angle and each
    component of the pending pan is its starting value times (1 -
    dampingFactor) ^ n. For a damping factor between 0 and 1 the pending
    values therefore never grow in magnitude. *)
Theorem damping_decays_geometrically
  (n : nat) (c : t) (k ph th ox oy oz : R) :
  enableDamping c = true -> autoRotate c = false ->
  dampingFactor c = Fin k ->
  Spherical.phi (sphericalDelta c) = Fin ph ->
  Spherical.theta (sphericalDelta c) = Fin th ->
  panOffset c = Vector3.mk (Fin ox) (Fin oy) (Fin oz) ->
  let c' := Nat.iter n update c in
  Spherical.phi (sphericalDelta c') = Fin (ph * (1 - k) ^ n)
  /\ Spherical.theta (sphericalDelta c') = Fin (th * (1 - k) ^ n)
  /\ panOffset c'
     = Vector3.mk (Fin (ox * (1 - k) ^ n)) (Fin (oy * (1 - k) ^ n))
                  (Fin (oz * (1 - k) ^ n))
  /\ (0 <= k <= 1 ->
      Rabs (ph * (1 - k) ^ n) <= Rabs ph
      /\ Rabs (th * (1 - k) ^ n) <= Rabs th).
Proof.
  intros Hd Ha Hk Hph Hth Hpan. cbv zeta.
  assert (M : enableDamping (Nat.iter n update c) = true
              /\ autoRotate (Nat.iter n update c) = false
              /\ dampingFactor (Nat.iter n update c) = Fin k
              /\ Spherical.phi (sphericalDelta (Nat.iter n update c))
                 = Fin (ph * (1 - k) ^ n)
              /\ Spherical.theta (sphericalDelta (Nat.iter n update c))
                 = Fin (th * (1 - k) ^ n)
              /\ panOffset (Nat.iter n update c)
                 = Vector3.mk (Fin (ox * (1 - k) ^ n))
                     (Fin (oy * (1 - k) ^ n)) (Fin (oz * (1 - k) ^ n))).
  { induction n as [|n IH].
    - cbn [Nat.iter nat_rect pow]. rewrite Hph, Hth, Hpan.
      repeat split; try assumption;
        first [apply Fin_eq; ring | f_equal; apply Fin_eq; ring].
    - rewrite Nat.iter_succ. revert IH. generalize (Nat.iter n update c).
      intros c0 (I1 & I2 & I3 & I4 & I5 & I6).
      destruct (update_config c0) as (_ & _ & _ & C4 & C5 & C6 & _).
      rewrite C4, C5, C6, update_panOffset, I1, I6.
      rewrite (update_sphericalDelta_damped c0 I2 I1), I3, I4, I5.
      cbn [Spherical.phi Spherical.theta JsNum.sub JsNum.neg JsNum.add
           JsNum.mul Vector3.multiplyScalar Vector3.x Vector3.y Vector3.z pow].
      unfold Vector3.multiplyScalar.
      cbn [Vector3.x Vector3.y Vector3.z JsNum.mul].
      repeat split; try assumption;
        first [apply Fin_eq; ring | f_equal; apply Fin_eq; ring]. }
  destruct M as (_ & _ & _ & M1 & M2 & M3).
  split; [exact M1|]. split; [exact M2|]. split; [exact M3|].
  intros Hk01. pose proof (pow_unit (1 - k) n ltac:(lra)) as Hq.
  rewrite !Rabs_mult. rewrite (Rabs_pos_eq ((1 - k) ^ n)) by lra.
  pose proof (Rabs_pos ph). pose proof (Rabs_pos th). split; nra.
Qed.

Lemma damping_decays_geometrically_witness :
  let c' :=
    Nat.iter 3 update
      (set_panOffset (Vector3.mk (Fin 1) (Fin 2) (Fin 3))
         (set_sphericalDelta (Spherical.mk (Fin 0) (Fin 0.1) (Fin 0.2))
            (idle_controls (Fin 800)))) in
  Spherical.phi (sphericalDelta c') = Fin (0.1 * (1 - 0.05) ^ 3)
  /\ Spherical.theta (sphericalDelta c') = Fin (0.2 * (1 - 0.05) ^ 3)
  /\ panOffset c'
     = Vector3.mk (Fin (1 * (1 - 0.05) ^ 3)) (Fin (2 * (1 - 0.05) ^ 3))
                  (Fin (3 * (1 - 0.05) ^ 3))
  /\ (0 <= 0.05 <= 1 ->
      Rabs (0.1 * (1 - 0.05) ^ 3) <= Rabs 0.1
      /\ Rabs (0.2 * (1 - 0.05) ^ 3) <= Rabs 0.2).
Proof.
  apply (damping_decays_geometrically 3
           (set_panOffset (Vector3.mk (Fin 1) (Fin 2) (Fin 3))
              (set_sphericalDelta (Spherical.mk (Fin 0) (Fin 0.1) (Fin 0.2))
                 (idle_controls (Fin 800))))
           0.05 0.1 0.2 1 2 3); reflexivity.
Defined.

End DampingFacts.

Section PanFacts.

Import THREE OrbitControls.

Lemma normalize_up0 : Vector3.normalize up0 = up0.
Proof.
  unfold Vector3.normalize, Vector3.divideScalar, Vector3.length, up0.
  cbn [Vector3.x Vector3.y Vector3.z JsNum.mul JsNum.add].
  rewrite sqrt_Fin by lra.
  replace (0 * 0 + 1 * 1 + 0 * 0) with 1 by ring. rewrite sqrt_1.
  unfold JsNum.or_else. destruct (Req_dec_T 1 0); [lra|].
  rewrite div_Fin by lra. unfold Vector3.multiplyScalar.
  cbn [Vector3.x Vector3.y Vector3.z JsNum.mul]. f_equal; apply Fin_eq; field.
Qed.

(** The pan offset after [pan], component by component, for the default
    up vector: the sideways drag moves along the cross product of the up
    vector and the unit view vector, which is horizontal; the
    vertical drag moves along the up vector. *)
Lemma panOffset_pan dx dy c h :
  Good c -> PerspectiveCamera.up (camera c) = up0 ->
  DomElement.clientHeight (domElement c) = Fin h -> h <> 0 ->
  exists ox oy oz nx nz pd,
    panOffset c = Vector3.mk (Fin ox) (Fin oy) (Fin oz)
    /\ (Fin 2 * targetDistance c
        * Math.tan (PerspectiveCamera.fov (camera c) / Fin 2 * Math.PI
                    / Fin 180))%js = Fin pd
    /\ panOffset (pan (Fin dx) (Fin dy) c)
       = Vector3.mk (Fin (ox + nz * (- dx * pd / h)))
                    (Fin (oy + dy * pd / h))
                    (Fin (oz - nx * (- dx * pd / h))).
Proof.
  intros G Hup Hh Hne.
  destruct (finite3_inv _ (good_pan _ G)) as (ox & oy & oz & Ho).
  assert (Hn : finite3 (Vector3.normalize
                          (Vector3.sub (PerspectiveCamera.position (camera c))
                                       (target c)))).
  { apply finite3_normalize, finite3_sub; apply G. }
  destruct (finite3_inv _ Hn) as (nx & ny & nz & En).
  assert (Hpd : JsNum.finite
    (Fin 2 * targetDistance c
     * Math.tan (PerspectiveCamera.fov (camera c) / Fin 2 * Math.PI
                 / Fin 180))%js).
  { apply finite_mul.
    - apply finite_mul; [exact I|]. apply finite_distanceTo; apply G.
    - apply finite_tan, finite_div; [|lra].
      apply finite_mul; [|exact I]. apply finite_div; [apply G | lra]. }
  apply finite_inv in Hpd as [pd Epd].
  exists ox, oy, oz, nx, nz, pd. split; [exact Ho|]. split; [exact Epd|].
  unfold pan. cbv zeta. oc_simpl. fold (targetDistance c).
  rewrite Epd, En, Hup, normalize_up0, Ho, Hh. unfold up0.
  unfold Vector3.crossVectors, Vector3.multiplyScalar, Vector3.add.
  cbn [Vector3.x Vector3.y Vector3.z JsNum.mul JsNum.neg JsNum.sub JsNum.add].
  rewrite !div_Fin by exact Hne.
  cbn [JsNum.mul JsNum.add]. f_equal; apply Fin_eq; field; exact Hne.
Qed.

(** X9. Panning is split along two fixed directions. With the default up
    vector, [pan(dx, dy)] raises the pending pan offset along the
    vertical axis by dy times the pan distance (2 d tan(fov / 2), d the
    distance to the target) over the height of the viewport, whatever
    [dx] is; a sideways drag ([dy] zero) leaves the height of the pan
    offset as it was, and a vertical drag ([dx] zero) changes nothing
    but that height. *)
Theorem pan_splits_into_vertical_and_horizontal (dx dy : R) (c : t) :
  Good c -> PerspectiveCamera.up (camera c) = up0 ->
  Vector3.y (panOffset (pan (Fin dx) (Fin dy) c))
  = (Vector3.y (panOffset c)
     + Fin dy
       * (Fin 2 * targetDistance c
          * Math.tan (PerspectiveCamera.fov (camera c) / Fin 2 * Math.PI
                      / Fin 180))
       / DomElement.clientHeight (domElement c))%js
  /\ Vector3.y (panOffset (pan (Fin dx) (Fin 0) c)) = Vector3.y (panOffset c)
  /\ Vector3.x (panOffset (pan (Fin 0) (Fin dy) c)) = Vector3.x (panOffset c)
  /\ Vector3.z (panOffset (pan (Fin 0) (Fin dy) c)) = Vector3.z (panOffset c).
Proof.
  intros G Hup. destruct (good_height _ G) as (h & Hh & Hpos).
  assert (Hne : h <> 0) by lra.
  destruct (panOffset_pan dx dy c h G Hup Hh Hne)
    as (ox & oy & oz & nx & nz & pd & Ho & Epd & E1).
  destruct (panOffset_pan dx 0 c h G Hup Hh Hne)
    as (ox2 & oy2 & oz2 & nx2 & nz2 & pd2 & Ho2 & Epd2 & E2).
  destruct (panOffset_pan 0 dy c h G Hup Hh Hne)
    as (ox3 & oy3 & oz3 & nx3 & nz3 & pd3 & Ho3 & Epd3 & E3).
  rewrite E1, E2, E3, Epd, Hh.
  rewrite Ho in Ho2, Ho3 |- *. injection Ho2 as <- <- <-.
  injection Ho3 as <- <- <-.
  cbn [Vector3.x Vector3.y Vector3.z JsNum.mul].
  rewrite div_Fin by exact Hne. cbn [JsNum.add].
  repeat split; apply Fin_eq; field; exact Hne.
Qed.

Lemma pan_splits_into_vertical_and_horizontal_witness :
  let c := idle_controls (Fin 800) in
  Vector3.y (panOffset (pan (Fin 3) (Fin 4) c))
  = (Vector3.y (panOffset c)
     + Fin 4
       * (Fin 2 * targetDistance c
          * Math.tan (PerspectiveCamera.fov (camera c) / Fin 2 * Math.PI
                      / Fin 180))
       / DomElement.clientHeight (domElement c))%js
  /\ Vector3.y (panOffset (pan (Fin 3) (Fin 0) c)) = Vector3.y (panOffset c)
  /\ Vector3.x (panOffset (pan (Fin 0) (Fin 4) c)) = Vector3.x (panOffset c)
  /\ Vector3.z (panOffset (pan (Fin 0) (Fin 4) c)) = Vector3.z (panOffset c).
Proof.
  apply (pan_splits_into_vertical_and_horizontal 3 4 (idle_controls (Fin 800))).
  - apply Good_idle. lra.
  - reflexivity.
Defined.

End PanFacts.

Section PinchFacts.

Import THREE OrbitControls.

Lemma enabled_onTouchMove ts c : enabled (onTouchMove ts c) = enabled c.
Proof.
  unfold onTouchMove. destruct (enabled c) eqn:E; [|exact E]. cbn [negb].
  destruct ts as [|t0 [|t1 [|t2 ts]]]; try exact E;
    unfold rotateTo, rotateLeft, rotateUp, dollyIn; cbv zeta; oc_simpl; exact E.
Qed.

(** X10. The zoom a pinch leaves pending depends only on where the two
    fingers started and where they are now, not on the path between: two
    two-finger moves in a row leave the [scale] that the second move
    alone would have left, and bringing the fingers back to their
    starting distance restores the [scale] there was. (The distances are
    positive: the fingers are never at the same point.) *)
Theorem pinch_zoom_is_path_independent
  (c : t) (t0 t1 u0 u1 : Touch) (d0 sc : R) :
  enabled c = true -> scale c = Fin sc ->
  Vector2.y (dollyStart c) = Fin d0 -> 0 < d0 ->
  pageX t0 <> pageX t1 \/ pageY t0 <> pageY t1 ->
  pageX u0 <> pageX u1 \/ pageY u0 <> pageY u1 ->
  scale (onTouchMove [u0; u1] (onTouchMove [t0; t1] c))
  = scale (onTouchMove [u0; u1] c)
  /\ (touchDistance u0 u1 = Fin d0 ->
      scale (onTouchMove [u0; u1] (onTouchMove [t0; t1] c)) = Fin sc).
Proof.
  intros He Hs Hd0 Hpos Ht Hu.
  destruct (touchDistance_pos t0 t1 Ht) as (d1 & E1 & P1).
  destruct (touchDistance_pos u0 u1 Hu) as (d2 & E2 & P2).
  destruct (onTouchMove_pinch c t0 t1 He) as (A1 & _ & A3 & _).
  destruct (onTouchMove_pinch c u0 u1 He) as (B1 & _).
  pose proof (enabled_onTouchMove [t0; t1] c) as He1. rewrite He in He1.
  destruct (onTouchMove_pinch _ u0 u1 He1) as (C1 & _).
  cbv zeta in A1, B1, C1.
  assert (Q1 : 0 < d1 / d0) by (apply Rdiv_lt_0_compat; lra).
  assert (Q2 : 0 < d2 / d1) by (apply Rdiv_lt_0_compat; lra).
  assert (Q3 : 0 < d2 / d0) by (apply Rdiv_lt_0_compat; lra).
  pose proof (Rpower_gt_0 (d1 / d0) 0.1) as R1.
  pose proof (Rpower_gt_0 (d2 / d1) 0.1) as R2.
  pose proof (Rpower_gt_0 (d2 / d0) 0.1) as R3.
  assert (M : Rpower (d1 / d0) 0.1 * Rpower (d2 / d1) 0.1
              = Rpower (d2 / d0) 0.1).
  { rewrite Rpower_mult_distr by assumption. f_equal. field. lra. }
  assert (F : scale (onTouchMove [u0; u1] (onTouchMove [t0; t1] c))
              = Fin (sc / Rpower (d2 / d0) 0.1)).
  { rewrite C1, A1, A3, E1, E2, Hs, Hd0. cbn [Vector2.y].
    rewrite !div_Fin by lra. rewrite !Math_pow_pos by lra.
    rewrite !div_Fin by lra. apply Fin_eq. rewrite <- M. field. lra. }
  split.
  - rewrite F, B1, E2, Hs, Hd0. rewrite div_Fin by lra.
    rewrite Math_pow_pos by lra. rewrite div_Fin by lra. reflexivity.
  - intros E. rewrite E2 in E. injection E as ->. rewrite F. apply Fin_eq.
    replace (d0 / d0) with 1 by (field; lra). unfold Rpower. rewrite ln_1, Rmult_0_r, exp_0.
    field.
Qed.

Lemma pinch_zoom_is_path_independent_witness :
  let c := onTouchStart [mkTouch 0 0; mkTouch 3 4] (idle_controls (Fin 800)) in
  scale (onTouchMove [mkTouch 0 0; mkTouch 3 4]
           (onTouchMove [mkTouch 0 0; mkTouch 6 8] c))
  = scale (onTouchMove [mkTouch 0 0; mkTouch 3 4] c)
  /\ (touchDistance (mkTouch 0 0) (mkTouch 3 4) = Fin 5 ->
      scale (onTouchMove [mkTouch 0 0; mkTouch 3 4]
               (onTouchMove [mkTouch 0 0; mkTouch 6 8] c)) = Fin 1).
Proof.
  apply (pinch_zoom_is_path_independent
           (onTouchStart [mkTouch 0 0; mkTouch 3 4] (idle_controls (Fin 800)))
           (mkTouch 0 0) (mkTouch 6 8) (mkTouch 0 0) (mkTouch 3 4) 5 1).
  - reflexivity.
  - reflexivity.
  - unfold onTouchStart. cbn [enabled idle_controls negb]. oc_simpl.
    apply touchDistance_3_4.
  - lra.
  - left. cbn. lra.
  - left. cbn. lra.
Defined.

End PinchFacts.

Section AutoRotateFacts.

Import THREE OrbitControls.

Lemma getAutoRotationAngle_Fin c v :
  autoRotateSpeed c = Fin v ->
  getAutoRotationAngle c = Fin (2 * PI / 60 / 60 * v).
Proof.
  intros H. unfold getAutoRotationAngle, Math.PI. rewrite H.
  cbn [JsNum.mul]. rewrite !div_Fin by lra. reflexivity.
Qed.

(** One [update] with auto-rotation and damping on, no interaction in
    progress: the auto-rotation angle is subtracted from the pending
    rotation, the sum is applied to the camera angle, and what is left
    pending is that sum damped. *)
Lemma update_autoRotate_damped c k v th :
  autoRotate c = true -> currentState c = NONE -> enableDamping c = true ->
  dampingFactor c = Fin k -> autoRotateSpeed c = Fin v ->
  Spherical.theta (sphericalDelta c) = Fin th ->
  Spherical.theta (sphericalDelta (update c))
  = Fin ((th - 2 * PI / 60 / 60 * v) * (1 - k))
  /\ Spherical.theta (spherical (update c))
     = (Spherical.theta (Spherical.setFromVector3 (update_offset c))
        + Fin (th - 2 * PI / 60 / 60 * v))%js.
Proof.
  intros Ha Hs Hd Hk Hv Hth.
  assert (P : Spherical.theta (pending_delta c)
              = Fin (th - 2 * PI / 60 / 60 * v)).
  { unfold pending_delta. rewrite Ha, Hs. cbn [andb STATE_eqb].
    unfold rotateLeft. oc_simpl.
    rewrite (getAutoRotationAngle_Fin c v Hv), Hth. reflexivity. }
  split.
  - rewrite update_sphericalDelta, Hd, Hk, P. reflexivity.
  - rewrite update_theta_pending, P. reflexivity.
Qed.

(** X7. Auto-rotation and damping together. An idle controller with
    auto-rotation subtracts the angle alpha = 2 pi / 3600 x
    autoRotateSpeed from the pending rotation on every [update]; with
    damping on, what is pending is only multiplied by 1 - dampingFactor
    instead of being reset, so the auto-rotation piles up: after [n]
    updates the pending rotation is L + (theta0 - L) (1 - k)^n for L = -
    alpha (1 - k) / k, and each update turns the camera by the pending
    rotation minus alpha. Once the pending rotation has settled at L,
    every update turns the camera by alpha / k, which is 1 / k times the
    configured rate. *)
Theorem auto_rotation_piles_up_under_damping
  (n : nat) (c : t) (k v th : R) :
  autoRotate c = true -> currentState c = NONE -> enableDamping c = true ->
  dampingFactor c = Fin k -> k <> 0 -> autoRotateSpeed c = Fin v ->
  Spherical.theta (sphericalDelta c) = Fin th ->
  let alpha := 2 * PI / 60 / 60 * v in
  let L := - alpha * (1 - k) / k in
  let c' := Nat.iter n update c in
  Spherical.theta (sphericalDelta c') = Fin (L + (th - L) * (1 - k) ^ n)
  /\ Spherical.theta (spherical (update c'))
     = (Spherical.theta (Spherical.setFromVector3 (update_offset c'))
        + Fin (L + (th - L) * (1 - k) ^ n - alpha))%js
  /\ (th = L -> L + (th - L) * (1 - k) ^ n - alpha = - alpha / k).
Proof.
  intros Ha Hs Hd Hk Hne Hv Hth alpha L. cbv zeta.
  assert (M : autoRotate (Nat.iter n update c) = true
              /\ currentState (Nat.iter n update c) = NONE
              /\ enableDamping (Nat.iter n update c) = true
              /\ dampingFactor (Nat.iter n update c) = Fin k
              /\ autoRotateSpeed (Nat.iter n update c) = Fin v
              /\ Spherical.theta (sphericalDelta (Nat.iter n update c))
                 = Fin (L + (th - L) * (1 - k) ^ n)).
  { induction n as [|n IH].
    - cbn [Nat.iter nat_rect pow]. rewrite Hth.
      repeat split; try assumption. apply Fin_eq. ring.
    - rewrite Nat.iter_succ. revert IH. generalize (Nat.iter n update c).
      intros c0 (I1 & I2 & I3 & I4 & I5 & I6).
      destruct (update_config c0) as (_ & _ & _ & C4 & C5 & C6 & C7 & _).
      destruct (update_gesture c0) as (G1 & _).
      destruct (update_autoRotate_damped c0 k v _ I1 I2 I3 I4 I5 I6) as (U & _).
      rewrite C4, C5, C6, C7, G1, U.
      repeat split; try assumption. apply Fin_eq.
      fold alpha. unfold L. cbn [pow]. field. exact Hne. }
  destruct M as (M1 & M2 & M3 & M4 & M5 & M6).
  split; [exact M6|]. split.
  - destruct (update_autoRotate_damped _ k v _ M1 M2 M3 M4 M5 M6) as (_ & U).
    exact U.
  - intros ->. unfold L. field. exact Hne.
Qed.

Lemma auto_rotation_piles_up_under_damping_witness :
  let c := set_autoRotate true (idle_controls (Fin 800)) in
  let alpha := 2 * PI / 60 / 60 * 0.5 in
  let L := - alpha * (1 - 0.05) / 0.05 in
  let c' := Nat.iter 2 update c in
  Spherical.theta (sphericalDelta c') = Fin (L + (0 - L) * (1 - 0.05) ^ 2)
  /\ Spherical.theta (spherical (update c'))
     = (Spherical.theta (Spherical.setFromVector3 (update_offset c'))
        + Fin (L + (0 - L) * (1 - 0.05) ^ 2 - alpha))%js
  /\ (0 = L -> L + (0 - L) * (1 - 0.05) ^ 2 - alpha = - alpha / 0.05).
Proof.
  apply (auto_rotation_piles_up_under_damping 2
           (set_autoRotate true (idle_controls (Fin 800))) 0.05 0.5 0);
    try reflexivity.
  lra.
Defined.

End AutoRotateFacts.

Section IdleFacts.

Import THREE OrbitControls.



End IdleFacts.

(* ================================================================== *)
(** * The listeners of the controller *)

Section ListenerFacts.

Import Listeners.

Lemma create_registered :
  registered create
  = [ mkListener DomElement "contextmenu" (Bound "onContextMenu" 3);
      mkListener DomElement "mousedown" (Bound "onMouseDown" 4);
      mkListener DomElement "wheel" (Bound "onMouseWheel" 5);
      mkListener DomElement "touchstart" (Bound "onTouchStart" 6);
      mkListener DomElement "touchend" (Bound "onTouchEnd" 7);
      mkListener DomElement "touchmove" (Bound "onTouchMove" 8) ].
Proof. vm_compute. reflexivity. Qed.

(** Whatever mouse events came before, the registrations are those of the
    constructor, with or without the two listeners on the document. *)
Lemma run_registrations es : forall w,
  w = create \/ w = onMouseDown create ->
  run es w = create \/ run es w = onMouseDown create.
Proof.
  induction es as [|e es IH]; intros w H; [exact H|].
  change (run (e :: es) w) with (run es (dispatch e w)). apply IH.
  destruct H as [-> | ->]; destruct e; vm_compute; auto.
Qed.

(** X11. [dispose()] removes the two listeners of the document and none
    of the six listeners of the element. The constructor registers, on
    the element, functions made by [bind] on the spot; [dispose] passes
    the methods themselves to [removeEventListener], which are other
    function objects and match no registration. So after [dispose],
    whatever mouse events came before, the element still carries the six
    listeners the constructor gave it, and the document carries none. *)
Theorem dispose_leaves_the_element_listeners (es : list Event) :
  registered (dispose (run es create)) = registered create
  /\ length (registered (dispose (run es create))) = 6%nat
  /\ Forall (fun l => on l = DomElement) (registered (dispose (run es create)))
  /\ registered (run (es ++ [MouseDown]) create)
     = registered create
       ++ [ mkListener Document "mousemove" (Bound "onMouseMove" 1);
            mkListener Document "mouseup" (Bound "onMouseUp" 2) ].
Proof.
  assert (E : registered (dispose (run es create)) = registered create).
  { destruct (run_registrations es create (or_introl eq_refl)) as [-> | ->];
      vm_compute; reflexivity. }
  split; [exact E|]. rewrite E. split; [reflexivity|]. split.
  - rewrite create_registered. repeat constructor.
  - unfold run. rewrite fold_left_app. fold (run es create).
    destruct (run_registrations es create (or_introl eq_refl)) as [-> | ->];
      vm_compute; reflexivity.
Qed.

End ListenerFacts.

(* ================================================================== *)
(** * The fallback controls *)

Section BasicControlsFacts.

Import THREE BasicControls.

Lemma half_PI_Fin : (Math.PI / Fin 2)%js = Fin (PI / 2).
Proof. unfold Math.PI. apply div_Fin. lra. Qed.

Lemma neg_half_PI_Fin : (- Math.PI / Fin 2)%js = Fin (- PI / 2).
Proof. unfold Math.PI. cbn [JsNum.neg]. apply div_Fin. lra. Qed.

Lemma Rmax_Rmin_bounds lo hi v :
  lo <= hi -> lo <= Rmax lo (Rmin hi v) <= hi.
Proof.
  intros H. unfold Rmax, Rmin.
  destruct (Rle_dec hi v); destruct (Rle_dec lo _); lra.
Qed.

(** The point at distance [d] in the direction of the two angles is at
    distance [d] from the origin. *)
Lemma sqrt_camera_sphere d ax ay :
  0 <= d ->
  sqrt (d * cos ax * sin ay * (d * cos ax * sin ay)
        + d * sin ax * (d * sin ax)
        + d * cos ax * cos ay * (d * cos ax * cos ay)) = d.
Proof.
  intros Hd.
  pose proof (sin2_cos2 ax) as Ex. pose proof (sin2_cos2 ay) as Ey.
  unfold Rsqr in Ex, Ey.
  replace (_ + _) with
    (d * d * (cos ax * cos ax * (sin ay * sin ay + cos ay * cos ay)
              + sin ax * sin ax)) by ring.
  rewrite Ey, Rmult_1_r, (Rplus_comm (cos ax * cos ax)), Ex, Rmult_1_r.
  now apply sqrt_square.
Qed.

(** What the states of the fallback controls have in common: the fields
    are real numbers, the distance and the vertical angle are inside their
    clamps, and the camera is where [setupCamera] put it or where
    [updateCameraPosition] puts it for the current distance and angles. *)
Lemma run_basic_invariant p0 es : forall s,
  (exists d ax ay mx my,
     cameraDistance s = Fin d /\ cameraAngleX s = Fin ax
     /\ cameraAngleY s = Fin ay /\ mouseX s = Fin mx /\ mouseY s = Fin my
     /\ 20 <= d <= 400 /\ - PI / 2 <= ax <= PI / 2
     /\ (camera_position s = p0
         \/ camera_position s
            = Vector3.mk (Fin (d * cos ax * sin ay)) (Fin (d * sin ax))
                         (Fin (d * cos ax * cos ay)))) ->
  exists d ax ay mx my,
    cameraDistance (run es s) = Fin d /\ cameraAngleX (run es s) = Fin ax
    /\ cameraAngleY (run es s) = Fin ay /\ mouseX (run es s) = Fin mx
    /\ mouseY (run es s) = Fin my
    /\ 20 <= d <= 400 /\ - PI / 2 <= ax <= PI / 2
    /\ (camera_position (run es s) = p0
        \/ camera_position (run es s)
           = Vector3.mk (Fin (d * cos ax * sin ay)) (Fin (d * sin ax))
                        (Fin (d * cos ax * cos ay))).
Proof.
  pose proof PI_RGT_0 as Hpi.
  induction es as [|e es IH]; intros s H; [exact H|].
  change (run (e :: es) s) with (run es (dispatch e s)). apply IH. clear IH.
  destruct H as (d & ax & ay & mx & my & Hd & Hax & Hay & Hmx & Hmy
                 & Bd & Bax & Hpos).
  assert (Drag : forall px py,
    exists d ax ay mx my,
      cameraDistance (dragTo px py s) = Fin d
      /\ cameraAngleX (dragTo px py s) = Fin ax
      /\ cameraAngleY (dragTo px py s) = Fin ay
      /\ mouseX (dragTo px py s) = Fin mx /\ mouseY (dragTo px py s) = Fin my
      /\ 20 <= d <= 400 /\ - PI / 2 <= ax <= PI / 2
      /\ (camera_position (dragTo px py s) = p0
          \/ camera_position (dragTo px py s)
             = Vector3.mk (Fin (d * cos ax * sin ay)) (Fin (d * sin ax))
                          (Fin (d * cos ax * cos ay)))).
  { intros px py.
    exists d, (Rmax (- PI / 2) (Rmin (PI / 2) (ax + (py - my) * 0.01))),
      (ay + (px - mx) * 0.01), px, py.
    unfold dragTo, updateCameraPosition. cbv zeta.
    cbn [cameraDistance cameraAngleX cameraAngleY mouseX mouseY
         camera_position set_cameraAngleX set_cameraAngleY set_mouse
         set_camera_position].
    rewrite Hd, Hax, Hay, Hmx, Hmy, half_PI_Fin, neg_half_PI_Fin.
    cbn [JsNum.sub JsNum.neg JsNum.add JsNum.mul Math.max Math.min Math.cos
         Math.sin].
    repeat split; try reflexivity; try lra;
      try (apply Rmax_Rmin_bounds; lra).
    right. reflexivity. }
  destruct e as [px py| |px py|dy|ts| |ts]; cbn [dispatch].
  - exists d, ax, ay, px, py. now repeat split.
  - exists d, ax, ay, mx, my. now repeat split.
  - unfold onMouseMove. destruct (isMouseDown s); cbn [negb].
    + apply Drag.
    + exists d, ax, ay, mx, my. now repeat split.
  - exists (Rmax 20 (Rmin 400 (d + dy * 0.2))), ax, ay, mx, my.
    unfold onWheel, updateCameraPosition. cbv zeta.
    cbn [cameraDistance cameraAngleX cameraAngleY mouseX mouseY
         camera_position set_cameraDistance set_camera_position].
    rewrite Hd, Hax, Hay.
    cbn [JsNum.add JsNum.mul Math.max Math.min Math.cos Math.sin].
    repeat split; try assumption; try lra;
      try (apply Rmax_Rmin_bounds; lra).
    right. reflexivity.
  - destruct ts as [|t0 [|t1 ts]]; cbn [onTouchStart].
    + exists d, ax, ay, mx, my. now repeat split.
    + exists d, ax, ay, (clientX t0), (clientY t0). now repeat split.
    + exists d, ax, ay, mx, my. now repeat split.
  - exists d, ax, ay, mx, my. now repeat split.
  - destruct ts as [|t0 [|t1 ts]]; cbn [onTouchMove].
    + exists d, ax, ay, mx, my. now repeat split.
    + destruct (isMouseDown s); cbn [negb].
      * apply Drag.
      * exists d, ax, ay, mx, my. now repeat split.
    + exists d, ax, ay, mx, my. now repeat split.
Qed.


(** X13. Nothing moves the camera before a drag or a zoom has started:
    mouse moves without a button held, touch moves without a one-finger
    touch held (all touches with two fingers or more among them),
    mouse-ups and touch-ends leave the fallback controls, and the camera
    with them, in the starting state. *)
Theorem basic_controls_ignore_moves_without_press
  (p0 : Vector3.t) (es : list Event) :
  Forall starts_nothing es ->
  run es (setupBasicControls p0) = setupBasicControls p0.
Proof.
  intros H. induction H as [|e es He _ IH]; [reflexivity|].
  change (run (e :: es) (setupBasicControls p0))
    with (run es (dispatch e (setupBasicControls p0))).
  assert (E : dispatch e (setupBasicControls p0) = setupBasicControls p0).
  { destruct e as [px py| |px py|dy|ts| |ts]; cbn in He; try contradiction;
      try reflexivity.
    - destruct ts as [|t0 [|t1 ts]]; [reflexivity | contradiction | reflexivity].
    - destruct ts as [|t0 [|t1 ts]]; reflexivity. }
  rewrite E. exact IH.
Qed.

Lemma basic_controls_ignore_moves_without_press_witness :
  run [MouseMove 10 20; TouchStart [mkTouch 1 1; mkTouch 5 5];
       TouchMove [mkTouch 2 2; mkTouch 9 9]; TouchMove [mkTouch 4 4];
       TouchEnd; MouseUp]
      (setupBasicControls (Vector3.mk (Fin 0) (Fin 50) (Fin 120)))
  = setupBasicControls (Vector3.mk (Fin 0) (Fin 50) (Fin 120)).
Proof.
  apply basic_controls_ignore_moves_without_press.
  repeat constructor.
Defined.

End BasicControlsFacts.

Section BasicDragFacts.

Import THREE BasicControls.

Lemma List_last_cons {A : Type} (l : list A) : forall a d,
  List.last (a :: l) d = List.last l a.
Proof.
  induction l as [|b l IH]; intros a d; [reflexivity|].
  change (List.last (a :: b :: l) d) with (List.last (b :: l) d).
  now rewrite !IH.
Qed.

Lemma drag_moves_angleY moves : forall s mx ay,
  isMouseDown s = true -> mouseX s = Fin mx -> cameraAngleY s = Fin ay ->
  let s' := fold_left (fun s m => onMouseMove (fst m) (snd m) s) moves s in
  isMouseDown s' = true
  /\ mouseX s' = Fin (fst (List.last moves (mx, 0)))
  /\ cameraAngleY s' = Fin (ay + (fst (List.last moves (mx, 0)) - mx) * 0.01).
Proof.
  induction moves as [|[x y] moves IH]; intros s mx ay Hd Hx Ha; cbv zeta.
  - cbn [fold_left List.last fst]. repeat split; try assumption.
    rewrite Ha. apply Fin_eq. ring.
  - cbn [fold_left fst snd].
    assert (S1 : isMouseDown (onMouseMove x y s) = true
                 /\ mouseX (onMouseMove x y s) = Fin x
                 /\ cameraAngleY (onMouseMove x y s)
                    = Fin (ay + (x - mx) * 0.01)).
    { unfold onMouseMove. rewrite Hd. cbn [negb].
      unfold dragTo, updateCameraPosition. cbv zeta.
      cbn [isMouseDown mouseX mouseY cameraAngleY cameraAngleX cameraDistance
           set_cameraAngleX set_cameraAngleY set_mouse set_camera_position].
      rewrite Hd, Hx, Ha. now repeat split. }
    destruct S1 as (D1 & X1 & A1).
    destruct (IH (onMouseMove x y s) x _ D1 X1 A1) as (I1 & I2 & I3).
    cbv zeta in I1, I2, I3.
    assert (L : fst (List.last ((x, y) :: moves) (mx, 0))
                = fst (List.last moves (x, 0))).
    { destruct moves as [|m moves]; [reflexivity|].
      change (List.last ((x, y) :: m :: moves) (mx, 0))
        with (List.last (m :: moves) (mx, 0)).
      now rewrite !List_last_cons. }
    rewrite L, I2, I3. repeat split; try assumption. apply Fin_eq. ring.
Qed.

(** X14. With the fallback controls, how far the camera has turned
    sideways during a drag depends only on where the pointer went down
    and where it is now: after a mouse-down at [x0] and any sequence of
    mouse moves, the horizontal angle has grown by 0.01 radians per
    pixel between [x0] and the last pointer position. *)
Theorem basic_drag_turns_with_pointer_travel
  (s : t) (ay x0 y0 : R) (moves : list (R * R)) :
  cameraAngleY s = Fin ay ->
  let s' :=
    fold_left (fun s m => onMouseMove (fst m) (snd m) s) moves
              (onMouseDown x0 y0 s) in
  cameraAngleY s' = Fin (ay + (fst (List.last moves (x0, 0)) - x0) * 0.01).
Proof.
  intros Ha. cbv zeta.
  apply (drag_moves_angleY moves (onMouseDown x0 y0 s) x0 ay);
    [reflexivity | reflexivity | exact Ha].
Qed.

Lemma basic_drag_turns_with_pointer_travel_witness :
  let s' :=
    fold_left (fun s m => onMouseMove (fst m) (snd m) s)
              [(110, 5); (90, 7); (130, 2)]
              (onMouseDown 100 0
                 (setupBasicControls (Vector3.mk (Fin 0) (Fin 50) (Fin 120)))) in
  cameraAngleY s'
  = Fin (0 + (fst (List.last [(110, 5); (90, 7); (130, 2)] (100, 0)) - 100) * 0.01).
Proof.
  apply (basic_drag_turns_with_pointer_travel
           (setupBasicControls (Vector3.mk (Fin 0) (Fin 50) (Fin 120)))
           0 100 0 [(110, 5); (90, 7); (130, 2)]).
  reflexivity.
Defined.

End BasicDragFacts.

(* ================================================================== *)
(** * The pointer position *)

Section PointerFacts.

Import THREE.

(** X15. [updateMousePosition] maps the rectangle of the canvas onto the
    square [-1, 1] x [-1, 1], the vertical axis pointing up: for a
    canvas of positive width and height, the pointer is inside the
    rectangle exactly when both coordinates written to [this.mouse] are
    between -1 and 1, the top-left corner goes to (-1, 1), and the
    client coordinates can be recovered from the result. *)
Theorem pointer_maps_canvas_onto_square
  (rect : Canvas.DOMRect) (cx cy l t w h : R) :
  Canvas.left rect = Fin l -> Canvas.top rect = Fin t ->
  Canvas.width rect = Fin w -> Canvas.height rect = Fin h ->
  0 < w -> 0 < h ->
  exists x y,
    Canvas.updateMousePosition rect cx cy = Vector2.mk (Fin x) (Fin y)
    /\ (l <= cx <= l + w <-> -1 <= x <= 1)
    /\ (t <= cy <= t + h <-> -1 <= y <= 1)
    /\ cx = l + (x + 1) / 2 * w
    /\ cy = t + (1 - y) / 2 * h
    /\ (cx = l -> x = -1) /\ (cy = t -> y = 1).
Proof.
  intros Hl Ht Hw Hh Pw Ph.
  exists ((cx - l) / w * 2 - 1), (- ((cy - t) / h) * 2 + 1).
  split.
  { unfold Canvas.updateMousePosition. rewrite Hl, Ht, Hw, Hh.
    cbn [JsNum.sub JsNum.neg JsNum.add]. rewrite !div_Fin by lra.
    cbn [JsNum.mul JsNum.neg JsNum.add]. f_equal; apply Fin_eq; lra. }
  assert (Ex : (cx - l) / w * w = cx - l) by (field; lra).
  assert (Ey : (cy - t) / h * h = cy - t) by (field; lra).
  set (u := (cx - l) / w) in *. set (v := (cy - t) / h) in *.
  repeat split; intros; try nra; try (apply Rmult_eq_reg_r with 2; [|lra]; nra).
Qed.

Lemma pointer_maps_canvas_onto_square_witness :
  exists x y,
    Canvas.updateMousePosition
      (Canvas.mkRect (Fin 10) (Fin 20) (Fin 800) (Fin 600)) 410 320
    = Vector2.mk (Fin x) (Fin y)
    /\ (10 <= 410 <= 10 + 800 <-> -1 <= x <= 1)
    /\ (20 <= 320 <= 20 + 600 <-> -1 <= y <= 1)
    /\ 410 = 10 + (x + 1) / 2 * 800
    /\ 320 = 20 + (1 - y) / 2 * 600
    /\ (410 = 10 -> x = -1) /\ (320 = 20 -> y = 1).
Proof.
  apply (pointer_maps_canvas_onto_square
           (Canvas.mkRect (Fin 10) (Fin 20) (Fin 800) (Fin 600))
           410 320 10 20 800 600); try reflexivity; lra.
Defined.

(** X16. The division by the size of the canvas is not guarded: on a
    canvas of width zero the horizontal coordinate written to
    [this.mouse] is never a real number (it is an infinity or NaN), and
    likewise the vertical one on a canvas of height zero. *)
Theorem pointer_on_empty_canvas_is_not_a_number
  (rect : Canvas.DOMRect) (cx cy : R) :
  Canvas.width rect = Fin 0 \/ Canvas.height rect = Fin 0 ->
  ~ (JsNum.finite (Vector2.x (Canvas.updateMousePosition rect cx cy))
     /\ JsNum.finite (Vector2.y (Canvas.updateMousePosition rect cx cy))).
Proof.
  assert (D : forall a, ~ JsNum.finite (a / Fin 0)%js).
  { intros [r| | |]; cbn; try tauto.
    - destruct (Req_dec_T 0 0) as [_|N]; [|now elim N].
      unfold JsNum.Rcase. destruct (total_order_T r 0) as [[?|?]|?]; cbn; tauto.
    - destruct (Rlt_dec 0 0); cbn; tauto.
    - destruct (Rlt_dec 0 0); cbn; tauto. }
  assert (M : forall a, ~ JsNum.finite a -> ~ JsNum.finite (a * Fin 2)%js).
  { intros [r| | |]; cbn; try tauto; intros _;
      rewrite Rcase_pos by lra; cbn; tauto. }
  assert (N : forall a, ~ JsNum.finite a -> ~ JsNum.finite (- a)%js).
  { intros [r| | |]; cbn; tauto. }
  assert (A : forall a b, ~ JsNum.finite a -> ~ JsNum.finite (a + Fin b)%js).
  { intros [r| | |] b; cbn; tauto. }
  unfold Canvas.updateMousePosition. cbn [Vector2.x Vector2.y].
  intros [E|E] (Hx & Hy); rewrite E in *.
  - revert Hx. unfold JsNum.sub at 1. cbn [JsNum.neg]. apply A, M, D.
  - revert Hy. apply A, M, N, D.
Qed.

Lemma pointer_on_empty_canvas_is_not_a_number_witness :
  ~ (JsNum.finite
       (Vector2.x (Canvas.updateMousePosition
                     (Canvas.mkRect (Fin 0) (Fin 0) (Fin 0) (Fin 600)) 5 5))
     /\ JsNum.finite
          (Vector2.y (Canvas.updateMousePosition
                        (Canvas.mkRect (Fin 0) (Fin 0) (Fin 0) (Fin 600)) 5 5))).
Proof.
  apply pointer_on_empty_canvas_is_not_a_number. left. reflexivity.
Defined.

End PointerFacts.

(* ================================================================== *)
(** * Further properties of the orbital motion *)

Section OrbitFacts.

Import THREE SolarSystem.

Lemma animate_motion dt dt' s1 s2 :
  motion s1 = motion s2 -> motion (animate dt s1) = motion (animate dt' s2).
Proof.
  destruct s1 as [c1 p1 g1 sn1 pl1 ms1 sf1], s2 as [c2 p2 g2 sn2 pl2 ms2 sf2].
  unfold motion. cbn [isPaused globalSpeedMultiplier sun planets moons
                      starField_rotation_y].
  intros [= -> -> -> -> -> ->].
  unfold animate, updatePlanets, updateStarField.
  destruct p2, sn2, ms2, sf2; reflexivity.
Qed.

Lemma frames_motion dts : forall dts' s1 s2,
  length dts = length dts' -> motion s1 = motion s2 ->
  motion (frames dts s1) = motion (frames dts' s2).
Proof.
  induction dts as [|dt dts IH]; intros [|dt' dts'] s1 s2 Hl Hm;
    try discriminate; [exact Hm|].
  change (motion (frames dts (animate dt s1))
          = motion (frames dts' (animate dt' s2))).
  apply IH; [now injection Hl | now apply animate_motion].
Qed.

Lemma motion_fields s s' :
  motion s = motion s' ->
  isPaused s = isPaused s' /\ globalSpeedMultiplier s = globalSpeedMultiplier s'
  /\ sun s = sun s' /\ planets s = planets s' /\ moons s = moons s'
  /\ starField_rotation_y s = starField_rotation_y s'.
Proof. unfold motion. now intros [= -> -> -> -> -> ->]. Qed.

(** X17. The orbital motion counts frames, not time: [updatePlanets]
    does not read its [deltaTime] argument, so two runs of the animation
    loop with the same number of frames leave the Sun, the planets, the
    moons and the star field in the same state whatever the clock deltas
    were. *)
Theorem motion_counts_frames_not_time
  (deltas deltas' : list num) (s : SolarSystem.t) :
  length deltas = length deltas' ->
  sun (frames deltas s) = sun (frames deltas' s)
  /\ planets (frames deltas s) = planets (frames deltas' s)
  /\ moons (frames deltas s) = moons (frames deltas' s)
  /\ starField_rotation_y (frames deltas s)
     = starField_rotation_y (frames deltas' s).
Proof.
  intros Hl.
  destruct (motion_fields _ _
              (frames_motion deltas deltas' s s Hl eq_refl))
    as (_ & _ & H1 & H2 & H3 & H4).
  now repeat split.
Qed.

Lemma motion_counts_frames_not_time_witness :
  sun (frames [Fin 0.016; Fin 0.016] baseline)
  = sun (frames [Fin 0.5; NaN] baseline)
  /\ planets (frames [Fin 0.016; Fin 0.016] baseline)
     = planets (frames [Fin 0.5; NaN] baseline)
  /\ moons (frames [Fin 0.016; Fin 0.016] baseline)
     = moons (frames [Fin 0.5; NaN] baseline)
  /\ starField_rotation_y (frames [Fin 0.016; Fin 0.016] baseline)
     = starField_rotation_y (frames [Fin 0.5; NaN] baseline).
Proof.
  apply (motion_counts_frames_not_time [Fin 0.016; Fin 0.016] [Fin 0.5; NaN]
           baseline).
  reflexivity.
Defined.

(** X18. A pause is invisible to the orbital motion: pausing, letting
    any number of frames go by, and resuming leaves the Sun, the
    planets, the moons and the star field where they were, and the
    frames that follow move them exactly as if the pause had not
    happened. *)
Theorem pause_interval_is_invisible
  (during after : list num) (s : SolarSystem.t) :
  isPaused s = false ->
  let resumed := togglePause (frames during (togglePause s)) in
  isPaused resumed = false
  /\ sun (frames after resumed) = sun (frames after s)
  /\ planets (frames after resumed) = planets (frames after s)
  /\ moons (frames after resumed) = moons (frames after s)
  /\ starField_rotation_y (frames after resumed)
     = starField_rotation_y (frames after s).
Proof.
  intros Hp. cbv zeta.
  assert (Hm : motion (togglePause (frames during (togglePause s)))
               = motion s).
  { rewrite frames_paused by (cbn; now rewrite Hp).
    destruct s as [c p g sn pl ms sf]. cbn in Hp. subst p. reflexivity. }
  split.
  { destruct (motion_fields _ _ Hm) as (H & _). now rewrite H. }
  destruct (motion_fields _ _
              (frames_motion after after _ _ eq_refl Hm))
    as (_ & _ & H1 & H2 & H3 & H4).
  now repeat split.
Qed.

Lemma pause_interval_is_invisible_witness :
  let resumed :=
    togglePause (frames [Fin 0.016; Fin 0.016] (togglePause baseline)) in
  isPaused resumed = false
  /\ sun (frames [Fin 0.016] resumed) = sun (frames [Fin 0.016] baseline)
  /\ planets (frames [Fin 0.016] resumed)
     = planets (frames [Fin 0.016] baseline)
  /\ moons (frames [Fin 0.016] resumed) = moons (frames [Fin 0.016] baseline)
  /\ starField_rotation_y (frames [Fin 0.016] resumed)
     = starField_rotation_y (frames [Fin 0.016] baseline).
Proof.
  apply (pause_interval_is_invisible [Fin 0.016; Fin 0.016] [Fin 0.016]
           baseline).
  apply init_controls.
Defined.

Lemma animate_flags dt s :
  isPaused (animate dt s) = isPaused s
  /\ globalSpeedMultiplier (animate dt s) = globalSpeedMultiplier s.
Proof.
  destruct s as [c p g sn pl ms sf].
  unfold animate, updatePlanets, updateStarField.
  destruct p, sn, ms, sf; now split.
Qed.

Lemma animate_starField dt s :
  isPaused s = false ->
  starField_rotation_y (animate dt s)
  = (fun r => (r + Fin 0.0001)%js) <$> starField_rotation_y s.
Proof.
  destruct s as [c p g sn pl ms sf]. cbn [isPaused]. intros ->.
  unfold animate, updatePlanets, updateStarField.
  destruct sn, ms, sf; reflexivity.
Qed.

Lemma frames_unpaused dts : forall s,
  isPaused s = false ->
  planets (frames dts s)
  = Nat.iter (length dts) (fmap (updatePlanet (globalSpeedMultiplier s)))
             (planets s)
  /\ moons (frames dts s)
     = fmap (M := option)
         (Nat.iter (length dts) (fmap (updateMoon (globalSpeedMultiplier s))))
         (moons s)
  /\ starField_rotation_y (frames dts s)
     = Nat.iter (length dts) (fun r => (r + Fin 0.0001)%js)
       <$> starField_rotation_y s.
Proof.
  induction dts as [|dt dts IH]; intros s Hp.
  - cbn [length Nat.iter nat_rect frames fold_left].
    split; [reflexivity|].
    split; [now destruct (moons s) | now destruct (starField_rotation_y s)].
  - change (frames (dt :: dts) s) with (frames dts (animate dt s)).
    destruct (animate_flags dt s) as (F1 & F2).
    destruct (IH (animate dt s)) as (I1 & I2 & I3); [now rewrite F1|].
    rewrite I1, I2, I3, F2, animate_planets, animate_moons, animate_starField
      by exact Hp.
    cbn [length]. rewrite Nat.iter_succ_r.
    split; [reflexivity|].
    split; [destruct (moons s) | destruct (starField_rotation_y s)];
      cbn [fmap option_fmap option_map]; rewrite ?Nat.iter_succ_r;
      reflexivity.
Qed.

Lemma lookup_iter_fmap {A : Type} (f : A -> A) n (m : gmap string A) k :
  Nat.iter n (fmap f) m !! k = Nat.iter n f <$> (m !! k).
Proof.
  induction n as [|n IH].
  - cbn [Nat.iter nat_rect]. now destruct (m !! k).
  - rewrite Nat.iter_succ, lookup_fmap, IH.
    destruct (m !! k); cbn [fmap option_fmap option_map];
      rewrite ?Nat.iter_succ; reflexivity.
Qed.

Lemma iter_updatePlanet g m w rho n : forall p a r0,
  individualSpeed p = Fin m -> orbitalSpeed (data p) = Fin w ->
  rotationSpeed (data p) = Fin rho -> angle p = Fin a ->
  rotation_y (mesh p) = Fin r0 ->
  let p' := Nat.iter n (updatePlanet (Fin g)) p in
  angle p' = Fin (a + INR n * (w * (g * m)))
  /\ rotation_y (mesh p') = Fin (r0 + INR n * (rho * (g * m)))
  /\ (n <> 0%nat -> orbitGroup_rotation_y p' = angle p')
  /\ data p' = data p /\ individualSpeed p' = individualSpeed p
  /\ position (mesh p') = position (mesh p)
  /\ mesh_name (mesh p') = mesh_name (mesh p).
Proof.
  induction n as [|n IH]; intros p a r0 Hm Hw Hrho Ha Hr; cbv zeta.
  - cbn [Nat.iter nat_rect INR]. rewrite Ha, Hr.
    repeat split; try (apply Fin_eq; ring). intros H. now elim H.
  - rewrite Nat.iter_succ.
    destruct (IH p a r0 Hm Hw Hrho Ha Hr) as (I1 & I2 & _ & I4 & I5 & I6 & I7).
    cbv zeta in I1, I2, I4, I5, I6, I7. revert I1 I2 I4 I5 I6 I7.
    generalize (Nat.iter n (updatePlanet (Fin g)) p). intros q I1 I2 I4 I5 I6 I7.
    unfold updatePlanet, rotate_mesh.
    cbn [angle mesh rotation_y orbitGroup_rotation_y data individualSpeed
         position mesh_name].
    rewrite I1, I2, I4, I5, Hm, Hw, Hrho, S_INR.
    cbn [JsNum.mul JsNum.add].
    repeat split; try (apply Fin_eq; ring); assumption.
Qed.

(** X19. The closed form of the orbital motion. While the animation is
    not paused and the speed multipliers stay the same, [n] frames
    advance a planet's orbital angle by [n] times orbitalSpeed x global
    multiplier x individual multiplier and its spin by [n] times
    rotationSpeed x the same multipliers. From the first frame on the
    orbit group is turned to the orbital angle (it is created unturned),
    so a planet created at the distance [d] along the first axis is at
    the point (d cos A, 0, -d sin A) for its angle A: it stays on the
    horizontal circle of radius [d] around the Sun. *)
Theorem planet_moves_uniformly_on_its_circle
  (deltas : list num) (s : SolarSystem.t) (key : string) (p : Planet)
  (g m w rho a r0 d : R) :
  isPaused s = false -> globalSpeedMultiplier s = Fin g ->
  planets s !! key = Some p ->
  individualSpeed p = Fin m -> orbitalSpeed (data p) = Fin w ->
  rotationSpeed (data p) = Fin rho -> angle p = Fin a ->
  rotation_y (mesh p) = Fin r0 ->
  position (mesh p) = Vector3.mk (Fin d) (Fin 0) (Fin 0) ->
  deltas <> [] ->
  let A := a + INR (length deltas) * (w * (g * m)) in
  exists p',
    planets (frames deltas s) !! key = Some p'
    /\ angle p' = Fin A
    /\ rotation_y (mesh p') = Fin (r0 + INR (length deltas) * (rho * (g * m)))
    /\ getWorldPosition p'
       = Vector3.mk (Fin (d * cos A)) (Fin 0) (Fin (- d * sin A))
    /\ Vector3.length (getWorldPosition p') = Fin (Rabs d).
Proof.
  intros Hp Hg Hk Hm Hw Hrho Ha Hr Hpos Hne A.
  destruct (frames_unpaused deltas s Hp) as (E & _).
  exists (Nat.iter (length deltas) (updatePlanet (Fin g)) p).
  split. { rewrite E, Hg, lookup_iter_fmap, Hk. reflexivity. }
  destruct (iter_updatePlanet g m w rho (length deltas) p a r0 Hm Hw Hrho Ha Hr)
    as (I1 & I2 & I3 & _ & _ & I6 & _).
  cbv zeta in I1, I2, I3, I6.
  assert (Hn : length deltas <> 0%nat) by (destruct deltas; [now elim Hne | discriminate]).
  specialize (I3 Hn). fold A in I1.
  split; [exact I1|]. split; [exact I2|].
  assert (W : getWorldPosition (Nat.iter (length deltas) (updatePlanet (Fin g)) p)
              = Vector3.mk (Fin (d * cos A)) (Fin 0) (Fin (- d * sin A))).
  { unfold getWorldPosition, applyRotationY. rewrite I3, I1, I6, Hpos.
    cbn [Vector3.x Vector3.y Vector3.z Math.cos Math.sin JsNum.mul JsNum.neg
         JsNum.add].
    f_equal; apply Fin_eq; ring. }
  split; [exact W|]. rewrite W. unfold Vector3.length.
  cbn [Vector3.x Vector3.y Vector3.z]. rewrite sqrt_sum_squares. apply Fin_eq.
  pose proof (sin2_cos2 A) as E1. unfold Rsqr in E1.
  replace (_ + _) with (d * d * (sin A * sin A + cos A * cos A)) by ring.
  rewrite E1, Rmult_1_r. fold (Rsqr d). apply sqrt_Rsqr_abs.
Qed.

Lemma planet_moves_uniformly_on_its_circle_witness :
  let A := 0 * PI * 2 + INR 2 * (0.01 * (1.0 * 1.0)) in
  exists p',
    planets (frames [Fin 0.016; Fin 0.016] baseline) !! "earth" = Some p'
    /\ angle p' = Fin A
    /\ rotation_y (mesh p') = Fin (0 + INR 2 * (0.02 * (1.0 * 1.0)))
    /\ getWorldPosition p'
       = Vector3.mk (Fin (24 * cos A)) (Fin 0) (Fin (- 24 * sin A))
    /\ Vector3.length (getWorldPosition p') = Fin (Rabs 24).
Proof.
  apply (planet_moves_uniformly_on_its_circle [Fin 0.016; Fin 0.016] baseline
           "earth"
           (created_planet "earth"
              (mkData "Earth" (Fin 2.0) (Fin 24) (Fin 0.01) (Fin 0.02) 0x6b93d6)
              0)
           1.0 1.0 0.01 0.02 (0 * PI * 2) 0 24).
  - apply init_controls.
  - apply init_controls.
  - apply init_earth.
  - reflexivity.
  - reflexivity.
  - reflexivity.
  - reflexivity.
  - reflexivity.
  - reflexivity.
  - discriminate.
Defined.

Lemma iter_updateMoon g v D n : forall mo a r0,
  moon_angle mo = Fin a -> moon_speed mo = Fin v -> moon_distance mo = Fin D ->
  rotation_y (moon_mesh mo) = Fin r0 ->
  let mo' := Nat.iter n (updateMoon (Fin g)) mo in
  moon_angle mo' = Fin (a + INR n * (v * g))
  /\ rotation_y (moon_mesh mo') = Fin (r0 + INR n * (0.02 * g))
  /\ moon_speed mo' = Fin v /\ moon_distance mo' = Fin D
  /\ Vector3.y (position (moon_mesh mo')) = Vector3.y (position (moon_mesh mo))
  /\ (n <> 0%nat ->
      Vector3.x (position (moon_mesh mo'))
      = Fin (cos (a + INR n * (v * g)) * D)
      /\ Vector3.z (position (moon_mesh mo'))
         = Fin (sin (a + INR n * (v * g)) * D)).
Proof.
  induction n as [|n IH]; intros mo a r0 Ha Hv HD Hr; cbv zeta.
  - cbn [Nat.iter nat_rect INR]. rewrite Ha, Hr.
    repeat split; try (apply Fin_eq; ring); try assumption; now elim H.
  - rewrite Nat.iter_succ.
    destruct (IH mo a r0 Ha Hv HD Hr) as (I1 & I2 & I3 & I4 & I5 & _).
    cbv zeta in I1, I2, I3, I4, I5. revert I1 I2 I3 I4 I5.
    generalize (Nat.iter n (updateMoon (Fin g)) mo). intros q I1 I2 I3 I4 I5.
    unfold updateMoon, rotate_mesh.
    cbn [moon_angle moon_mesh moon_speed moon_distance rotation_y position
         Vector3.x Vector3.y Vector3.z].
    rewrite I1, I2, I3, I4, S_INR.
    cbn [JsNum.mul JsNum.add Math.cos Math.sin].
    assert (E : a + INR n * (v * g) + v * g = a + (INR n + 1) * (v * g))
      by ring.
    rewrite E.
    repeat split; try (apply Fin_eq; ring); try assumption.
Qed.

(** X20. The closed form of the motion of a moon. While the animation is
    not paused and the global multiplier stays the same, [n] frames
    advance the moon's angle by [n] times its speed times the global
    multiplier, and place the moon, in the frame of its planet, at (D
    cos A, y, D sin A) for its angle A and its distance D: a moon
    created at height 0 stays at the distance D from the centre of its
    planet. *)
Theorem moon_circles_its_planet
  (deltas : list num) (s : SolarSystem.t) (ms : gmap string Moon)
  (key : string) (mo : Moon) (g a v D r0 : R) :
  isPaused s = false -> globalSpeedMultiplier s = Fin g ->
  moons s = Some ms -> ms !! key = Some mo ->
  moon_angle mo = Fin a -> moon_speed mo = Fin v -> moon_distance mo = Fin D ->
  rotation_y (moon_mesh mo) = Fin r0 ->
  Vector3.y (position (moon_mesh mo)) = Fin 0 ->
  deltas <> [] ->
  let A := a + INR (length deltas) * (v * g) in
  exists ms' mo',
    moons (frames deltas s) = Some ms' /\ ms' !! key = Some mo'
    /\ moon_angle mo' = Fin A
    /\ rotation_y (moon_mesh mo')
       = Fin (r0 + INR (length deltas) * (0.02 * g))
    /\ position (moon_mesh mo')
       = Vector3.mk (Fin (cos A * D)) (Fin 0) (Fin (sin A * D))
    /\ Vector3.length (position (moon_mesh mo')) = Fin (Rabs D).
Proof.
  intros Hp Hg Hms Hk Ha Hv HD Hr Hy Hne A.
  destruct (frames_unpaused deltas s Hp) as (_ & E & _).
  exists (Nat.iter (length deltas) (fmap (updateMoon (Fin g))) ms),
         (Nat.iter (length deltas) (updateMoon (Fin g)) mo).
  split. { rewrite E, Hg, Hms. reflexivity. }
  split. { rewrite lookup_iter_fmap, Hk. reflexivity. }
  destruct (iter_updateMoon g v D (length deltas) mo a r0 Ha Hv HD Hr)
    as (I1 & I2 & _ & _ & I5 & I6).
  cbv zeta in I1, I2, I5, I6.
  assert (Hn : length deltas <> 0%nat)
    by (destruct deltas; [now elim Hne | discriminate]).
  destruct (I6 Hn) as (Ix & Iz). fold A in I1, Ix, Iz. rewrite Hy in I5.
  split; [exact I1|]. split; [exact I2|].
  assert (P : position (moon_mesh (Nat.iter (length deltas)
                                     (updateMoon (Fin g)) mo))
              = Vector3.mk (Fin (cos A * D)) (Fin 0) (Fin (sin A * D))).
  { revert I5 Ix Iz.
    generalize (position (moon_mesh (Nat.iter (length deltas)
                                       (updateMoon (Fin g)) mo))).
    intros [x y z]. cbn [Vector3.x Vector3.y Vector3.z]. now intros -> -> ->. }
  split; [exact P|]. rewrite P. unfold Vector3.length.
  cbn [Vector3.x Vector3.y Vector3.z]. rewrite sqrt_sum_squares. apply Fin_eq.
  pose proof (sin2_cos2 A) as E1. unfold Rsqr in E1.
  replace (_ + _) with (D * D * (sin A * sin A + cos A * cos A)) by ring.
  rewrite E1, Rmult_1_r. fold (Rsqr D). apply sqrt_Rsqr_abs.
Qed.

Lemma iter_starField n r :
  Nat.iter n (fun r => (r + Fin 0.0001)%js) (Fin r)
  = Fin (r + INR n * 0.0001).
Proof.
  induction n as [|n IH].
  - cbn [Nat.iter nat_rect INR]. apply Fin_eq. ring.
  - rewrite Nat.iter_succ, IH, S_INR. cbn [JsNum.add]. apply Fin_eq. ring.
Qed.

(** X21. Setting the global speed to zero is not a pause. With the
    multiplier at 0 and the animation running, the frames leave a
    planet's orbital angle and spin at their values, but the star field
    keeps turning by 0.0001 per frame: its rate is fixed and no speed
    control reaches it. *)
Theorem zero_speed_stops_planets_but_not_stars
  (deltas : list num) (s : SolarSystem.t) (key : string) (p : Planet)
  (m w rho a r0 r : R) :
  isPaused s = false -> globalSpeedMultiplier s = Fin 0 ->
  planets s !! key = Some p ->
  individualSpeed p = Fin m -> orbitalSpeed (data p) = Fin w ->
  rotationSpeed (data p) = Fin rho -> angle p = Fin a ->
  rotation_y (mesh p) = Fin r0 ->
  starField_rotation_y s = Some (Fin r) ->
  (exists p',
     planets (frames deltas s) !! key = Some p'
     /\ angle p' = Fin a /\ rotation_y (mesh p') = Fin r0)
  /\ starField_rotation_y (frames deltas s)
     = Some (Fin (r + INR (length deltas) * 0.0001)).
Proof.
  intros Hp Hg Hk Hm Hw Hrho Ha Hr Hsf.
  destruct (frames_unpaused deltas s Hp) as (E & _ & F).
  split.
  - exists (Nat.iter (length deltas) (updatePlanet (Fin 0)) p).
    split. { rewrite E, Hg, lookup_iter_fmap, Hk. reflexivity. }
    destruct (iter_updatePlanet 0 m w rho (length deltas) p a r0
                Hm Hw Hrho Ha Hr) as (I1 & I2 & _).
    cbv zeta in I1, I2. rewrite I1, I2. split; apply Fin_eq; ring.
  - rewrite F, Hsf. cbn [fmap option_fmap option_map].
    now rewrite iter_starField.
Qed.

End OrbitFacts.

(* ================================================================== *)
(** * Construction of the system and focus targets *)

Section ConstructionFacts.

Import THREE SolarSystem.

Lemma createPlanet_rest key d rnd s :
  sun (createPlanet key d rnd s) = sun s
  /\ starField_rotation_y (createPlanet key d rnd s) = starField_rotation_y s
  /\ moons (createPlanet key d rnd s)
     = if String.eqb key "earth"
       then Some (<["earth" := created_moon (radius d)]>
                    (match moons s with Some ms => ms | None => ∅ end))
       else moons s.
Proof.
  unfold createPlanet. destruct (String.eqb key "earth"); now repeat split.
Qed.

Lemma NoDup_keys_snoc (table : list (string * PlanetData)) k0 d0 :
  NoDup (map fst (table ++ [(k0, d0)])) ->
  NoDup (map fst table) /\ ~ In k0 (map fst table).
Proof.
  rewrite map_app. cbn [map fst]. intros H.
  apply NoDup_app in H as (H1 & H2 & _). split; [exact H1|].
  intros Hin. apply (H2 k0); [now apply list_elem_of_In | now left].
Qed.

(** What the loop of [init] over the table adds to a state. *)
Lemma fold_createPlanet (rnd : string -> R) s0 table :
  NoDup (map fst table) ->
  let sF :=
    fold_left (fun s kd => createPlanet (fst kd) (snd kd) (rnd (fst kd)) s)
              table s0 in
  (forall k d, In (k, d) table ->
     planets sF !! k = Some (created_planet k d (rnd k)))
  /\ (forall k, ~ In k (map fst table) -> planets sF !! k = planets s0 !! k)
  /\ sun sF = sun s0
  /\ starField_rotation_y sF = starField_rotation_y s0
  /\ (forall d, In ("earth", d) table ->
        moons sF
        = Some (<["earth" := created_moon (radius d)]>
                  (match moons s0 with Some ms => ms | None => ∅ end)))
  /\ (~ In "earth" (map fst table) -> moons sF = moons s0).
Proof.
  cbv zeta.
  set (step := fun (s : SolarSystem.t) (kd : string * PlanetData) =>
                 createPlanet (fst kd) (snd kd) (rnd (fst kd)) s).
  induction table as [|[k0 d0] table IH] using rev_ind.
  - intros _. cbn [fold_left].
    repeat split; try reflexivity; intros; now try contradiction.
  - intros ND. apply NoDup_keys_snoc in ND as (ND & Hk0).
    destruct (IH ND) as (I1 & I2 & I3 & I4 & I5 & I6).
    rewrite fold_left_app. cbn [fold_left]. revert I1 I2 I3 I4 I5 I6.
    generalize (fold_left step table s0). intros s1 I1 I2 I3 I4 I5 I6.
    unfold step. cbn [fst snd].
    destruct (createPlanet_rest k0 d0 (rnd k0) s1) as (C1 & C2 & C3).
    rewrite planets_createPlanet, C1, C2, C3.
    fold (created_planet k0 d0 (rnd k0)).
    split; [|split; [|split; [exact I3 | split; [exact I4 | split]]]].
    + intros k d Hin. apply in_app_or in Hin as [Hin | [[= <- <-] | []]].
      * rewrite lookup_insert_ne; [now apply I1|].
        intros <-. apply Hk0. apply (in_map fst) in Hin. exact Hin.
      * apply lookup_insert_eq.
    + intros k Hk. rewrite map_app, in_app_iff in Hk. cbn [map fst In] in Hk.
      rewrite lookup_insert_ne; [apply I2; tauto | intros <-; tauto].
    + intros d Hin. apply in_app_or in Hin as [Hin | [[= -> ->] | []]].
      * assert (Hne : k0 <> "earth").
        { intros ->. apply Hk0. apply (in_map fst) in Hin. exact Hin. }
        apply String.eqb_neq in Hne. rewrite Hne. now apply I5.
      * rewrite String.eqb_refl. rewrite I6 by exact Hk0. reflexivity.
    + intros Hk. rewrite map_app, in_app_iff in Hk. cbn [map fst In] in Hk.
      assert (Hne : k0 <> "earth") by (intros ->; tauto).
      apply String.eqb_neq in Hne. rewrite Hne. apply I6. tauto.
Qed.

(** What [init] has stored after the loop over the table. *)
Lemma init_table h rnd table :
  NoDup (map fst table) ->
  (forall k d, In (k, d) table ->
     planets (init h table rnd) !! k = Some (created_planet k d (rnd k)))
  /\ (forall k, ~ In k (map fst table) ->
        planets (init h table rnd) !! k = None)
  /\ sun (init h table rnd) = Some (mkMesh "sun" Vector3.zero (Fin 0))
  /\ starField_rotation_y (init h table rnd) = Some (Fin 0)
  /\ (forall d, In ("earth", d) table ->
        moons (init h table rnd)
        = Some (<["earth" := created_moon (radius d)]> ∅))
  /\ (~ In "earth" (map fst table) -> moons (init h table rnd) = None).
Proof.
  intros ND. unfold init. cbv zeta.
  destruct (fold_createPlanet rnd
              (createSun (mk (setupControls h) false (Fin 1.0) None ∅ None
                             (Some (Fin 0)))) table ND)
    as (I1 & I2 & I3 & I4 & I5 & I6).
  cbv zeta in I1, I2, I3, I4, I5, I6.
  split; [exact I1|]. split; [|split; [exact I3 | split; [exact I4 | split]]].
  - intros k Hk. rewrite (I2 k Hk). apply lookup_empty.
  - exact I5.
  - exact I6.
Qed.

(** X22. [init] builds exactly the bodies of its table. For a table with
    distinct keys, every entry becomes a planet stored under its key:
    its mesh at the distance [data.distance] along the first axis, the
    orbit group not yet turned, the starting angle [Math.random() * 2
    pi], which lies in [0, 2 pi), and the individual speed 1; no other
    key is stored. The Sun is created at the origin, and there is a
    moon, only one and for the key "earth", exactly when the table has
    that key: at three planet radii, with speed 0.05. *)
Theorem init_builds_the_bodies_of_the_table
  (h : num) (rnd : string -> R) (table : list (string * PlanetData)) :
  NoDup (map fst table) ->
  (forall k d, In (k, d) table ->
     planets (init h table rnd) !! k = Some (created_planet k d (rnd k))
     /\ (0 <= rnd k < 1 ->
         exists a, angle (created_planet k d (rnd k)) = Fin a
                   /\ 0 <= a < 2 * PI))
  /\ (forall k, ~ In k (map fst table) ->
        planets (init h table rnd) !! k = None)
  /\ sun (init h table rnd) = Some (mkMesh "sun" Vector3.zero (Fin 0))
  /\ (forall d, In ("earth", d) table ->
        moons (init h table rnd)
        = Some (<["earth" := created_moon (radius d)]> ∅))
  /\ (~ In "earth" (map fst table) -> moons (init h table rnd) = None).
Proof.
  intros ND. destruct (init_table h rnd table ND) as (I1 & I2 & I3 & _ & I5 & I6).
  split; [|now repeat split].
  intros k d Hin. split; [now apply I1|].
  intros Hr. exists (rnd k * PI * 2). split; [reflexivity|].
  pose proof PI_RGT_0. nra.
Qed.

Lemma planetData_keys :
  NoDup (map fst planetData).
Proof.
  apply (bool_decide_unpack _). vm_compute. reflexivity.
Qed.

Lemma init_builds_the_bodies_of_the_table_witness :
  (forall k d, In (k, d) planetData ->
     planets (init (Fin 800) planetData (fun _ => 0)) !! k
     = Some (created_planet k d 0)
     /\ (0 <= 0 < 1 ->
         exists a, angle (created_planet k d 0) = Fin a /\ 0 <= a < 2 * PI))
  /\ (forall k, ~ In k (map fst planetData) ->
        planets (init (Fin 800) planetData (fun _ => 0)) !! k = None)
  /\ sun (init (Fin 800) planetData (fun _ => 0))
     = Some (mkMesh "sun" Vector3.zero (Fin 0))
  /\ (forall d, In ("earth", d) planetData ->
        moons (init (Fin 800) planetData (fun _ => 0))
        = Some (<["earth" := created_moon (radius d)]> ∅))
  /\ (~ In "earth" (map fst planetData) ->
      moons (init (Fin 800) planetData (fun _ => 0)) = None).
Proof.
  apply (init_builds_the_bodies_of_the_table (Fin 800) (fun _ => 0) planetData).
  apply planetData_keys.
Defined.

(** X23. The names [focusOnObject] accepts are "sun" and the keys of the
    table, nothing else: on a system built by [init], the call returns
    early, changing nothing and starting no transition, exactly when the
    name is neither. (Names of properties inherited from
    [Object.prototype] are left aside: for them the lookup in
    [this.planets] finds a value that is no planet.) *)
Theorem focus_targets_are_the_sun_and_the_planets
  (h : num) (rnd : string -> R) (table : list (string * PlanetData))
  (objectName : string) (now now' : R) :
  NoDup (map fst table) ->
  ~ In objectName Object_prototype_names ->
  let s := init h table rnd in
  (startFocus objectName now s = None
   <-> objectName <> "sun" /\ ~ In objectName (map fst table))
  /\ (startFocus objectName now s = None ->
      focusOnObject objectName now now' s = (s, None)).
Proof.
  intros ND _. cbv zeta.
  destruct (init_table h rnd table ND) as (I1 & I2 & _).
  split.
  - unfold startFocus.
    destruct (String.eqb objectName "sun") eqn:E.
    + apply String.eqb_eq in E. split; [discriminate | tauto].
    + apply String.eqb_neq in E.
      destruct (in_dec string_dec objectName (map fst table)) as [Hin|Hout].
      * apply in_map_iff in Hin as ([k d] & <- & Hin). cbn [fst].
        rewrite (I1 k d Hin). split; [discriminate|].
        intros (_ & Hc). elim Hc. apply (in_map fst) in Hin. exact Hin.
      * rewrite (I2 _ Hout). split; [now split | reflexivity].
  - intros E. unfold focusOnObject. now rewrite E.
Qed.

Lemma focus_targets_are_the_sun_and_the_planets_witness :
  (startFocus "pluto" 0 baseline = None
   <-> "pluto" <> "sun" /\ ~ In "pluto" (map fst planetData))
  /\ (startFocus "pluto" 0 baseline = None ->
      focusOnObject "pluto" 0 16 baseline = (baseline, None)).
Proof.
  apply (focus_targets_are_the_sun_and_the_planets (Fin 800) (fun _ => 0)
           planetData "pluto" 0 16).
  - apply planetData_keys.
  - cbn [Object_prototype_names In]. intros H.
    repeat (destruct H as [H|H]; [discriminate H|]). exact H.
Defined.

End ConstructionFacts.

Section MotionRuns.

Import THREE SolarSystem.

Lemma baseline_moons :
  moons baseline = Some (<["earth" := created_moon (Fin 2.0)]> ∅).
Proof.
  destruct (init_table (Fin 800) (fun _ => 0) planetData planetData_keys)
    as (_ & _ & _ & _ & I5 & _).
  apply (I5 (mkData "Earth" (Fin 2.0) (Fin 24) (Fin 0.01) (Fin 0.02) 0x6b93d6)).
  unfold planetData. cbn [In]. tauto.
Qed.

Lemma moon_circles_its_planet_witness :
  let A := 0 + INR 2 * (0.05 * 1.0) in
  exists ms' mo',
    moons (frames [Fin 0.016; Fin 0.016] baseline) = Some ms'
    /\ ms' !! "earth" = Some mo'
    /\ moon_angle mo' = Fin A
    /\ rotation_y (moon_mesh mo') = Fin (0 + INR 2 * (0.02 * 1.0))
    /\ position (moon_mesh mo')
       = Vector3.mk (Fin (cos A * (2.0 * 3))) (Fin 0) (Fin (sin A * (2.0 * 3)))
    /\ Vector3.length (position (moon_mesh mo')) = Fin (Rabs (2.0 * 3)).
Proof.
  apply (moon_circles_its_planet [Fin 0.016; Fin 0.016] baseline
           (<["earth" := created_moon (Fin 2.0)]> ∅) "earth"
           (created_moon (Fin 2.0)) 1.0 0 0.05 (2.0 * 3) 0).
  - apply init_controls.
  - apply init_controls.
  - apply baseline_moons.
  - apply lookup_insert_eq.
  - reflexivity.
  - reflexivity.
  - reflexivity.
  - reflexivity.
  - reflexivity.
  - discriminate.
Defined.

Lemma onGlobalSpeedInput_rest v s :
  isPaused (onGlobalSpeedInput v s) = isPaused s
  /\ planets (onGlobalSpeedInput v s) = planets s
  /\ starField_rotation_y (onGlobalSpeedInput v s) = starField_rotation_y s.
Proof. now repeat split. Qed.

Lemma zero_speed_stops_planets_but_not_stars_witness :
  (exists p',
     planets (frames [Fin 0.016; Fin 0.016]
                (onGlobalSpeedInput (Fin 0) baseline)) !! "earth" = Some p'
     /\ angle p' = Fin (0 * PI * 2) /\ rotation_y (mesh p') = Fin 0)
  /\ starField_rotation_y
       (frames [Fin 0.016; Fin 0.016] (onGlobalSpeedInput (Fin 0) baseline))
     = Some (Fin (0 + INR 2 * 0.0001)).
Proof.
  apply (zero_speed_stops_planets_but_not_stars [Fin 0.016; Fin 0.016]
           (onGlobalSpeedInput (Fin 0) baseline) "earth"
           (created_planet "earth"
              (mkData "Earth" (Fin 2.0) (Fin 24) (Fin 0.01) (Fin 0.02) 0x6b93d6)
              0)
           1.0 0.01 0.02 (0 * PI * 2) 0 0).
  - destruct (onGlobalSpeedInput_rest (Fin 0) baseline) as (-> & _).
    apply init_controls.
  - reflexivity.
  - destruct (onGlobalSpeedInput_rest (Fin 0) baseline) as (_ & -> & _).
    apply init_earth.
  - reflexivity.
  - reflexivity.
  - reflexivity.
  - reflexivity.
  - reflexivity.
  - destruct (onGlobalSpeedInput_rest (Fin 0) baseline) as (_ & _ & ->).
    apply (init_table (Fin 800) (fun _ => 0) planetData planetData_keys).
Defined.

End MotionRuns.

(* ================================================================== *)
(** * Further properties of the focus transition *)

Section FocusFacts.

Import THREE SolarSystem.

Lemma cube_monotone x y : 0 <= x <= y -> x ^ 3 <= y ^ 3.
Proof. intros H. apply pow_incr. exact H. Qed.

(** X24. The easing of a focus transition never runs backwards and never
    overshoots. For two steps of the same transition taken at times
    [now1 <= now2], none before the transition was set up, the eased
    fractions are real numbers with 0 <= eased1 <= eased2 <= 1; the
    fraction is 0 at the very time of the set-up and 1 from 2000 ms
    after it on. *)
Theorem focus_easing_is_monotone_and_bounded
  (objectName : string) (t0 now1 now2 : R) (s0 : SolarSystem.t) (f : Focus) :
  startFocus objectName t0 s0 = Some f ->
  t0 <= now1 <= now2 ->
  exists e1 e2,
    eased_of (progress_of f now1) = Fin e1
    /\ eased_of (progress_of f now2) = Fin e2
    /\ 0 <= e1 <= e2 /\ e2 <= 1
    /\ (now1 = t0 -> e1 = 0)
    /\ (t0 + 2000 <= now2 -> e2 = 1).
Proof.
  intros Hf Hn.
  destruct (startFocus_inv _ _ _ _ Hf) as (Hd & Ht & _).
  rewrite !eased_of_progress by exact Hd. rewrite Ht.
  eexists. eexists. split; [reflexivity|]. split; [reflexivity|].
  set (p1 := Rmin ((now1 - t0) / 2000) 1).
  set (p2 := Rmin ((now2 - t0) / 2000) 1).
  assert (Q1 : 0 <= (now1 - t0) / 2000).
  { unfold Rdiv. apply Rmult_le_pos; [lra|].
    apply Rlt_le, Rinv_0_lt_compat. lra. }
  assert (Q12 : (now1 - t0) / 2000 <= (now2 - t0) / 2000).
  { unfold Rdiv. apply Rmult_le_compat_r; lra. }
  assert (B1 : 0 <= p1 <= 1).
  { unfold p1, Rmin. destruct (Rle_dec _ _); lra. }
  assert (B12 : p1 <= p2).
  { unfold p1, p2. apply Rle_min_compat_r. exact Q12. }
  assert (B2 : p2 <= 1) by apply Rmin_r.
  pose proof (cube_monotone (1 - p2) (1 - p1) ltac:(lra)) as M.
  pose proof (cube_monotone 0 (1 - p2) ltac:(lra)) as M0.
  pose proof (cube_monotone (1 - p1) 1 ltac:(lra)) as M1.
  replace (0 ^ 3) with 0 in M0 by ring. replace (1 ^ 3) with 1 in M1 by ring.
  split; [lra|]. split; [lra|]. split.
  - intros ->. unfold p1. replace ((t0 - t0) / 2000) with 0 by (field; lra).
    rewrite Rmin_left by lra. ring.
  - intros H. unfold p2. rewrite Rmin_right.
    + ring.
    + apply Rmult_le_reg_r with 2000; [lra|]. unfold Rdiv.
      rewrite Rmult_assoc, Rinv_l by lra. lra.
Qed.

Lemma startFocus_sun s :
  startFocus "sun" 0 s
  = Some (mkFocus (camera_position s)
            (Vector3.add Vector3.zero
               (Vector3.mk (Fin 15) (Fin 15 * Fin 0.5)%js (Fin 15)))
            Vector3.zero (Fin 2000) 0).
Proof. reflexivity. Qed.

Lemma focus_easing_is_monotone_and_bounded_witness :
  exists e1 e2,
    eased_of (progress_of
                (mkFocus (camera_position baseline)
                   (Vector3.add Vector3.zero
                      (Vector3.mk (Fin 15) (Fin 15 * Fin 0.5)%js (Fin 15)))
                   Vector3.zero (Fin 2000) 0) 500) = Fin e1
    /\ eased_of (progress_of
                   (mkFocus (camera_position baseline)
                      (Vector3.add Vector3.zero
                         (Vector3.mk (Fin 15) (Fin 15 * Fin 0.5)%js (Fin 15)))
                      Vector3.zero (Fin 2000) 0) 1000) = Fin e2
    /\ 0 <= e1 <= e2 /\ e2 <= 1
    /\ (500 = 0 -> e1 = 0)
    /\ (0 + 2000 <= 1000 -> e2 = 1).
Proof.
  apply (focus_easing_is_monotone_and_bounded "sun" 0 500 1000 baseline).
  - apply startFocus_sun.
  - lra.
Defined.

Lemma sqrt_vantage d :
  0 <= d -> sqrt (d * d + d * 0.5 * (d * 0.5) + d * d) = 1.5 * d.
Proof.
  intros Hd. replace (_ + _) with ((1.5 * d) * (1.5 * d)) by lra.
  apply sqrt_square. lra.
Qed.

(** X25. Where a focus transition is headed. For a planet stored under
    the name, with a radius that is not negative and at a world position
    in real coordinates, [focusOnObject] sets up a transition from the
    current camera position toward the world position the planet has at
    that moment, and the end position of the camera is 12 radii away
    from it (one and a half times the focus distance of 8 radii). For
    the Sun the end position is 22.5 units from the origin. *)
Theorem focus_vantage_point_is_twelve_radii_away
  (objectName : string) (t0 r : R) (s0 : SolarSystem.t) (planet : Planet) :
  objectName <> "sun" ->
  planets s0 !! objectName = Some planet ->
  radius (data planet) = Fin r -> 0 <= r ->
  finite3 (getWorldPosition planet) ->
  (exists f,
     startFocus objectName t0 s0 = Some f
     /\ startPosition f = camera_position s0
     /\ targetPosition f = getWorldPosition planet
     /\ Vector3.distanceTo (endPosition f) (targetPosition f) = Fin (12 * r))
  /\ (exists f,
        startFocus "sun" t0 s0 = Some f
        /\ targetPosition f = Vector3.zero
        /\ Vector3.distanceTo (endPosition f) (targetPosition f) = Fin 22.5).
Proof.
  intros Hne Hl Hr Hpos Hfin.
  assert (D : forall f dist tx ty tz d,
    endPosition f
    = Vector3.add (targetPosition f)
                  (Vector3.mk dist (dist * Fin 0.5)%js dist) ->
    0 <= d -> targetPosition f = Vector3.mk (Fin tx) (Fin ty) (Fin tz) ->
    dist = Fin d ->
    Vector3.distanceTo (endPosition f) (targetPosition f) = Fin (1.5 * d)).
  { intros f dist tx ty tz d He Hd Ht Hdist. rewrite He, Ht, Hdist.
    unfold Vector3.add. cbn [Vector3.x Vector3.y Vector3.z JsNum.mul JsNum.add].
    rewrite distanceTo_Fin. apply Fin_eq.
    rewrite <- (sqrt_vantage d Hd). f_equal. ring. }
  split.
  - destruct (startFocus objectName t0 s0) as [f|] eqn:Hf.
    + destruct (startFocus_inv _ _ _ _ Hf)
        as (_ & _ & Hs & dist & He & [(E & _)|(_ & planet' & Hl' & Ht & Hdist)]);
        [contradiction|].
      rewrite Hl in Hl'. injection Hl' as <-.
      exists f. split; [reflexivity|]. split; [exact Hs|]. split; [exact Ht|].
      destruct (finite3_inv _ Hfin) as (tx & ty & tz & Hw).
      rewrite Hw in Ht. rewrite Hr in Hdist. cbn [JsNum.mul] in Hdist.
      rewrite (D f dist tx ty tz (r * 8) He ltac:(lra) Ht Hdist).
      apply Fin_eq. lra.
    + exfalso. revert Hf. unfold startFocus.
      apply String.eqb_neq in Hne. rewrite Hne, Hl. discriminate.
  - eexists. split; [reflexivity|]. split; [reflexivity|].
    rewrite (D _ (Fin 15) 0 0 0 15); [apply Fin_eq; lra | reflexivity | lra
                                      | reflexivity | reflexivity].
Qed.

Lemma focus_vantage_point_is_twelve_radii_away_witness :
  let earth :=
    created_planet "earth"
      (mkData "Earth" (Fin 2.0) (Fin 24) (Fin 0.01) (Fin 0.02) 0x6b93d6) 0 in
  (exists f,
     startFocus "earth" 0 baseline = Some f
     /\ startPosition f = camera_position baseline
     /\ targetPosition f = getWorldPosition earth
     /\ Vector3.distanceTo (endPosition f) (targetPosition f)
        = Fin (12 * 2.0))
  /\ (exists f,
        startFocus "sun" 0 baseline = Some f
        /\ targetPosition f = Vector3.zero
        /\ Vector3.distanceTo (endPosition f) (targetPosition f) = Fin 22.5).
Proof.
  apply (focus_vantage_point_is_twelve_radii_away "earth" 0 2.0 baseline
           (created_planet "earth"
              (mkData "Earth" (Fin 2.0) (Fin 24) (Fin 0.01) (Fin 0.02)
                      0x6b93d6) 0)).
  - discriminate.
  - apply init_earth.
  - reflexivity.
  - lra.
  - unfold created_planet, getWorldPosition, applyRotationY.
    cbn. repeat split; exact I.
Defined.

End FocusFacts.

(* ================================================================== *)
(** * The moon in the scene *)

Section MoonInScene.

Import THREE SolarSystem.

(** The moon seen from its planet, in the axes of the scene: the moon's
    angle in its planet's frame, less the spin of the planet, less the
    turn of the orbit group. *)
Lemma moon_offset_z A S a c D :
  - sin A * (c + (cos S * (cos a * D) + sin S * (sin a * D)))
  + cos A * (0 + (- sin S * (cos a * D) + cos S * (sin a * D)))
  - (- sin A * c + cos A * 0)
  = D * sin (a - S - A).
Proof.
  replace (a - S - A) with (a - (S + A)) by ring.
  rewrite sin_minus, sin_plus, cos_plus. ring.
Qed.

Lemma moon_offset_after_frame (m : R) (s : SolarSystem.t) :
  isPaused s = false -> globalSpeedMultiplier s = Fin 1.0 ->
  planets s !! "earth"
  = Some (mkPlanet (mkMesh "earth" (Vector3.mk (Fin 24) (Fin 0) (Fin 0))
                           (Fin 0))
            (Fin 0)
            (mkData "Earth" (Fin 2.0) (Fin 24) (Fin 0.01) (Fin 0.02) 0x6b93d6)
            (Fin (0 * PI * 2)) (Fin m)) ->
  moons s = Some (<["earth" := created_moon (Fin 2.0)]> ∅) ->
  Vector3.z <$> moon_offset_in_scene "earth" (animate (Fin 0.016) s)
  = Some (Fin (2.0 * 3 * sin (0.05 - 0.02 * m - 0.01 * m))).
Proof.
  intros Hp Hg Hl Hm. unfold moon_offset_in_scene.
  rewrite animate_planets, animate_moons by exact Hp.
  rewrite Hg, Hm, lookup_fmap, Hl.
  cbn [fmap option_fmap option_map]. rewrite lookup_fmap, lookup_insert_eq.
  cbn [fmap option_fmap option_map].
  unfold moonWorldPosition, getWorldPosition, applyRotationY, updatePlanet,
    updateMoon, rotate_mesh, created_moon, Vector3.add, Vector3.sub.
  cbn [angle data orbitalSpeed rotationSpeed individualSpeed mesh position
       rotation_y orbitGroup_rotation_y mesh_name moon_mesh moon_angle
       moon_distance moon_speed Vector3.x Vector3.y Vector3.z
       JsNum.mul JsNum.add JsNum.sub JsNum.neg Math.cos Math.sin].
  f_equal. apply Fin_eq.
  transitivity
    (2.0 * 3 * sin (0 + 0.05 * 1.0 - (0 + 0.02 * (1.0 * m))
                    - (0 * PI * 2 + 0.01 * (1.0 * m)))).
  - rewrite <- moon_offset_z with (c := 24). ring.
  - f_equal. f_equal. lra.
Qed.

Lemma onPlanetSpeedInput_rest key v s :
  isPaused (onPlanetSpeedInput key v s) = isPaused s
  /\ globalSpeedMultiplier (onPlanetSpeedInput key v s)
     = globalSpeedMultiplier s
  /\ moons (onPlanetSpeedInput key v s) = moons s.
Proof. now repeat split. Qed.

(** C10, counterexample: the baseline system, one frame, with the
    Earth's individual speed at 1 and at 3.  The records of the moon are
    the same in both runs, but the moon itself is not at the same place
    relative to the Earth: its mesh is a child of the Earth's mesh, whose
    spin and orbit the individual speed scales.  Seen from the centre of
    the Earth, along the third axis of the scene, the moon is at
    6 sin 0.02, in front, at speed 1 and at - 6 sin 0.04, behind, at
    speed 3. *)
Lemma C10_counterexample :
  let s1 := animate (Fin 0.016) baseline in
  let s3 :=
    animate (Fin 0.016) (onPlanetSpeedInput "earth" (Fin 3) baseline) in
  moons s3 = moons s1
  /\ exists z1 z3,
       Vector3.z <$> moon_offset_in_scene "earth" s1 = Some (Fin z1)
       /\ Vector3.z <$> moon_offset_in_scene "earth" s3 = Some (Fin z3)
       /\ 0 < z1 /\ z3 < 0.
Proof.
  cbv zeta.
  destruct (init_controls (Fin 800) planetData (fun _ => 0)) as (_ & Hp & Hg).
  fold baseline in Hp, Hg.
  destruct (onPlanetSpeedInput_rest "earth" (Fin 3) baseline)
    as (Hp3 & Hg3 & Hm3).
  rewrite Hp in Hp3. rewrite Hg in Hg3. rewrite baseline_moons in Hm3.
  split.
  { rewrite !animate_moons by assumption. rewrite Hm3, Hg3, Hg, baseline_moons.
    reflexivity. }
  exists (2.0 * 3 * sin (0.05 - 0.02 * 1.0 - 0.01 * 1.0)),
         (2.0 * 3 * sin (0.05 - 0.02 * 3 - 0.01 * 3)).
  split; [|split; [|split]].
  - apply moon_offset_after_frame; [exact Hp | exact Hg | | exact baseline_moons].
    unfold baseline. apply init_earth.
  - apply moon_offset_after_frame; [exact Hp3 | exact Hg3 | | exact Hm3].
    unfold onPlanetSpeedInput. cbn [set_planets planets].
    rewrite lookup_alter_eq. unfold baseline. rewrite init_earth. reflexivity.
  - replace (0.05 - 0.02 * 1.0 - 0.01 * 1.0) with 0.02 by lra.
    pose proof PI2_1. assert (0 < sin 0.02) by (apply sin_gt_0; lra). lra.
  - replace (sin (0.05 - 0.02 * 3 - 0.01 * 3)) with (- sin 0.04)
      by (rewrite <- sin_neg; f_equal; lra).
    pose proof PI2_1. assert (0 < sin 0.04) by (apply sin_gt_0; lra). lra.
Qed.

End MoonInScene.
